(** * The Observer Effect: colour classification and gaze estimation

    A shallow embedding of the analysis functions of the exhibition script
    ([src/exhibition/js/exhibition_js_v2.js], module [V2] below) and of its
    older version ([src/unnamed/part_000], module [V1]), with the properties
    of the specification stated and proved over them, and of the functions
    around them: the log on the page, the waves, the tracking of the visitor,
    the ticker and the clock.

    Numbers.  A JavaScript number is modelled by [JS.num]: an exact rational,
    or one of the three special values [NaN], [+Infinity], [-Infinity], with
    the arithmetic and the comparisons ECMAScript gives the special values.
    Finite arithmetic is exact: the rounding of IEEE-754 doubles is not
    modelled, and zero is unsigned.  [undefined], where the script feeds it
    to an arithmetic operator, is the [NaN] it is converted to. *)

From Stdlib Require Import ZArith QArith Qround Lqa Lia List String Ascii Bool.
From Stdlib Require Import DecimalString Permutation.
Import ListNotations.

(** * The scripts *)

(** ** JavaScript numbers *)

Module JS.

Inductive num : Type :=
| Fin (q : Q)
| PInf
| NInf
| NaN.

Declare Scope js_scope.
Delimit Scope js_scope with js.
Bind Scope js_scope with num.

Definition of_Z (z : Z) : num := Fin (inject_Z z).

(** Sign of a finite value, as a [comparison] with zero. *)
Definition sgn (q : Q) : comparison := (q ?= 0)%Q.

Definition neg (a : num) : num :=
  match a with
  | Fin q => Fin (- q)
  | PInf => NInf
  | NInf => PInf
  | NaN => NaN
  end.

Definition add (a b : num) : num :=
  match a, b with
  | NaN, _ | _, NaN => NaN
  | Fin p, Fin q => Fin (p + q)
  | PInf, NInf | NInf, PInf => NaN
  | PInf, _ | _, PInf => PInf
  | NInf, _ | _, NInf => NInf
  end.

Definition sub (a b : num) : num := add a (neg b).

(** An infinity of the sign [c]; an infinity times zero is [NaN]. *)
Definition signed_inf (c : comparison) : num :=
  match c with
  | Gt => PInf
  | Lt => NInf
  | Eq => NaN
  end.

Definition mul (a b : num) : num :=
  match a, b with
  | NaN, _ | _, NaN => NaN
  | Fin p, Fin q => Fin (p * q)
  | Fin p, PInf | PInf, Fin p => signed_inf (sgn p)
  | Fin p, NInf | NInf, Fin p => signed_inf (CompOpp (sgn p))
  | PInf, PInf | NInf, NInf => PInf
  | PInf, NInf | NInf, PInf => NInf
  end.

(** Division: a finite non-zero value over zero is an infinity of its sign,
    zero over zero is [NaN], a finite value over an infinity is zero. *)
Definition div (a b : num) : num :=
  match a, b with
  | NaN, _ | _, NaN => NaN
  | Fin p, Fin q => if Qeq_bool q 0 then signed_inf (sgn p) else Fin (p / q)
  | Fin _, PInf | Fin _, NInf => Fin 0
  | PInf, Fin q => match sgn q with Lt => NInf | _ => PInf end
  | NInf, Fin q => match sgn q with Lt => PInf | _ => NInf end
  | PInf, PInf | PInf, NInf | NInf, PInf | NInf, NInf => NaN
  end.

(** [a < b]; every comparison with [NaN] is false. *)
Definition ltb (a b : num) : bool :=
  match a, b with
  | NaN, _ | _, NaN => false
  | Fin p, Fin q => match (p ?= q)%Q with Lt => true | _ => false end
  | Fin _, PInf | NInf, Fin _ | NInf, PInf => true
  | Fin _, NInf | PInf, _ | NInf, NInf => false
  end.

(** [a === b] on numbers. *)
Definition eqb (a b : num) : bool :=
  match a, b with
  | Fin p, Fin q => Qeq_bool p q
  | PInf, PInf | NInf, NInf => true
  | _, _ => false
  end.

Definition gtb (a b : num) : bool := ltb b a.
Definition leb (a b : num) : bool := ltb a b || eqb a b.
Definition geb (a b : num) : bool := leb b a.

(** [Math.max] and [Math.min] of two values: [NaN] if either is. *)
Definition max2 (a b : num) : num :=
  match a, b with
  | NaN, _ | _, NaN => NaN
  | _, _ => if ltb a b then b else a
  end.

Definition min2 (a b : num) : num :=
  match a, b with
  | NaN, _ | _, NaN => NaN
  | _, _ => if ltb b a then b else a
  end.

Definition max3 (a b c : num) : num := max2 (max2 a b) c.
Definition min3 (a b c : num) : num := min2 (min2 a b) c.

(** [Math.round]: the integer nearest to the argument, halves going up. *)
Definition round (a : num) : num :=
  match a with
  | Fin q => of_Z (Qfloor (q + (1 # 2)))
  | _ => a
  end.

(** Equality of numbers up to the representation of a fraction. *)
Definition num_eq (a b : num) : Prop :=
  match a, b with
  | Fin p, Fin q => (p == q)%Q
  | PInf, PInf | NInf, NInf | NaN, NaN => True
  | _, _ => False
  end.

Definition finite (a : num) : Prop :=
  match a with Fin _ => True | _ => False end.

End JS.

Import JS.

Notation "a + b" := (JS.add a b) : js_scope.
Notation "a - b" := (JS.sub a b) : js_scope.
Notation "a * b" := (JS.mul a b) : js_scope.
Notation "a / b" := (JS.div a b) : js_scope.
Notation "a <? b" := (JS.ltb a b) (at level 70) : js_scope.
Notation "a >? b" := (JS.gtb a b) (at level 70) : js_scope.
Notation "a <=? b" := (JS.leb a b) (at level 70) : js_scope.
Notation "a >=? b" := (JS.geb a b) (at level 70) : js_scope.
Notation "a === b" := (JS.eqb a b) (at level 70) : js_scope.
Notation "a =n= b" := (JS.num_eq a b) (at level 70) : js_scope.

(** ** Data shared by the two versions of the script *)

(** An RGB colour [{r, g, b}]. *)
Module Color.
Record t : Type := mk { r : num; g : num; b : num }.
End Color.

(** The result [{h, s, l}] of [rgbToHsl]. *)
Module HSL.
Record t : Type := mk { h : num; s : num; l : num }.
End HSL.

(** A landmark point [{x, y}]. *)
Module Point.
Record t : Type := mk { x : num; y : num }.
End Point.

(** The bounding box of a detected face. *)
Module Box.
Record t : Type := mk { x : num; y : num; width : num; height : num }.
End Box.

(** What the face detector hands over: the landmark groups the script asks
    for and [detection.box]. *)
Record Landmarks : Type :=
  { getLeftEye : list Point.t; getRightEye : list Point.t; getNose : list Point.t }.

Record Detection : Type :=
  { landmarks : Landmarks; box : Box.t }.

(** The [data] of an [ImageData]: a [Uint8ClampedArray], four channel values
    (R, G, B, A) per pixel. *)
Definition Uint8ClampedArray : Type := list Z.

Record ImageData : Type := { data : Uint8ClampedArray }.

(** The 2D context of the detection canvas once the current video frame has
    been drawn on it: [getImageData sx sy sw sh] reads a rectangle.  The
    model covers the calls that return; it puts no condition on what they
    return, and the script puts none either. *)
Record Context2D : Type :=
  { getImageData : num -> num -> num -> num -> ImageData }.

Record Canvas : Type := { canvas_width : num; canvas_height : num }.

(** An entry of [state.observations].  The [timestamp] of an entry is read
    from the wall clock and the log lines are DOM nodes; neither is part of
    the model. *)
Record Observation : Type := { type : string; message : string }.

(** The fields of the global [state] the analysis reads or writes. *)
Record State : Type := mkState
  { webcamActive : bool;
    observations : list Observation;
    lastFaceDetection : option Detection;
    eyeColor : option string;
    hairColor : option string;
    backgroundColor : option string;
    gazeDirection : string;
    detectionCanvas : option Canvas }.

(** The initial value of [state] (both versions). *)
Definition initial_state : State :=
  {| webcamActive := false;
     observations := [];
     lastFaceDetection := None;
     eyeColor := None;
     hairColor := None;
     backgroundColor := None;
     gazeDirection := "CENTER";
     detectionCanvas := None |}.

Definition set_observations (v : list Observation) (st : State) : State :=
  mkState st.(webcamActive) v st.(lastFaceDetection) st.(eyeColor)
          st.(hairColor) st.(backgroundColor) st.(gazeDirection)
          st.(detectionCanvas).

Definition set_eyeColor (v : option string) (st : State) : State :=
  mkState st.(webcamActive) st.(observations) st.(lastFaceDetection) v
          st.(hairColor) st.(backgroundColor) st.(gazeDirection)
          st.(detectionCanvas).

Definition set_hairColor (v : option string) (st : State) : State :=
  mkState st.(webcamActive) st.(observations) st.(lastFaceDetection)
          st.(eyeColor) v st.(backgroundColor) st.(gazeDirection)
          st.(detectionCanvas).

Definition set_backgroundColor (v : option string) (st : State) : State :=
  mkState st.(webcamActive) st.(observations) st.(lastFaceDetection)
          st.(eyeColor) st.(hairColor) v st.(gazeDirection)
          st.(detectionCanvas).

Definition set_gazeDirection (v : string) (st : State) : State :=
  mkState st.(webcamActive) st.(observations) st.(lastFaceDetection)
          st.(eyeColor) st.(hairColor) st.(backgroundColor) v
          st.(detectionCanvas).

(** [label !== stored], where [stored] is a string or [null]. *)
Definition differs (label : string) (stored : option string) : bool :=
  match stored with
  | Some s => negb (String.eqb label s)
  | None => true
  end.

(** [pixels[i]] as an operand of [+=]: the channel value, or [undefined]
    (hence [NaN]) past the end of the array. *)
Definition get (pixels : Uint8ClampedArray) (i : nat) : num :=
  match nth_error pixels i with
  | Some v => of_Z v
  | None => NaN
  end.


(** ** Strings *)

(** A JavaScript string is modelled by a [string]: the sequence of the
    bytes of its UTF-8 encoding.  The script searches strings for ASCII
    literals only, and a byte of an ASCII character occurs in the encoding
    only as that character. *)

(** [s.includes(sub)]. *)
Fixpoint includes (s sub : string) : bool :=
  String.prefix sub s
  || match s with
     | EmptyString => false
     | String _ rest => includes rest sub
     end.

(** [s.split(sep)], for a separator of one character. *)
Fixpoint split (sep : ascii) (s : string) : list string :=
  match s with
  | EmptyString => [EmptyString]
  | String c rest =>
      if Ascii.eqb c sep then EmptyString :: split sep rest
      else match split sep rest with
           | part :: parts => String c part :: parts
           | [] => [String c EmptyString]
           end
  end.

(** [parts[i]] inside a template literal: the element, or the text of
    [undefined] past the end of the array. *)
Definition element (parts : list string) (i : nat) : string :=
  nth i parts "undefined"%string.

(** [String(z)] of an integer: its decimal digits ([String] writes out in
    full every integer under 10^21, which the counters and the clock of the
    script stay far below). *)
Definition Z_toString (z : Z) : string := NilZero.string_of_int (Z.to_int z).

(** [String(a)] of a number without a fraction.  The script prints
    counters, and numbers that come out of [Math.round] and [Math.floor]. *)
Definition Number_toString (a : num) : string :=
  match a with
  | Fin q => Z_toString (Qfloor q)
  | PInf => "Infinity"%string
  | NInf => "-Infinity"%string
  | NaN => "NaN"%string
  end.

(** [s.padStart(targetLength, pad)], for a pad of one character. *)
Definition padStart (targetLength : nat) (pad : ascii) (s : string) : string :=
  (string_of_list_ascii (repeat pad (targetLength - String.length s)) ++ s)%string.

(** The letter case a regular expression with the flag [i] ignores: an
    ASCII letter of the pattern matches its two cases and nothing else. *)
Definition toLowerCase_ascii (c : ascii) : ascii :=
  let n := nat_of_ascii c in
  if (65 <=? n)%nat && (n <=? 90)%nat then ascii_of_nat (n + 32) else c.

Fixpoint toLowerCase (s : string) : string :=
  match s with
  | EmptyString => EmptyString
  | String c rest => String (toLowerCase_ascii c) (toLowerCase rest)
  end.

(** [/literal/i.test(s)], for a pattern that is a literal of ASCII letters. *)
Definition test_i (literal s : string) : bool :=
  includes (toLowerCase s) (toLowerCase literal).

(** ** Numbers, continued *)

(** [Math.floor]. *)
Definition floor (a : num) : num :=
  match a with
  | Fin q => of_Z (Qfloor q)
  | _ => a
  end.

(** A number as a condition: zero and [NaN] are false. *)
Definition truthy (a : num) : bool :=
  match a with
  | Fin q => negb (Qeq_bool q 0)
  | NaN => false
  | _ => true
  end.

(** [array[i]] as a template literal renders it, for an index that is a
    number: the element, or the text of [undefined] if the index is not one
    of the array. *)
Definition element_at (array : list string) (i : num) : string :=
  match i with
  | Fin q =>
      if Qeq_bool q (inject_Z (Qfloor q)) && (0 <=? Qfloor q)%Z
      then element array (Z.to_nat (Qfloor q))
      else "undefined"%string
  | _ => "undefined"%string
  end.

(** ** The page *)

(** A wave of the wave canvas. *)
Module Wave.
Record t : Type := mk { x : num; y : num; radius : num; speed : num; opacity : num }.
End Wave.

(** The fields of [state] that count what the visitor does, with the waves
    ([waves] and [microphoneActive] only exist in the newer script).  The
    pointer coordinates are whole pixels and the times are milliseconds. *)
Record Activity : Type := mkActivity
  { startTime : Z;
    mouseX : Z;
    mouseY : Z;
    lastMouseX : Z;
    lastMouseY : Z;
    mouseMovements : Z;
    clicks : Z;
    scrolls : Z;
    keystrokes : Z;
    lastActivity : Z;
    microphoneActive : bool;
    waves : list Wave.t }.

(** The initial value of these fields, for a page loaded at [now]. *)
Definition initial_activity (now : Z) : Activity :=
  {| startTime := now;
     mouseX := 0; mouseY := 0; lastMouseX := 0; lastMouseY := 0;
     mouseMovements := 0; clicks := 0; scrolls := 0; keystrokes := 0;
     lastActivity := now;
     microphoneActive := false;
     waves := [] |}.

Definition set_waves (v : list Wave.t) (a : Activity) : Activity :=
  mkActivity a.(startTime) a.(mouseX) a.(mouseY) a.(lastMouseX) a.(lastMouseY)
             a.(mouseMovements) a.(clicks) a.(scrolls) a.(keystrokes)
             a.(lastActivity) a.(microphoneActive) v.

(** The whole of [state]: the fields of the analysis and those of the
    activity. *)
Record Page : Type := mkPage { state : State; activity : Activity }.

(** What a [mousemove] event carries. *)
Record MouseEvent : Type := { clientX : Z; clientY : Z }.

(** What the script reads of [window] and of [document.body]. *)
Record Window : Type :=
  { innerWidth : num; innerHeight : num; scrollY : num; scrollHeight : num }.

(** The answer of the IP service: the fields the script reads, each a
    string or missing. *)
Record IPData : Type :=
  { ip : option string;
    city : option string;
    region : option string;
    country_name : option string }.

(** The text of the two elements [fetchIPInfo] writes. *)
Record Panel : Type := { userIP : string; userLocation : string }.

(** An optional string as a condition, and inside a template literal. *)
Definition present (field : option string) : bool :=
  match field with
  | Some s => negb (String.eqb s "")
  | None => false
  end.

Definition text (field : option string) : string :=
  match field with
  | Some s => s
  | None => "undefined"%string
  end.

(** Where [moveGazeEyes] puts the pair of eyes and their irises, in pixels,
    and whether it makes them blink. *)
Record GazeEyes : Type :=
  { style_left : num; style_top : num; irisX : num; irisY : num; blinking : bool }.

(** [array.splice(i, 1)], and the array after a write to its element [i]. *)
Definition splice {A : Type} (i : nat) (array : list A) : list A :=
  (firstn i array ++ skipn (S i) array)%list.

Definition assign {A : Type} (i : nat) (v : A) (array : list A) : list A :=
  (firstn i array ++ v :: skipn (S i) array)%list.
Local Open Scope string_scope.
Local Open Scope js_scope.

(** ** The exhibition script, [exhibition_js_v2.js] *)

Module V2.

Definition addObservation (type message : string) (st : State) : State :=
  set_observations (st.(observations) ++ [{| type := type; message := message |}])%list st.

Definition getCenterPoint (points : list Point.t) : Point.t :=
  let x := fold_left (fun sum p => sum + p.(Point.x)) points (Fin 0)
           / of_Z (Z.of_nat (List.length points)) in
  let y := fold_left (fun sum p => sum + p.(Point.y)) points (Fin 0)
           / of_Z (Z.of_nat (List.length points)) in
  {| Point.x := x; Point.y := y |}.

(** [estimateGaze] reads [state.gazeDirection] and may log; it returns the
    direction and the state. *)
Definition estimateGaze (leftEye rightEye nose : Point.t) (faceBox : Box.t)
    (st : State) : string * State :=
  let faceCenterX := faceBox.(Box.x) + faceBox.(Box.width) / Fin 2 in
  let faceCenterY := faceBox.(Box.y) + faceBox.(Box.height) / Fin 2 in
  let offsetX := (nose.(Point.x) - faceCenterX) / faceBox.(Box.width) in
  let offsetY := (nose.(Point.y) - faceCenterY) / faceBox.(Box.height) in
  let horizontal :=
    if offsetX <? Fin (-0.05) then "LEFT"
    else if offsetX >? Fin 0.05 then "RIGHT"
    else "CENTER" in
  let vertical :=
    if offsetY <? Fin (-0.1) then "UP-"
    else if offsetY >? Fin 0.1 then "DOWN-"
    else "" in
  let direction := vertical ++ horizontal in
  let st :=
    if negb (String.eqb direction st.(gazeDirection))
    then addObservation "GAZE" ("Subject looking " ++ direction) st
    else st in
  (if String.eqb direction "" then "CENTER" else direction, st).

(** [moveGazeEyes] and the writes to [elements] only touch the page. *)
Definition processFaceDetection (detection : Detection) (st : State) : State :=
  let landmarks := detection.(landmarks) in
  let leftEye := landmarks.(getLeftEye) in
  let rightEye := landmarks.(getRightEye) in
  let leftEyeCenter := getCenterPoint leftEye in
  let rightEyeCenter := getCenterPoint rightEye in
  let nose := landmarks.(getNose) in
  let noseCenter := getCenterPoint nose in
  let '(gazeDirection, st) :=
    estimateGaze leftEyeCenter rightEyeCenter noseCenter detection.(box) st in
  set_gazeDirection gazeDirection st.

(** The [for] loop of [getDominantColor], from index [i]; [fuel] bounds the
    number of iterations still allowed. *)
Fixpoint getDominantColor_loop (fuel : nat) (pixels : Uint8ClampedArray)
    (i : nat) (r g b count : num) : num * num * num * num :=
  match fuel with
  | O => (r, g, b, count)
  | S fuel =>
      if (i <? List.length pixels)%nat then
        getDominantColor_loop fuel pixels (i + 4)
          (r + get pixels i) (g + get pixels (i + 1)) (b + get pixels (i + 2))
          (count + Fin 1)
      else (r, g, b, count)
  end.

(** The index grows by four at each turn, so [length pixels] turns are
    enough for the loop to leave by its test. *)
Definition getDominantColor (pixels : Uint8ClampedArray) : Color.t :=
  let '(r, g, b, count) :=
    getDominantColor_loop (List.length pixels) pixels 0 (Fin 0) (Fin 0) (Fin 0) (Fin 0) in
  {| Color.r := round (r / count);
     Color.g := round (g / count);
     Color.b := round (b / count) |}.

Definition rgbToHsl (r g b : num) : HSL.t :=
  let r := r / Fin 255 in
  let g := g / Fin 255 in
  let b := b / Fin 255 in
  let max := max3 r g b in
  let min := min3 r g b in
  let l := (max + min) / Fin 2 in
  let '(h, s) :=
    if max === min then (Fin 0, Fin 0)
    else
      let d := max - min in
      let s := if l >? Fin 0.5 then d / (Fin 2 - max - min) else d / (max + min) in
      let h :=
        if max === r then ((g - b) / d + (if g <? b then Fin 6 else Fin 0)) / Fin 6
        else if max === g then ((b - r) / d + Fin 2) / Fin 6
        else if max === b then ((r - g) / d + Fin 4) / Fin 6
        else NaN (* no [case] taken: [h] stays [undefined] *) in
      (h, s) in
  {| HSL.h := h * Fin 360; HSL.s := s; HSL.l := l |}.

Definition classifyEyeColor (color : Color.t) : string :=
  let hsl := rgbToHsl color.(Color.r) color.(Color.g) color.(Color.b) in
  let '(HSL.mk h s l) := hsl in
  if l <? Fin 0.2 then "DARK BROWN"
  else if s <? Fin 0.15 then (if l <? Fin 0.4 then "DARK GRAY" else "GRAY")
  else if (h >=? Fin 180) && (h <=? Fin 260) then
    (if l <? Fin 0.4 then "DARK BLUE" else if l >? Fin 0.6 then "LIGHT BLUE" else "BLUE")
  else if (h >=? Fin 80) && (h <=? Fin 160) then
    (if color.(Color.b) >? color.(Color.g) * Fin 0.7 then "HAZEL" else "GREEN")
  else if (h >=? Fin 20) && (h <=? Fin 50) then
    (if l >? Fin 0.5 then "AMBER" else if l >? Fin 0.35 then "LIGHT BROWN" else "BROWN")
  else "BROWN".

Definition classifyHairColor (color : Color.t) : string :=
  let hsl := rgbToHsl color.(Color.r) color.(Color.g) color.(Color.b) in
  let '(HSL.mk h s l) := hsl in
  if l <? Fin 0.15 then "BLACK"
  else if l <? Fin 0.25 then "DARK BROWN"
  else if (l >? Fin 0.7) && (s <? Fin 0.3) then "GRAY/WHITE"
  else if l >? Fin 0.6 then "BLONDE"
  else if (h >=? Fin 0) && (h <=? Fin 30) && (s >? Fin 0.3) then "RED/AUBURN"
  else if l <? Fin 0.4 then "BROWN"
  else "LIGHT BROWN".

Definition classifyBackgroundColor (color : Color.t) : string :=
  let hsl := rgbToHsl color.(Color.r) color.(Color.g) color.(Color.b) in
  if hsl.(HSL.s) <? Fin 0.1 then
    if hsl.(HSL.l) <? Fin 0.3 then "DARK"
    else if hsl.(HSL.l) >? Fin 0.7 then "LIGHT"
    else "NEUTRAL"
  else
    let h := hsl.(HSL.h) in
    if h <? Fin 30 then "WARM TONES"
    else if h <? Fin 90 then "YELLOW/GREEN"
    else if h <? Fin 150 then "GREEN/CYAN"
    else if h <? Fin 210 then "BLUE"
    else if h <? Fin 270 then "PURPLE"
    else if h <? Fin 330 then "PINK/MAGENTA"
    else "RED/WARM".

(** The three analyses read [state.detectionCanvas], which [analyzeColors]
    has found non-null before it calls them: it is their [canvas]. *)
Definition analyzeEyeColor (canvas : Canvas) (ctx : Context2D) (st : State) : State :=
  let eyeRegion :=
    match st.(lastFaceDetection) with
    | Some lastFaceDetection =>
        let landmarks := lastFaceDetection.(landmarks) in
        let leftEye := landmarks.(getLeftEye) in
        let eyeCenter := getCenterPoint leftEye in
        ctx.(getImageData)
          (max2 (Fin 0) (eyeCenter.(Point.x) - Fin 10))
          (max2 (Fin 0) (eyeCenter.(Point.y) - Fin 5))
          (Fin 20) (Fin 10)
    | None =>
        let w := canvas.(canvas_width) in
        let h := canvas.(canvas_height) in
        ctx.(getImageData) (w * Fin 0.35) (h * Fin 0.3) (w * Fin 0.3) (h * Fin 0.1)
    end in
  let dominantColor := getDominantColor eyeRegion.(data) in
  let eyeColorName := classifyEyeColor dominantColor in
  if differs eyeColorName st.(eyeColor) then
    addObservation "AI" ("Eye color detected: " ++ eyeColorName)
      (set_eyeColor (Some eyeColorName) st)
  else st.

Definition analyzeHairColor (canvas : Canvas) (ctx : Context2D) (st : State) : State :=
  let w := canvas.(canvas_width) in
  let h := canvas.(canvas_height) in
  let hairRegion :=
    match st.(lastFaceDetection) with
    | Some lastFaceDetection =>
        let box := lastFaceDetection.(box) in
        ctx.(getImageData)
          (max2 (Fin 0) box.(Box.x))
          (max2 (Fin 0) (box.(Box.y) - Fin 50))
          box.(Box.width)
          (Fin 40)
    | None =>
        ctx.(getImageData) (w * Fin 0.25) (h * Fin 0.05) (w * Fin 0.5) (h * Fin 0.15)
    end in
  let dominantColor := getDominantColor hairRegion.(data) in
  let hairColorName := classifyHairColor dominantColor in
  if differs hairColorName st.(hairColor) then
    addObservation "AI" ("Hair color detected: " ++ hairColorName)
      (set_hairColor (Some hairColorName) st)
  else st.

Definition analyzeBackground (canvas : Canvas) (ctx : Context2D) (st : State) : State :=
  let w := canvas.(canvas_width) in
  let h := canvas.(canvas_height) in
  let leftEdge := ctx.(getImageData) (Fin 0) (h * Fin 0.2) (w * Fin 0.15) (h * Fin 0.6) in
  let rightEdge := ctx.(getImageData) (w * Fin 0.85) (h * Fin 0.2) (w * Fin 0.15) (h * Fin 0.6) in
  let combinedData := (leftEdge.(data) ++ rightEdge.(data))%list in
  let dominantColor := getDominantColor combinedData in
  let brightness :=
    (dominantColor.(Color.r) + dominantColor.(Color.g) + dominantColor.(Color.b)) / Fin 3 in
  let environment :=
    if brightness <? Fin 50 then "DARK ENVIRONMENT"
    else if brightness <? Fin 100 then "DIM LIGHTING"
    else if brightness <? Fin 180 then "NORMAL LIGHTING"
    else "BRIGHT ENVIRONMENT" in
  let colorName := classifyBackgroundColor dominantColor in
  let environment := colorName ++ " / " ++ environment in
  if differs environment st.(backgroundColor) then
    addObservation "AI" ("Environment: " ++ environment)
      (set_backgroundColor (Some environment) st)
  else st.

(** [ctx] is the context of the detection canvas after [drawImage] has put
    the current video frame on it. *)
Definition analyzeColors (ctx : Context2D) (st : State) : State :=
  match st.(webcamActive), st.(detectionCanvas) with
  | true, Some canvas =>
      let st := analyzeEyeColor canvas ctx st in
      let st := analyzeHairColor canvas ctx st in
      analyzeBackground canvas ctx st
  | _, _ => st
  end.


(** *** The log on the page *)

(** A child of the log element is modelled by the entry it displays. *)

(** The [while] loop of [addObservation] over the children of the log
    element; [fuel] bounds the number of turns still allowed. *)
Fixpoint addObservation_while (fuel : nat) (children : list Observation)
  : list Observation :=
  match fuel with
  | O => children
  | S fuel =>
      if (50 <? List.length children)%nat
      then addObservation_while fuel (tl children)
      else children
  end.

(** What [addObservation] does to the children of [elements.logEntries]:
    it appends the entry, then removes first children while there are more
    than 50.  Each turn removes one child, so as many turns as there are
    children are enough for the loop to leave by its test. *)
Definition addObservation_logEntries (type message : string)
    (logEntries : list Observation) : list Observation :=
  let children := (logEntries ++ [{| type := type; message := message |}])%list in
  addObservation_while (List.length children) children.

(** *** The detection canvas *)

Definition createDetectionCanvas (videoWidth videoHeight : num) (st : State) : State :=
  let canvas :=
    {| canvas_width := if truthy videoWidth then videoWidth else Fin 640;
       canvas_height := if truthy videoHeight then videoHeight else Fin 480 |} in
  mkState st.(webcamActive) st.(observations) st.(lastFaceDetection) st.(eyeColor)
          st.(hairColor) st.(backgroundColor) st.(gazeDirection) (Some canvas).

(** *** The eyes on the page *)

(** [random1], [random2] and [random3] are the three results of
    [Math.random()], in the order of the calls. *)
Definition moveGazeEyes (direction : string) (window : Window)
    (random1 random2 random3 : num) : GazeEyes :=
  let screenCenterX := window.(innerWidth) / Fin 2 in
  let screenCenterY := window.(innerHeight) / Fin 2 in
  let offsetX := Fin 0 in
  let offsetY := Fin 0 in
  let moveAmount := Fin 180 in
  let offsetX := if includes direction "LEFT" then neg moveAmount else offsetX in
  let offsetX := if includes direction "RIGHT" then moveAmount else offsetX in
  let offsetY := if includes direction "UP" then neg moveAmount else offsetY in
  let offsetY := if includes direction "DOWN" then moveAmount else offsetY in
  let offsetX := offsetX + (random1 - Fin 0.5) * Fin 20 in
  let offsetY := offsetY + (random2 - Fin 0.5) * Fin 20 in
  let eyeX := screenCenterX + offsetX - Fin 67 in
  let eyeY := screenCenterY + offsetY - Fin 25 in
  let irisX := Fin 0 in
  let irisY := Fin 0 in
  let irisX := if includes direction "LEFT" then Fin (-6) else irisX in
  let irisX := if includes direction "RIGHT" then Fin 6 else irisX in
  let irisY := if includes direction "UP" then Fin (-5) else irisY in
  let irisY := if includes direction "DOWN" then Fin 5 else irisY in
  {| style_left := eyeX; style_top := eyeY; irisX := irisX; irisY := irisY;
     blinking := random3 <? Fin 0.025 |}.

(** *** The waves *)

(** The [for] loop of [animateWaves], from the index [n - 1] down to 0: it
    runs while [i >= 0].  Reading a field of [state.waves[i]] throws if the
    array has no element [i]: the result is then [None].  The drawing only
    touches the canvas. *)
Fixpoint animateWaves_loop (n : nat) (waves : list Wave.t) : option (list Wave.t) :=
  match n with
  | O => Some waves
  | S i =>
      match nth_error waves i with
      | None => None
      | Some wave =>
          let wave :=
            Wave.mk wave.(Wave.x) wave.(Wave.y)
                    (wave.(Wave.radius) + wave.(Wave.speed))
                    wave.(Wave.speed)
                    (wave.(Wave.opacity) - Fin 0.008) in
          let waves := assign i wave waves in
          if wave.(Wave.opacity) <=? Fin 0
          then animateWaves_loop i (splice i waves)
          else animateWaves_loop i waves
      end
  end.

(** One frame, for a wave canvas that has its context. *)
Definition animateWaves (waves : list Wave.t) : option (list Wave.t) :=
  animateWaves_loop (List.length waves) waves.

(** [random] is the result of [Math.random()]. *)
Definition createWave (x y : num) (random : num) (waves : list Wave.t) : list Wave.t :=
  let waves :=
    (waves ++ [Wave.mk x y (Fin 5) (Fin 2 + random * Fin 2) (Fin 0.6)])%list in
  if (30 <? List.length waves)%nat then tl waves else waves.

(** *** Device and location *)

Definition detectBrowser (ua : string) : string :=
  if includes ua "Firefox" then "Firefox"
  else if includes ua "Edg" then "Edge"
  else if includes ua "Chrome" then "Chrome"
  else if includes ua "Safari" then "Safari"
  else "Unknown".

Definition detectDevice (ua : string) : string :=
  if test_i "Mobi" ua || test_i "Android" ua then "Mobile"
  else if test_i "Tablet" ua || test_i "iPad" ua then "Tablet"
  else if test_i "Mac" ua then "Mac"
  else if test_i "Win" ua then "Windows"
  else if test_i "Linux" ua then "Linux"
  else "Unknown".

(** [response] is the answer of the service once parsed, or [None] if the
    request or the parsing threw. *)
Definition fetchIPInfo (response : option IPData) (panel : Panel) (st : State)
  : Panel * State :=
  match response with
  | Some data =>
      let panel :=
        if present data.(ip) then
          let ipParts := split "." (text data.(ip)) in
          {| userIP := element ipParts 0 ++ "." ++ element ipParts 1 ++ ".XXX.XXX";
             userLocation := panel.(userLocation) |}
        else panel in
      if present data.(city) && present data.(country_name) then
        ({| userIP := panel.(userIP);
            userLocation := text data.(city) ++ ", " ++ text data.(region) ++ ", "
                            ++ text data.(country_name) |},
         addObservation "LOCATION"
           ("Subject located in " ++ text data.(city) ++ ", " ++ text data.(country_name)) st)
      else (panel, st)
  | None => ({| userIP := "MASKED"; userLocation := "UNDISCLOSED" |}, st)
  end.

(** *** Behaviour tracking *)

(** [now] is the result of [Date.now()], [random] that of the
    [Math.random()] of [createWave], if it is called. *)
Definition trackMouse (e : MouseEvent) (now : Z) (random : num) (page : Page) : Page :=
  let a := page.(activity) in
  let a :=
    mkActivity a.(startTime) e.(clientX) e.(clientY) a.(mouseX) a.(mouseY)
               (a.(mouseMovements) + 1) a.(clicks) a.(scrolls) a.(keystrokes)
               now a.(microphoneActive) a.(waves) in
  let a :=
    if (Z.rem a.(mouseMovements) 8 =? 0)%Z
    then set_waves (createWave (of_Z e.(clientX)) (of_Z e.(clientY)) random a.(waves)) a
    else a in
  let st :=
    if (Z.rem a.(mouseMovements) 50 =? 0)%Z then
      let dx := (a.(mouseX) - a.(lastMouseX))%Z in
      let direction := if (dx >? 0)%Z then "RIGHT" else "LEFT" in
      addObservation "MOUSE"
        ("Cursor moved " ++ direction ++ " — Position: " ++ Z_toString a.(mouseX)
         ++ ", " ++ Z_toString a.(mouseY)) page.(state)
    else page.(state) in
  mkPage st a.

Definition trackScroll (window : Window) (now : Z) (random : num) (page : Page) : Page :=
  let a := page.(activity) in
  let a :=
    mkActivity a.(startTime) a.(mouseX) a.(mouseY) a.(lastMouseX) a.(lastMouseY)
               a.(mouseMovements) a.(clicks) (a.(scrolls) + 1) a.(keystrokes)
               now a.(microphoneActive) a.(waves) in
  let a :=
    set_waves (createWave (window.(innerWidth) / Fin 2) (window.(innerHeight) / Fin 2)
                 random a.(waves)) a in
  let scrollPercent :=
    round (window.(scrollY) / (window.(scrollHeight) - window.(innerHeight)) * Fin 100) in
  let st :=
    if (Z.rem a.(scrolls) 5 =? 0)%Z
    then addObservation "SCROLL" (Number_toString scrollPercent ++ "% through exhibition")
           page.(state)
    else page.(state) in
  mkPage st a.

(** *** The ticker and the clock *)

Definition philosophical : list string :=
  [ "OBSERVATION CREATES REALITY";
    "YOU ARE WATCHING — YOU ARE BEING WATCHED";
    "THE SCREEN IS NOT NEUTRAL";
    "IDENTITY IS PERFORMED — IDENTITY IS CONSUMED";
    "YOU ARE THE EXHIBITION" ].

(** The [messages] the ticker is filled with, each as the template literal
    of its item renders it. *)
Definition generateTickerContent (now : Z) (random : num) (page : Page) : list string :=
  let st := page.(state) in
  let a := page.(activity) in
  let messages := [] in
  let timeOnPage := ((now - a.(startTime)) / 1000)%Z in
  let messages :=
    if (timeOnPage >? 60)%Z
    then (messages ++ [("OBSERVED FOR " ++ Z_toString (timeOnPage / 60) ++ " MINUTES")%string])%list
    else messages in
  let messages := (messages ++ [("MOUSE MOVEMENTS: " ++ Z_toString a.(mouseMovements))%string])%list in
  let messages := (messages ++ [("CLICKS: " ++ Z_toString a.(clicks))%string])%list in
  let messages :=
    if present st.(eyeColor)
    then (messages ++ [("EYE COLOR: " ++ text st.(eyeColor))%string])%list
    else messages in
  let messages :=
    if negb (String.eqb st.(gazeDirection) "")
    then (messages ++ [("GAZE: " ++ st.(gazeDirection))%string])%list
    else messages in
  let messages :=
    if a.(microphoneActive) then (messages ++ ["AUDIO MONITORING ACTIVE"])%list
    else messages in
  (messages
   ++ [element_at philosophical
         (floor (random * of_Z (Z.of_nat (List.length philosophical))))])%list.

(** The text of the clock; [now] is the result of [Date.now()]. *)
Definition updateTimeOnPage (now : Z) (a : Activity) : string :=
  let elapsed := ((now - a.(startTime)) / 1000)%Z in
  let hours := padStart 2 "0" (Z_toString (elapsed / 3600)) in
  let minutes := padStart 2 "0" (Z_toString (Z.rem elapsed 3600 / 60)) in
  let seconds := padStart 2 "0" (Z_toString (Z.rem elapsed 60)) in
  hours ++ ":" ++ minutes ++ ":" ++ seconds.
End V2.

(** ** The older script, [part_000] *)

Module V1.

Definition addObservation (type message : string) (st : State) : State :=
  set_observations (st.(observations) ++ [{| type := type; message := message |}])%list st.

Definition estimateGaze (leftEye rightEye nose : Point.t) (faceBox : Box.t)
    (st : State) : string * State :=
  (* Calculate face center *)
  let faceCenterX := faceBox.(Box.x) + faceBox.(Box.width) / Fin 2 in
  let faceCenterY := faceBox.(Box.y) + faceBox.(Box.height) / Fin 2 in
  (* Calculate eye midpoint *)
  let eyeMidX := (leftEye.(Point.x) + rightEye.(Point.x)) / Fin 2 in
  let eyeMidY := (leftEye.(Point.y) + rightEye.(Point.y)) / Fin 2 in
  (* Calculate offset from center *)
  let offsetX := (nose.(Point.x) - faceCenterX) / faceBox.(Box.width) in
  let offsetY := (nose.(Point.y) - faceCenterY) / faceBox.(Box.height) in
  (* Determine direction *)
  let horizontal :=
    if offsetX <? Fin (-0.05) then "LEFT"
    else if offsetX >? Fin 0.05 then "RIGHT"
    else "CENTER" in
  let vertical :=
    if offsetY <? Fin (-0.1) then "UP-"
    else if offsetY >? Fin 0.1 then "DOWN-"
    else "" in
  let direction := vertical ++ horizontal in
  (* Log significant gaze changes *)
  let st :=
    if negb (String.eqb direction st.(gazeDirection))
    then addObservation "GAZE" ("Subject looking " ++ direction) st
    else st in
  (if String.eqb direction "" then "CENTER" else direction, st).

Fixpoint getDominantColor_loop (fuel : nat) (pixels : Uint8ClampedArray)
    (i : nat) (r g b count : num) : num * num * num * num :=
  match fuel with
  | O => (r, g, b, count)
  | S fuel =>
      if (i <? List.length pixels)%nat then
        getDominantColor_loop fuel pixels (i + 4)
          (r + get pixels i) (g + get pixels (i + 1)) (b + get pixels (i + 2))
          (count + Fin 1)
      else (r, g, b, count)
  end.

Definition getDominantColor (pixels : Uint8ClampedArray) : Color.t :=
  let '(r, g, b, count) :=
    getDominantColor_loop (List.length pixels) pixels 0 (Fin 0) (Fin 0) (Fin 0) (Fin 0) in
  {| Color.r := round (r / count);
     Color.g := round (g / count);
     Color.b := round (b / count) |}.

Definition rgbToHsl (r g b : num) : HSL.t :=
  let r := r / Fin 255 in
  let g := g / Fin 255 in
  let b := b / Fin 255 in
  let max := max3 r g b in
  let min := min3 r g b in
  let l := (max + min) / Fin 2 in
  let '(h, s) :=
    if max === min then (Fin 0, Fin 0)
    else
      let d := max - min in
      let s := if l >? Fin 0.5 then d / (Fin 2 - max - min) else d / (max + min) in
      let h :=
        if max === r then ((g - b) / d + (if g <? b then Fin 6 else Fin 0)) / Fin 6
        else if max === g then ((b - r) / d + Fin 2) / Fin 6
        else if max === b then ((r - g) / d + Fin 4) / Fin 6
        else NaN in
      (h, s) in
  {| HSL.h := h * Fin 360; HSL.s := s; HSL.l := l |}.

Definition classifyEyeColor (color : Color.t) : string :=
  let '(Color.mk r g b) := color in
  (* Convert to HSL for better color classification *)
  let hsl := rgbToHsl r g b in
  let h := hsl.(HSL.h) in
  let s := hsl.(HSL.s) in
  let l := hsl.(HSL.l) in
  (* Very dark = likely pupil/dark brown *)
  if l <? Fin 0.2 then "DARK BROWN"
  (* Low saturation = gray *)
  else if s <? Fin 0.15 then
    if l <? Fin 0.4 then "DARK GRAY"
    else "GRAY"
  (* Blue range *)
  else if (h >=? Fin 180) && (h <=? Fin 260) then
    if l <? Fin 0.4 then "DARK BLUE"
    else if l >? Fin 0.6 then "LIGHT BLUE"
    else "BLUE"
  (* Green range *)
  else if (h >=? Fin 80) && (h <=? Fin 160) then
    if b >? g * Fin 0.7 then "HAZEL"
    else "GREEN"
  (* Brown/amber range *)
  else if (h >=? Fin 20) && (h <=? Fin 50) then
    if l >? Fin 0.5 then "AMBER"
    else if l >? Fin 0.35 then "LIGHT BROWN"
    else "BROWN"
  else "BROWN".

Definition classifyHairColor (color : Color.t) : string :=
  let '(Color.mk r g b) := color in
  let hsl := rgbToHsl r g b in
  let l := hsl.(HSL.l) in
  let s := hsl.(HSL.s) in
  let h := hsl.(HSL.h) in
  (* Very dark *)
  if l <? Fin 0.15 then "BLACK"
  else if l <? Fin 0.25 then "DARK BROWN"
  (* Very light *)
  else if (l >? Fin 0.7) && (s <? Fin 0.3) then "GRAY/WHITE"
  else if l >? Fin 0.6 then "BLONDE"
  (* Red range *)
  else if (h >=? Fin 0) && (h <=? Fin 30) && (s >? Fin 0.3) then "RED/AUBURN"
  (* Brown range *)
  else if l <? Fin 0.4 then "BROWN"
  else "LIGHT BROWN".

Definition classifyBackgroundColor (color : Color.t) : string :=
  let '(Color.mk r g b) := color in
  let hsl := rgbToHsl r g b in
  if hsl.(HSL.s) <? Fin 0.1 then
    if hsl.(HSL.l) <? Fin 0.3 then "DARK"
    else if hsl.(HSL.l) >? Fin 0.7 then "LIGHT"
    else "NEUTRAL"
  else
    (* Color names based on hue *)
    let h := hsl.(HSL.h) in
    if h <? Fin 30 then "WARM TONES"
    else if h <? Fin 90 then "YELLOW/GREEN"
    else if h <? Fin 150 then "GREEN/CYAN"
    else if h <? Fin 210 then "BLUE"
    else if h <? Fin 270 then "PURPLE"
    else if h <? Fin 330 then "PINK/MAGENTA"
    else "RED/WARM".


(** *** Device and location *)

Definition detectBrowser (ua : string) : string :=
  if includes ua "Firefox" then "Firefox"
  else if includes ua "Edg" then "Edge"
  else if includes ua "Chrome" then "Chrome"
  else if includes ua "Safari" then "Safari"
  else if includes ua "Opera" then "Opera"
  else "Unknown".

Definition fetchIPInfo (response : option IPData) (panel : Panel) (st : State)
  : Panel * State :=
  match response with
  | Some data =>
      let '(panel, st) :=
        if present data.(ip) then
          let ipParts := split "." (text data.(ip)) in
          let maskedIP := element ipParts 0 ++ "." ++ element ipParts 1 ++ ".XXX.XXX" in
          ({| userIP := maskedIP; userLocation := panel.(userLocation) |},
           addObservation "NETWORK" ("IP address detected: " ++ maskedIP) st)
        else (panel, st) in
      if present data.(city) && present data.(country_name) then
        let location :=
          text data.(city) ++ ", " ++ text data.(region) ++ ", " ++ text data.(country_name) in
        ({| userIP := panel.(userIP); userLocation := location |},
         addObservation "LOCATION" ("Subject located in " ++ location) st)
      else (panel, st)
  | None =>
      ({| userIP := "MASKED"; userLocation := "UNDISCLOSED" |},
       addObservation "NETWORK" "IP detection blocked or unavailable" st)
  end.

(** *** Behaviour tracking *)

Definition trackMouse (e : MouseEvent) (now : Z) (page : Page) : Page :=
  let a := page.(activity) in
  let a :=
    mkActivity a.(startTime) e.(clientX) e.(clientY) a.(mouseX) a.(mouseY)
               (a.(mouseMovements) + 1) a.(clicks) a.(scrolls) a.(keystrokes)
               now a.(microphoneActive) a.(waves) in
  let dx := (a.(mouseX) - a.(lastMouseX))%Z in
  let dy := (a.(mouseY) - a.(lastMouseY))%Z in
  let direction :=
    if (Z.abs dx >? Z.abs dy)%Z
    then (if (dx >? 0)%Z then "RIGHT" else "LEFT")
    else (if (dy >? 0)%Z then "DOWN" else "UP") in
  let st :=
    if (Z.rem a.(mouseMovements) 50 =? 0)%Z then
      addObservation "MOUSE"
        ("Cursor moved " ++ direction ++ " — Position: " ++ Z_toString a.(mouseX)
         ++ ", " ++ Z_toString a.(mouseY)) page.(state)
    else page.(state) in
  mkPage st a.

(** *** Inactivity *)

(** [now] is the result of [Date.now()]. *)
Definition checkInactivity (now : Z) (page : Page) : Page :=
  let inactiveTime := of_Z (now - page.(activity).(lastActivity)) / Fin 1000 in
  let st := page.(state) in
  let st :=
    if (inactiveTime >? Fin 30) && (inactiveTime <? Fin 35)
    then addObservation "BEHAVIOR" "Subject appears to be idle — still watching?" st
    else st in
  let st :=
    if (inactiveTime >? Fin 60) && (inactiveTime <? Fin 65)
    then addObservation "BEHAVIOR"
           "Extended inactivity detected — subject may have abandoned observation" st
    else st in
  mkPage st page.(activity).
End V1.

(** * Vocabulary of the properties

    The definitions from here to the first lemma are not translations of the
    script: they are what the properties of the script are stated with. *)

(** ** Ordered rule tables

    The classifiers are stated against rule tables: a list of guarded
    labels read from the top, the first guard that holds giving the label. *)

Fixpoint first_match (rules : list (bool * string)) (default : string) : string :=
  match rules with
  | [] => default
  | (guard, label) :: rules => if guard then label else first_match rules default
  end.

(** [lo <= h <= hi]. *)
Definition within (lo hi : Q) (h : num) : bool := (h >=? Fin lo) && (h <=? Fin hi).

(** The rules of the eye colour classifier, as the specification lists them. *)
Definition eye_rules (hsl : HSL.t) (color : Color.t) : list (bool * string) :=
  let '(HSL.mk h s l) := hsl in
  [ (l <? Fin 0.2, "DARK BROWN");
    ((s <? Fin 0.15) && (l <? Fin 0.4), "DARK GRAY");
    (s <? Fin 0.15, "GRAY");
    (within 180 260 h && (l <? Fin 0.4), "DARK BLUE");
    (within 180 260 h && (l >? Fin 0.6), "LIGHT BLUE");
    (within 180 260 h, "BLUE");
    (within 80 160 h && (color.(Color.b) >? color.(Color.g) * Fin 0.7), "HAZEL");
    (within 80 160 h, "GREEN");
    (within 20 50 h && (l >? Fin 0.5), "AMBER");
    (within 20 50 h && (l >? Fin 0.35), "LIGHT BROWN");
    (within 20 50 h, "BROWN") ].

(** The rules of the hair colour classifier. *)
Definition hair_rules (hsl : HSL.t) : list (bool * string) :=
  let '(HSL.mk h s l) := hsl in
  [ (l <? Fin 0.15, "BLACK");
    (l <? Fin 0.25, "DARK BROWN");
    ((l >? Fin 0.7) && (s <? Fin 0.3), "GRAY/WHITE");
    (l >? Fin 0.6, "BLONDE");
    (within 0 30 h && (s >? Fin 0.3), "RED/AUBURN");
    (l <? Fin 0.4, "BROWN") ].

(** Equality of two HSL results up to the representation of fractions. *)
Definition hsl_eq (a b : HSL.t) : Prop :=
  a.(HSL.h) =n= b.(HSL.h) /\ a.(HSL.s) =n= b.(HSL.s) /\ a.(HSL.l) =n= b.(HSL.l).

(** The hue of a chromatic colour, in sixths of a turn: which channel is
    the maximum fixes the sector, and the place in the sector the difference
    of the two other channels. *)
Definition hue_sector_of (R G B M m H6 : Q) : Prop :=
  ((M == R /\ B <= G /\ 0 <= H6 <= 1 /\ H6 * (M + - m) == G + - B) \/
  (M == R /\ G < B /\ 5 <= H6 < 6 /\ (H6 - 6) * (M + - m) == G + - B) \/
  (~ M == R /\ M == G /\ 1 < H6 <= 3 /\ (H6 - 2) * (M + - m) == B + - R) \/
  (~ M == R /\ ~ M == G /\ M == B /\ 3 < H6 < 5 /\ (H6 - 4) * (M + - m) == R + - G))%Q.

(** ** Pixel buffers *)

(** A pixel [(r, g, b, a)] and the interleaved buffer of a list of pixels. *)
Definition Pixel : Type := (Z * Z * Z * Z)%type.

Definition red (p : Pixel) : Z := let '(r, _, _, _) := p in r.
Definition green (p : Pixel) : Z := let '(_, g, _, _) := p in g.
Definition blue (p : Pixel) : Z := let '(_, _, b, _) := p in b.

(** The colour of a pixel, without its alpha. *)
Definition rgb (p : Pixel) : Z * Z * Z := (red p, green p, blue p).

Definition interleave (px : list Pixel) : Uint8ClampedArray :=
  flat_map (fun '(r, g, b, a) => [r; g; b; a]) px.

(** The sum and the unweighted mean of one channel over the pixels. *)
Definition total (channel : Pixel -> Z) (px : list Pixel) : Z :=
  fold_right (fun p acc => channel p + acc)%Z 0%Z px.

Definition mean (channel : Pixel -> Z) (px : list Pixel) : Q :=
  (inject_Z (total channel px) / inject_Z (Z.of_nat (List.length px)))%Q.

(** [z] is the integer nearest to [q], a half going up. *)
Definition nearest (q : Q) (z : Z) : Prop :=
  (inject_Z z - (1 # 2) <= q /\ q < inject_Z z + (1 # 2))%Q.

(** Every pixel has the colour [(r, g, b)], whatever its alpha. *)
Definition uniform (r g b : Z) (px : list Pixel) : Prop :=
  Forall (fun p => red p = r /\ green p = g /\ blue p = b) px.

(** ** Gaze labels *)

(** The centre of the face box and the offset of the nose from it, scaled by
    the width and the height of the box. *)
Definition faceCenter (faceBox : Box.t) : Point.t :=
  {| Point.x := faceBox.(Box.x) + faceBox.(Box.width) / Fin 2;
     Point.y := faceBox.(Box.y) + faceBox.(Box.height) / Fin 2 |}.

Definition normalizedOffsetX (nose : Point.t) (faceBox : Box.t) : num :=
  (nose.(Point.x) - (faceCenter faceBox).(Point.x)) / faceBox.(Box.width).

Definition normalizedOffsetY (nose : Point.t) (faceBox : Box.t) : num :=
  (nose.(Point.y) - (faceCenter faceBox).(Point.y)) / faceBox.(Box.height).

Definition horizontalLabel (offsetX : num) : string :=
  if offsetX <? Fin (-0.05) then "LEFT"
  else if offsetX >? Fin 0.05 then "RIGHT"
  else "CENTER".

Definition verticalPrefix (offsetY : num) : string :=
  if offsetY <? Fin (-0.1) then "UP-"
  else if offsetY >? Fin 0.1 then "DOWN-"
  else "".

Definition gazeLabel (nose : Point.t) (faceBox : Box.t) : string :=
  verticalPrefix (normalizedOffsetY nose faceBox)
  ++ horizontalLabel (normalizedOffsetX nose faceBox).

(** The nine gaze directions. *)
Definition gazeLabels : list string :=
  [ "LEFT"; "CENTER"; "RIGHT";
    "UP-LEFT"; "UP-CENTER"; "UP-RIGHT";
    "DOWN-LEFT"; "DOWN-CENTER"; "DOWN-RIGHT" ].

(** The direction [processFaceDetection] computes for a detection. *)
Definition detectedGaze (detection : Detection) : string :=
  gazeLabel (V2.getCenterPoint detection.(landmarks).(getNose)) detection.(box).

(** ** Labels computed by an analysis pass *)

(** The region each analysis samples, and the label it computes from it. *)
Definition eyeRegion (canvas : Canvas) (ctx : Context2D)
    (lastFaceDetection : option Detection) : ImageData :=
  match lastFaceDetection with
  | Some detection =>
      let eyeCenter := V2.getCenterPoint detection.(landmarks).(getLeftEye) in
      ctx.(getImageData)
        (max2 (Fin 0) (eyeCenter.(Point.x) - Fin 10))
        (max2 (Fin 0) (eyeCenter.(Point.y) - Fin 5))
        (Fin 20) (Fin 10)
  | None =>
      let w := canvas.(canvas_width) in
      let h := canvas.(canvas_height) in
      ctx.(getImageData) (w * Fin 0.35) (h * Fin 0.3) (w * Fin 0.3) (h * Fin 0.1)
  end.

Definition hairRegion (canvas : Canvas) (ctx : Context2D)
    (lastFaceDetection : option Detection) : ImageData :=
  match lastFaceDetection with
  | Some detection =>
      let box := detection.(box) in
      ctx.(getImageData) (max2 (Fin 0) box.(Box.x)) (max2 (Fin 0) (box.(Box.y) - Fin 50))
        box.(Box.width) (Fin 40)
  | None =>
      let w := canvas.(canvas_width) in
      let h := canvas.(canvas_height) in
      ctx.(getImageData) (w * Fin 0.25) (h * Fin 0.05) (w * Fin 0.5) (h * Fin 0.15)
  end.

(** The two edge strips of the frame, one after the other. *)
Definition backgroundData (canvas : Canvas) (ctx : Context2D) : Uint8ClampedArray :=
  let w := canvas.(canvas_width) in
  let h := canvas.(canvas_height) in
  ((ctx.(getImageData) (Fin 0) (h * Fin 0.2) (w * Fin 0.15) (h * Fin 0.6)).(data)
   ++ (ctx.(getImageData) (w * Fin 0.85) (h * Fin 0.2) (w * Fin 0.15) (h * Fin 0.6)).(data))%list.

Definition eyeLabel (canvas : Canvas) (ctx : Context2D)
    (lastFaceDetection : option Detection) : string :=
  V2.classifyEyeColor (V2.getDominantColor (eyeRegion canvas ctx lastFaceDetection).(data)).

Definition hairLabel (canvas : Canvas) (ctx : Context2D)
    (lastFaceDetection : option Detection) : string :=
  V2.classifyHairColor (V2.getDominantColor (hairRegion canvas ctx lastFaceDetection).(data)).

(** The brightness bucket of a mean of the three channels. *)
Definition brightnessBucket (brightness : num) : string :=
  first_match
    [ (brightness <? Fin 50, "DARK ENVIRONMENT");
      (brightness <? Fin 100, "DIM LIGHTING");
      (brightness <? Fin 180, "NORMAL LIGHTING") ]
    "BRIGHT ENVIRONMENT".

(** The colour name of the background: the achromatic names under
    saturation 0.1, else the name of the hue bucket. *)
Definition backgroundColorName (hsl : HSL.t) : string :=
  let '(HSL.mk h s l) := hsl in
  first_match
    [ ((s <? Fin 0.1) && (l <? Fin 0.3), "DARK");
      ((s <? Fin 0.1) && (l >? Fin 0.7), "LIGHT");
      (s <? Fin 0.1, "NEUTRAL");
      (h <? Fin 30, "WARM TONES");
      (h <? Fin 90, "YELLOW/GREEN");
      (h <? Fin 150, "GREEN/CYAN");
      (h <? Fin 210, "BLUE");
      (h <? Fin 270, "PURPLE");
      (h <? Fin 330, "PINK/MAGENTA") ]
    "RED/WARM".

Definition channelMean (color : Color.t) : num :=
  (color.(Color.r) + color.(Color.g) + color.(Color.b)) / Fin 3.

Definition backgroundLabelOf (color : Color.t) : string :=
  backgroundColorName (V2.rgbToHsl color.(Color.r) color.(Color.g) color.(Color.b))
  ++ " / " ++ brightnessBucket (channelMean color).

Definition backgroundLabel (canvas : Canvas) (ctx : Context2D) : string :=
  backgroundLabelOf (V2.getDominantColor (backgroundData canvas ctx)).

(** ** Change-triggered reporting *)

(** The entries a classifier adds for a label, given the stored one. *)
Definition reported (type prefix label : string) (stored : option string)
  : list Observation :=
  if differs label stored
  then [{| type := type; message := prefix ++ label |}]
  else [].

(** The entries a sequence of calls adds, given the labels the calls
    compute one after the other and the label stored before the first. *)
Fixpoint reports (type prefix : string) (stored : option string)
    (labels : list string) : list Observation :=
  match labels with
  | [] => []
  | label :: labels =>
      (reported type prefix label stored ++ reports type prefix (Some label) labels)%list
  end.

(** A sequence of calls of one analysis, one input after the other. *)
Definition runs {Input : Type} (step : Input -> State -> State)
    (inputs : list Input) (st : State) : State :=
  fold_left (fun st input => step input st) inputs st.

(** A context whose every region is empty, and a state in which the camera
    runs on a 640 x 480 detection canvas. *)
Definition emptyContext : Context2D :=
  {| getImageData := fun _ _ _ _ => {| data := [] |} |}.

Definition defaultCanvas : Canvas :=
  {| canvas_width := Fin 640; canvas_height := Fin 480 |}.

Definition cameraOn (st : State) : State :=
  mkState true st.(observations) st.(lastFaceDetection) st.(eyeColor)
          st.(hairColor) st.(backgroundColor) st.(gazeDirection)
          (Some defaultCanvas).

(** A detection whose nose sits at the centre of a 200 x 200 face box. *)
Definition centeredDetection : Detection :=
  {| landmarks :=
       {| getLeftEye := [Point.mk (Fin 60) (Fin 80)];
          getRightEye := [Point.mk (Fin 140) (Fin 80)];
          getNose := [Point.mk (Fin 100) (Fin 100)] |};
     box := Box.mk (Fin 0) (Fin 0) (Fin 200) (Fin 200) |}.


(** ** Coordinates and frames *)

(** [a] is a finite number of [[lo, hi]]. *)
Definition finite_within (lo hi : Q) (a : num) : Prop :=
  match a with
  | Fin q => (lo <= q /\ q <= hi)%Q
  | _ => False
  end.

(** The gaze direction read off pixel coordinates: the nose against the
    centre [(cx, cy)] of a box of width [w] and height [h]. *)
Definition pixelHorizontal (nx cx w : Q) : string :=
  if Qlt_le_dec nx (cx - 0.05 * w)%Q then "LEFT"
  else if Qlt_le_dec (cx + 0.05 * w)%Q nx then "RIGHT"
  else "CENTER".

Definition pixelVertical (ny cy h : Q) : string :=
  if Qlt_le_dec ny (cy - 0.1 * h)%Q then "UP-"
  else if Qlt_le_dec (cy + 0.1 * h)%Q ny then "DOWN-"
  else "".

(** A point and a box after the change of coordinates [v |-> k * v + d]
    (a zoom by [k] and a shift by [(dx, dy)]). *)
Definition movedPoint (k dx dy : Q) (p : Point.t) : Point.t :=
  {| Point.x := Fin k * p.(Point.x) + Fin dx;
     Point.y := Fin k * p.(Point.y) + Fin dy |}.

Definition movedBox (k dx dy : Q) (faceBox : Box.t) : Box.t :=
  {| Box.x := Fin k * faceBox.(Box.x) + Fin dx;
     Box.y := Fin k * faceBox.(Box.y) + Fin dy;
     Box.width := Fin k * faceBox.(Box.width);
     Box.height := Fin k * faceBox.(Box.height) |}.

(** ** Label sets and events *)

Definition eyeLabels : list string :=
  [ "DARK BROWN"; "DARK GRAY"; "GRAY"; "DARK BLUE"; "LIGHT BLUE"; "BLUE";
    "HAZEL"; "GREEN"; "AMBER"; "LIGHT BROWN"; "BROWN" ].

Definition hairLabels : list string :=
  [ "BLACK"; "DARK BROWN"; "GRAY/WHITE"; "BLONDE"; "RED/AUBURN"; "BROWN";
    "LIGHT BROWN" ].

Definition backgroundNames : list string :=
  [ "DARK"; "LIGHT"; "NEUTRAL"; "WARM TONES"; "YELLOW/GREEN"; "GREEN/CYAN";
    "BLUE"; "PURPLE"; "PINK/MAGENTA"; "RED/WARM" ].

Definition brightnessBuckets : list string :=
  [ "DARK ENVIRONMENT"; "DIM LIGHTING"; "NORMAL LIGHTING"; "BRIGHT ENVIRONMENT" ].

(** A background label: a colour name, [" / "], a brightness bucket. *)
Definition is_backgroundLabel (label : string) : Prop :=
  exists name bucket,
    In name backgroundNames /\ In bucket brightnessBuckets /\
    label = (name ++ " / " ++ bucket)%string.

(** [stored] is [null] or a label for which [P] holds. *)
Definition null_or (P : string -> Prop) (stored : option string) : Prop :=
  match stored with
  | Some label => P label
  | None => True
  end.

(** The stored labels are well formed. *)
Definition labels_well_formed (st : State) : Prop :=
  null_or (fun label => In label eyeLabels) st.(eyeColor) /\
  null_or (fun label => In label hairLabels) st.(hairColor) /\
  null_or is_backgroundLabel st.(backgroundColor) /\
  In st.(gazeDirection) gazeLabels.

(** What the timers and the detector make the script do to [state]: handle
    a detected face, or run a colour pass over the frame on the canvas. *)
Inductive Event : Type :=
| FaceDetected (detection : Detection)
| ColorPass (ctx : Context2D).

Definition handle (st : State) (event : Event) : State :=
  match event with
  | FaceDetected detection => V2.processFaceDetection detection st
  | ColorPass ctx => V2.analyzeColors ctx st
  end.

(** ** Colours *)

(** [q < t], as a guard of a rule table. *)
Definition below (q t : Q) : bool := if Qlt_le_dec q t then true else false.

(** The gray of level [q]. *)
Definition gray (q : Q) : Color.t := Color.mk (Fin q) (Fin q) (Fin q).

(** Every channel of every pixel is a byte. *)
Definition bytes (px : list Pixel) : Prop :=
  Forall (fun p => (0 <= red p <= 255)%Z /\ (0 <= green p <= 255)%Z /\ (0 <= blue p <= 255)%Z) px.

(** ** Waves *)

(** A wave one frame older, and whether it is still drawn. *)
Definition aged (wave : Wave.t) : Wave.t :=
  Wave.mk wave.(Wave.x) wave.(Wave.y) (wave.(Wave.radius) + wave.(Wave.speed))
          wave.(Wave.speed) (wave.(Wave.opacity) - Fin 0.008).

Definition visible (wave : Wave.t) : bool := negb (wave.(Wave.opacity) <=? Fin 0).

(** [n] frames, one after the other. *)
Fixpoint frames (n : nat) (waves : list Wave.t) : option (list Wave.t) :=
  match n with
  | O => Some waves
  | S n =>
      match V2.animateWaves waves with
      | Some waves => frames n waves
      | None => None
      end
  end.

(** What happens to the waves: a new one is created, or a frame is drawn. *)
Inductive WaveEvent : Type :=
| NewWave (x y random : num)
| Frame.

Definition wave_step (waves : option (list Wave.t)) (event : WaveEvent)
  : option (list Wave.t) :=
  match waves, event with
  | Some waves, NewWave x y random => Some (V2.createWave x y random waves)
  | Some waves, Frame => V2.animateWaves waves
  | None, _ => None
  end.

(** ** The log *)

(** The last [n] elements of a list. *)
Definition lastn {A : Type} (n : nat) (l : list A) : list A :=
  skipn (List.length l - n) l.

(** A call of [addObservation]: the history and the log on the page. *)
Definition logged (page : State * list Observation) (entry : string * string)
  : State * list Observation :=
  (V2.addObservation (fst entry) (snd entry) (fst page),
   V2.addObservation_logEntries (fst entry) (snd entry) (snd page)).

(** ** Texts *)

(** No character of [s] is a dot. *)
Fixpoint dotless (s : string) : bool :=
  match s with
  | EmptyString => true
  | String c rest => negb (Ascii.eqb c ".") && dotless rest
  end.

(** A field of the clock. *)
Definition clock_field (z : Z) : string := padStart 2 "0" (Z_toString z).

(** ** Behaviour *)

(** A sequence of [mousemove] events, each with the time it is handled at
    and the random number its wave would take. *)
Definition mouse_moves (moves : list (MouseEvent * Z * num)) (page : Page) : Page :=
  fold_left (fun page move =>
               let '(e, now, random) := move in V2.trackMouse e now random page)
            moves page.

(** The two notices of [checkInactivity]. *)
Definition idle_notice : Observation :=
  {| type := "BEHAVIOR"; message := "Subject appears to be idle — still watching?" |}.

Definition abandoned_notice : Observation :=
  {| type := "BEHAVIOR";
     message := "Extended inactivity detected — subject may have abandoned observation" |}.

(** ** Regions of the frame *)

(** A rectangle [(sx, sy, sw, sh)] of positive area inside the canvas. *)
Definition Rect : Type := (Q * Q * Q * Q)%type.

Definition inside (canvas : Canvas) (rect : Rect) : Prop :=
  let '(sx, sy, sw, sh) := rect in
  exists w h,
    canvas = {| canvas_width := Fin w; canvas_height := Fin h |} /\
    (0 <= sx /\ 0 <= sy /\ 0 < sw /\ 0 < sh /\ sx + sw <= w /\ sy + sh <= h)%Q.

(** What a context returns for a rectangle. *)
Definition read (ctx : Context2D) (rect : Rect) : ImageData :=
  let '(sx, sy, sw, sh) := rect in
  ctx.(getImageData) (Fin sx) (Fin sy) (Fin sw) (Fin sh).

(** * Properties *)

(** ** Arithmetic of finite numbers *)

Section FiniteArithmetic.

Local Open Scope Q_scope.

Lemma ltb_Fin (p q : Q) : reflect (p < q) (Fin p <? Fin q)%js.
Proof.
  unfold ltb. destruct (p ?= q) eqn:E; constructor.
  - apply Qeq_alt in E. lra.
  - now apply Qlt_alt.
  - apply Qgt_alt in E. lra.
Qed.

Lemma gtb_Fin (p q : Q) : reflect (q < p) (Fin p >? Fin q)%js.
Proof. apply ltb_Fin. Qed.

Lemma eqb_Fin (p q : Q) : reflect (p == q) (Fin p === Fin q)%js.
Proof.
  unfold eqb. destruct (Qeq_bool p q) eqn:E; constructor.
  - now apply Qeq_bool_eq.
  - now apply Qeq_bool_neq.
Qed.

Lemma div_Fin (p q : Q) : ~ q == 0 -> (Fin p / Fin q)%js = Fin (p / q).
Proof.
  intros H. unfold div. destruct (Qeq_bool q 0) eqn:E; [|reflexivity].
  apply Qeq_bool_eq in E. contradiction.
Qed.

(** A division by zero never gives a finite number. *)
Lemma div_zero_not_finite (a : num) (q : Q) : q == 0 -> ~ finite (a / Fin q)%js.
Proof.
  intros H. apply Qeq_bool_iff in H.
  destruct a as [p| | |]; simpl; rewrite ?H; try tauto.
  - unfold signed_inf. destruct (sgn p); tauto.
  - unfold sgn. apply Qeq_bool_iff in H. apply Qeq_alt in H. rewrite H. tauto.
  - unfold sgn. apply Qeq_bool_iff in H. apply Qeq_alt in H. rewrite H. tauto.
Qed.

Lemma max2_Fin (p q : Q) :
  exists m, max2 (Fin p) (Fin q) = Fin m /\ (m = p \/ m = q) /\ p <= m /\ q <= m.
Proof.
  unfold max2. destruct (ltb_Fin p q).
  - exists q. repeat split; auto; lra.
  - exists p. repeat split; auto; lra.
Qed.

Lemma min2_Fin (p q : Q) :
  exists m, min2 (Fin p) (Fin q) = Fin m /\ (m = p \/ m = q) /\ m <= p /\ m <= q.
Proof.
  unfold min2. destruct (ltb_Fin q p).
  - exists q. repeat split; auto; lra.
  - exists p. repeat split; auto; lra.
Qed.

Lemma max3_Fin (p q r : Q) :
  exists m, max3 (Fin p) (Fin q) (Fin r) = Fin m
            /\ (m = p \/ m = q \/ m = r) /\ p <= m /\ q <= m /\ r <= m.
Proof.
  unfold max3.
  destruct (max2_Fin p q) as (m1 & -> & H1 & Hp & Hq).
  destruct (max2_Fin m1 r) as (m & -> & H2 & Hm & Hr).
  exists m. repeat split; try lra.
  destruct H2 as [->| ->]; intuition.
Qed.

Lemma min3_Fin (p q r : Q) :
  exists m, min3 (Fin p) (Fin q) (Fin r) = Fin m
            /\ (m = p \/ m = q \/ m = r) /\ m <= p /\ m <= q /\ m <= r.
Proof.
  unfold min3.
  destruct (min2_Fin p q) as (m1 & -> & H1 & Hp & Hq).
  destruct (min2_Fin m1 r) as (m & -> & H2 & Hm & Hr).
  exists m. repeat split; try lra.
  destruct H2 as [->| ->]; intuition.
Qed.

(** Bounds of a quotient by a positive number. *)
Lemma Qdiv_between (x d lo hi : Q) :
  0 < d -> lo * d <= x -> x <= hi * d -> lo <= x / d /\ x / d <= hi.
Proof.
  intros Hd Hlo Hhi. split.
  - apply Qle_shift_div_l; assumption.
  - apply Qle_shift_div_r; assumption.
Qed.

Lemma Qdiv_neg (x d : Q) : 0 < d -> x < 0 -> x / d < 0.
Proof.
  intros Hd Hx. apply Qlt_shift_div_r; [assumption|]. lra.
Qed.

Lemma Qdiv_gt (x d lo : Q) : 0 < d -> lo * d < x -> lo < x / d.
Proof. intros Hd H. apply Qlt_shift_div_l; assumption. Qed.

Lemma Qdiv_lt (x d hi : Q) : 0 < d -> x < hi * d -> x / d < hi.
Proof. intros Hd H. apply Qlt_shift_div_r; assumption. Qed.

Lemma Qdiv_mul (x d : Q) : 0 < d -> x / d * d == x.
Proof. intros Hd. field. lra. Qed.

End FiniteArithmetic.

(** ** The HSL converter *)

Section HslConverter.

Local Open Scope Q_scope.

(** Divisions by a numeral become products, which [lra] accepts. *)
Ltac qconst := unfold Qdiv; cbn [Qinv Qnum Qden].

(** The hue before its scaling to degrees, for channels [R], [G], [B] whose
    maximum [M] and minimum [m] differ: a finite number of sixths [H6] of a
    turn, in the sector of the maximal channel. *)
Lemma hue_shape (R G B M m : Q) :
  (M = R \/ M = G \/ M = B) -> R <= M -> G <= M -> B <= M ->
  m <= R -> m <= G -> m <= B -> 0 < M + - m ->
  exists H6,
    (if Fin M === Fin R
     then (Fin (G + - B) / Fin (M + - m) + (if Fin G <? Fin B then Fin 6 else Fin 0)) / Fin 6
     else if Fin M === Fin G
          then (Fin (B + - R) / Fin (M + - m) + Fin 2) / Fin 6
          else if Fin M === Fin B
               then (Fin (R + - G) / Fin (M + - m) + Fin 4) / Fin 6
               else NaN)%js = Fin (H6 / 6)
    /\ hue_sector_of R G B M m H6.
Proof.
  intros HM HMR HMG HMB HmR HmG HmB Hd. unfold hue_sector_of.
  destruct (eqb_Fin M R) as [ER|ER]; [|destruct (eqb_Fin M G) as [EG|EG];
                                       [|destruct (eqb_Fin M B) as [EB|EB]]].
  - rewrite (div_Fin _ (M + - m)) by lra.
    pose proof (Qdiv_mul (G + - B) (M + - m) Hd) as Hmul.
    destruct (Qdiv_between (G + - B) (M + - m) (-1) 1) as [Hlo Hhi]; try lra.
    destruct (ltb_Fin G B) as [L|L]; cbn [add]; rewrite (div_Fin _ 6) by lra;
      eexists; (split; [reflexivity|]).
    + right; left.
      assert (Hneg := Qdiv_neg (G + - B) (M + - m) Hd).
      revert Hlo Hneg Hmul. generalize ((G + - B) / (M + - m)). intros t Hlo Hneg Hmul.
      repeat split; first [lra | rewrite <- Hmul; ring].
    + left.
      assert (Hlo' : 0 <= (G + - B) / (M + - m))
        by (apply (Qdiv_between (G + - B) (M + - m) 0 1); lra).
      revert Hlo' Hhi Hmul. generalize ((G + - B) / (M + - m)). intros t Hlo' Hhi Hmul.
      repeat split; first [lra | rewrite <- Hmul; ring].
  - rewrite (div_Fin _ (M + - m)) by lra.
    pose proof (Qdiv_mul (B + - R) (M + - m) Hd) as Hmul.
    destruct (Qdiv_between (B + - R) (M + - m) (-1) 1) as [_ Hhi]; try lra.
    assert (Hlo := Qdiv_gt (B + - R) (M + - m) (-1) Hd).
    cbn [add]. rewrite (div_Fin _ 6) by lra.
    eexists; (split; [reflexivity|]).
    right; right; left.
    revert Hlo Hhi Hmul. generalize ((B + - R) / (M + - m)). intros t Hlo Hhi Hmul.
    repeat split; first [lra | rewrite <- Hmul; ring].
  - rewrite (div_Fin _ (M + - m)) by lra.
    pose proof (Qdiv_mul (R + - G) (M + - m) Hd) as Hmul.
    assert (Hlo := Qdiv_gt (R + - G) (M + - m) (-1) Hd).
    assert (Hhi := Qdiv_lt (R + - G) (M + - m) 1 Hd).
    cbn [add]. rewrite (div_Fin _ 6) by lra.
    eexists; (split; [reflexivity|]).
    right; right; right.
    revert Hlo Hhi Hmul. generalize ((R + - G) / (M + - m)). intros t Hlo Hhi Hmul.
    repeat split; first [lra | rewrite <- Hmul; ring].
  - exfalso. destruct HM as [->|[->| ->]]; [apply ER|apply EG|apply EB]; reflexivity.
Qed.

(** The conversion of three finite channels of [[0,255]]: no divisor is
    zero, every component is finite and in its range. *)
Lemma rgbToHsl_Fin (p q r : Q) :
  0 <= p <= 255 -> 0 <= q <= 255 -> 0 <= r <= 255 ->
  exists M m h s,
    max3 (Fin (p / 255)) (Fin (q / 255)) (Fin (r / 255)) = Fin M /\
    min3 (Fin (p / 255)) (Fin (q / 255)) (Fin (r / 255)) = Fin m /\
    V2.rgbToHsl (Fin p) (Fin q) (Fin r) = HSL.mk (Fin h) (Fin s) (Fin ((M + m) / 2)) /\
    0 <= h < 360 /\ 0 <= s <= 1 /\ 0 <= (M + m) / 2 <= 1 /\
    (M == m -> h == 0 /\ s == 0).
Proof.
  intros Hp Hq Hr. unfold V2.rgbToHsl.
  rewrite !(div_Fin _ 255) by lra.
  set (R := p / 255). set (G := q / 255). set (B := r / 255).
  assert (HR : 0 <= R <= 1) by (unfold R; qconst; lra).
  assert (HG : 0 <= G <= 1) by (unfold G; qconst; lra).
  assert (HB : 0 <= B <= 1) by (unfold B; qconst; lra).
  clearbody R G B.
  destruct (max3_Fin R G B) as (M & -> & HM & HMR & HMG & HMB).
  destruct (min3_Fin R G B) as (m & -> & Hm & HmR & HmG & HmB).
  assert (HM1 : M <= 1) by (destruct HM as [->|[->| ->]]; lra).
  assert (Hm0 : 0 <= m) by (destruct Hm as [->|[->| ->]]; lra).
  assert (Hl : 0 <= (M + m) / 2 <= 1) by (qconst; lra).
  exists M, m. cbn [add sub neg].
  rewrite !(div_Fin _ 2) by lra.
  destruct (eqb_Fin M m) as [E|E].
  - cbn [mul]. exists (0 * 360), 0.
    repeat split; try reflexivity; try lra; apply Hl.
  - assert (Hd : 0 < M + - m) by lra.
    assert (Hs : exists s, (if (Fin ((M + m) / 2) >? Fin 0.5)%js
                            then (Fin (M + - m) / Fin (2 + - M + - m))%js
                            else (Fin (M + - m) / Fin (M + m))%js) = Fin s
                           /\ 0 <= s <= 1).
    { destruct (gtb_Fin ((M + m) / 2) 0.5) as [L|L];
        rewrite div_Fin by lra; (eexists; split; [reflexivity|]);
        apply Qdiv_between; lra. }
    destruct Hs as (s & -> & Hs).
    destruct (hue_shape R G B M m) as (H6 & -> & Hsector); try assumption.
    assert (Hh : 0 <= H6 < 6)
      by (clear - Hsector; unfold hue_sector_of in Hsector;
          destruct Hsector as [H|[H|[H|H]]]; lra).
    cbn [mul]. exists (H6 / 6 * 360), s.
    repeat split; try reflexivity; try apply Hs; try apply Hl;
      try (clear - Hh; qconst; lra); lra.
Qed.

(** The divisors [rgbToHsl] meets when the maximum and the minimum of the
    scaled channels differ: their difference, and the sum the saturation is
    taken over.  Neither is zero. *)
Lemma divisors_nonzero (p q r : Q) :
  0 <= p <= 255 -> 0 <= q <= 255 -> 0 <= r <= 255 ->
  let max := max3 (Fin p / Fin 255) (Fin q / Fin 255) (Fin r / Fin 255) in
  let min := min3 (Fin p / Fin 255) (Fin q / Fin 255) (Fin r / Fin 255) in
  (max === min)%js = false ->
  exists d e,
    (max - min)%js = Fin d /\ ~ d == 0 /\
    (if ((max + min) / Fin 2 >? Fin 0.5)%js then (Fin 2 - max - min)%js else (max + min)%js)
    = Fin e /\ ~ e == 0.
Proof.
  intros Hp Hq Hr. cbv zeta.
  rewrite !(div_Fin _ 255) by lra.
  set (R := p / 255). set (G := q / 255). set (B := r / 255).
  assert (HR : 0 <= R <= 1) by (unfold R; qconst; lra).
  assert (HG : 0 <= G <= 1) by (unfold G; qconst; lra).
  assert (HB : 0 <= B <= 1) by (unfold B; qconst; lra).
  clearbody R G B.
  destruct (max3_Fin R G B) as (M & -> & HM & HMR & HMG & HMB).
  destruct (min3_Fin R G B) as (m & -> & Hm & HmR & HmG & HmB).
  assert (HM1 : M <= 1) by (destruct HM as [->|[->| ->]]; lra).
  assert (Hm0 : 0 <= m) by (destruct Hm as [->|[->| ->]]; lra).
  destruct (eqb_Fin M m) as [E|E]; [discriminate|]. intros _.
  cbn [add sub neg]. rewrite (div_Fin _ 2) by lra.
  exists (M + - m).
  destruct (gtb_Fin ((M + m) / 2) 0.5) as [L|L]; eexists;
    (split; [reflexivity|]); (split; [lra|]); (split; [reflexivity|]); lra.
Qed.

Lemma upper_bound_unique (R G B M X : Q) :
  (M = R \/ M = G \/ M = B) -> R <= M -> G <= M -> B <= M ->
  (X == R \/ X == G \/ X == B) -> R <= X -> G <= X -> B <= X -> M == X.
Proof.
  intros HM ? ? ? HX ? ? ?.
  destruct HM as [->|[->| ->]]; destruct HX as [HX|[HX|HX]]; lra.
Qed.

Lemma lower_bound_unique (R G B m X : Q) :
  (m = R \/ m = G \/ m = B) -> m <= R -> m <= G -> m <= B ->
  (X == R \/ X == G \/ X == B) -> X <= R -> X <= G -> X <= B -> m == X.
Proof.
  intros Hm ? ? ? HX ? ? ?.
  destruct Hm as [->|[->| ->]]; destruct HX as [HX|[HX|HX]]; lra.
Qed.

Lemma channel_le (a b : Z) : (a <= b)%Z -> inject_Z a / 255 <= inject_Z b / 255.
Proof. intros H. rewrite Zle_Qle in H. qconst. lra. Qed.

Lemma channel_range (a : Z) : (0 <= a <= 255)%Z -> 0 <= inject_Z a <= 255.
Proof.
  intros [H0 H1]. rewrite Zle_Qle in H0, H1. split; assumption.
Qed.

(** C2: on integer channels of [[0,255]] [rgbToHsl] meets no zero divisor
    and returns three finite numbers: a hue in [[0,360)], a saturation in
    [[0,1]] and the lightness (max+min)/2 of the scaled channels, in [[0,1]];
    a gray input ([r = g = b]) has hue 0 and saturation 0.  Where the maximum
    and the minimum differ, the two divisors that depend on the input, their
    difference and the sum the saturation is taken over, are not zero (the
    other divisors are the numerals 255, 2 and 6).  Black gives
    [{h:0, s:0, l:0}] and white [{h:0, s:0, l:1}]. *)
Theorem rgbToHsl_total_in_range :
  (forall r g b : Z,
      (0 <= r <= 255)%Z -> (0 <= g <= 255)%Z -> (0 <= b <= 255)%Z ->
      exists h s l : Q,
        V2.rgbToHsl (of_Z r) (of_Z g) (of_Z b) = HSL.mk (Fin h) (Fin s) (Fin l) /\
        0 <= h < 360 /\ 0 <= s <= 1 /\ 0 <= l <= 1 /\
        l == (inject_Z (Z.max r (Z.max g b)) / 255
              + inject_Z (Z.min r (Z.min g b)) / 255) / 2 /\
        (r = g -> g = b -> h == 0 /\ s == 0)) /\
  (forall r g b : Z,
      (0 <= r <= 255)%Z -> (0 <= g <= 255)%Z -> (0 <= b <= 255)%Z ->
      let max := max3 (of_Z r / Fin 255) (of_Z g / Fin 255) (of_Z b / Fin 255) in
      let min := min3 (of_Z r / Fin 255) (of_Z g / Fin 255) (of_Z b / Fin 255) in
      (max === min)%js = false ->
      exists d e,
        (max - min)%js = Fin d /\ ~ d == 0 /\
        (if ((max + min) / Fin 2 >? Fin 0.5)%js
         then (Fin 2 - max - min)%js else (max + min)%js) = Fin e /\ ~ e == 0) /\
  hsl_eq (V2.rgbToHsl (Fin 0) (Fin 0) (Fin 0)) (HSL.mk (Fin 0) (Fin 0) (Fin 0)) /\
  hsl_eq (V2.rgbToHsl (Fin 255) (Fin 255) (Fin 255)) (HSL.mk (Fin 0) (Fin 0) (Fin 1)).
Proof.
  split; [|split; [|split; vm_compute; intuition discriminate]].
  2:{ intros r g b Hr Hg Hb.
      apply divisors_nonzero; apply channel_range; assumption. }
  intros r g b Hr Hg Hb. unfold of_Z.
  destruct (rgbToHsl_Fin (inject_Z r) (inject_Z g) (inject_Z b))
    as (M & m & h & s & EM & Em & E & Hh & Hs & Hl & Hgray);
    try (apply channel_range; assumption).
  set (R := inject_Z r / 255) in *. set (G := inject_Z g / 255) in *.
  set (B := inject_Z b / 255) in *.
  destruct (max3_Fin R G B) as (M' & EM' & HM & HMR & HMG & HMB).
  destruct (min3_Fin R G B) as (m' & Em' & Hm & HmR & HmG & HmB).
  rewrite EM in EM'. rewrite Em in Em'.
  injection EM' as <-. injection Em' as <-.
  assert (HMz : M == inject_Z (Z.max r (Z.max g b)) / 255).
  { apply (upper_bound_unique R G B); try assumption.
    - destruct (Z.max_spec r (Z.max g b)) as [[_ ->]|[_ ->]];
        [destruct (Z.max_spec g b) as [[_ ->]|[_ ->]]|]; intuition reflexivity.
    - apply channel_le; lia.
    - apply channel_le; lia.
    - apply channel_le; lia. }
  assert (Hmz : m == inject_Z (Z.min r (Z.min g b)) / 255).
  { apply (lower_bound_unique R G B); try assumption.
    - destruct (Z.min_spec r (Z.min g b)) as [[_ ->]|[_ ->]];
        [|destruct (Z.min_spec g b) as [[_ ->]|[_ ->]]]; intuition reflexivity.
    - apply channel_le; lia.
    - apply channel_le; lia.
    - apply channel_le; lia. }
  exists h, s, ((M + m) / 2).
  split; [exact E|]. split; [exact Hh|]. split; [exact Hs|]. split; [exact Hl|].
  split.
  - rewrite HMz, Hmz. reflexivity.
  - intros -> ->. apply Hgray.
    unfold R, G, B in *. destruct HM as [->|[->| ->]]; destruct Hm as [->|[->| ->]];
      reflexivity.
Qed.

(** The conversion of (10, 200, 255). *)
Lemma rgbToHsl_total_in_range_witness :
  exists h s l : Q,
    V2.rgbToHsl (of_Z 10) (of_Z 200) (of_Z 255) = HSL.mk (Fin h) (Fin s) (Fin l) /\
    0 <= h < 360 /\ 0 <= s <= 1 /\ 0 <= l <= 1.
Proof.
  destruct (proj1 rgbToHsl_total_in_range 10%Z 200%Z 255%Z)
    as (h & s & l & E & Hh & Hs & Hl & _); try lia.
  exists h, s, l. repeat split; try assumption; try apply Hh; try apply Hs; apply Hl.
Defined.


(** *** The conversion loses nothing *)

(** The shape of the conversion of finite channels of [[0,255]] that are not
    all equal. *)
Lemma rgbToHsl_chromatic (p q r : Q) :
  0 <= p <= 255 -> 0 <= q <= 255 -> 0 <= r <= 255 ->
  ~ (p == q /\ q == r) ->
  exists M m H6 s,
    V2.rgbToHsl (Fin p) (Fin q) (Fin r)
    = HSL.mk (Fin (H6 / 6 * 360)) (Fin s) (Fin ((M + m) / 2)) /\
    p / 255 <= M /\ q / 255 <= M /\ r / 255 <= M /\
    m <= p / 255 /\ m <= q / 255 /\ m <= r / 255 /\
    (m == p / 255 \/ m == q / 255 \/ m == r / 255) /\
    0 <= m /\ m < M /\ M <= 1 /\ 0 < s /\
    ((5 # 10 < (M + m) / 2 /\ s * (2 + - M + - m) == M + - m) \/
     (~ 5 # 10 < (M + m) / 2 /\ s * (M + m) == M + - m)) /\
    hue_sector_of (p / 255) (q / 255) (r / 255) M m H6.
Proof.
  intros Hp Hq Hr Hchroma. unfold V2.rgbToHsl.
  rewrite !(div_Fin _ 255) by lra.
  assert (Hchroma' : ~ (p / 255 == q / 255 /\ q / 255 == r / 255)).
  { intros [E1 E2]. apply Hchroma. revert E1 E2. qconst. intros E1 E2. split; lra. }
  revert Hchroma'.
  set (R := p / 255). set (G := q / 255). set (B := r / 255).
  assert (HR : 0 <= R <= 1) by (unfold R; qconst; lra).
  assert (HG : 0 <= G <= 1) by (unfold G; qconst; lra).
  assert (HB : 0 <= B <= 1) by (unfold B; qconst; lra).
  clearbody R G B. intros Hchroma'.
  destruct (max3_Fin R G B) as (M & -> & HM & HMR & HMG & HMB).
  destruct (min3_Fin R G B) as (m & -> & Hm & HmR & HmG & HmB).
  assert (HM1 : M <= 1) by (destruct HM as [->|[->| ->]]; lra).
  assert (Hm0 : 0 <= m) by (destruct Hm as [->|[->| ->]]; lra).
  exists M, m. cbn [add sub neg].
  rewrite !(div_Fin _ 2) by lra.
  destruct (eqb_Fin M m) as [E|E].
  { exfalso. apply Hchroma'. split; lra. }
  assert (Hd : 0 < M + - m) by lra.
  destruct (hue_shape R G B M m) as (H6 & -> & Hsector); try assumption.
  exists H6. cbn [mul].
  destruct (gtb_Fin ((M + m) / 2) 0.5) as [L|L]; rewrite div_Fin by lra;
    eexists; (split; [reflexivity|]); do 6 (split; [lra|]);
    (split; [destruct Hm as [->|[->| ->]]; intuition reflexivity|]);
    do 3 (split; [lra|]).
  - assert (HD : 0 < 2 + - M + - m) by lra.
    pose proof (Qdiv_mul (M + - m) (2 + - M + - m) HD) as Hmul.
    assert (Hs := Qdiv_gt (M + - m) (2 + - M + - m) 0 HD).
    split; [lra|]. split; [|exact Hsector].
    left. split; [exact L|exact Hmul].
  - assert (HD : 0 < M + m) by lra.
    pose proof (Qdiv_mul (M + - m) (M + m) HD) as Hmul.
    assert (Hs := Qdiv_gt (M + - m) (M + m) 0 HD).
    split; [lra|]. split; [|exact Hsector].
    right. split; [exact L|exact Hmul].
Qed.

(** Two chromatic colours of finite channels in [[0,255]] with the same
    hue, saturation and lightness are the same colour. *)
Lemma rgbToHsl_chromatic_injective (p1 q1 r1 p2 q2 r2 : Q) :
  0 <= p1 <= 255 -> 0 <= q1 <= 255 -> 0 <= r1 <= 255 ->
  0 <= p2 <= 255 -> 0 <= q2 <= 255 -> 0 <= r2 <= 255 ->
  ~ (p1 == q1 /\ q1 == r1) -> ~ (p2 == q2 /\ q2 == r2) ->
  hsl_eq (V2.rgbToHsl (Fin p1) (Fin q1) (Fin r1)) (V2.rgbToHsl (Fin p2) (Fin q2) (Fin r2)) ->
  p1 == p2 /\ q1 == q2 /\ r1 == r2.
Proof.
  intros Hp1 Hq1 Hr1 Hp2 Hq2 Hr2 Hc1 Hc2 Heq.
  destruct (rgbToHsl_chromatic p1 q1 r1 Hp1 Hq1 Hr1 Hc1)
    as (M1 & m1 & H1 & s1 & E1 & HMR1 & HMG1 & HMB1 & HmR1 & HmG1 & HmB1 & Hm1
        & Hm01 & Hd1 & HM11 & Hs1 & Hsat1 & Hsec1).
  destruct (rgbToHsl_chromatic p2 q2 r2 Hp2 Hq2 Hr2 Hc2)
    as (M2 & m2 & H2 & s2 & E2 & HMR2 & HMG2 & HMB2 & HmR2 & HmG2 & HmB2 & Hm2
        & Hm02 & Hd2 & HM12 & Hs2 & Hsat2 & Hsec2).
  rewrite E1, E2 in Heq. destruct Heq as (Eh & Es & El).
  cbn [HSL.h HSL.s HSL.l num_eq] in Eh, Es, El.
  unfold hue_sector_of in *.
  set (R1 := p1 / 255) in *. set (G1 := q1 / 255) in *. set (B1 := r1 / 255) in *.
  set (R2 := p2 / 255) in *. set (G2 := q2 / 255) in *. set (B2 := r2 / 255) in *.
  assert (EH : H1 == H2) by (clear - Eh; revert Eh; qconst; lra).
  assert (El' : M1 + m1 == M2 + m2) by (clear - El; revert El; qconst; lra).
  assert (Ed : M1 + - m1 == M2 + - m2).
  { clear - Hsat1 Hsat2 Es El'. revert Hsat1 Hsat2. qconst.
    intros [[L1 P1]|[L1 P1]] [[L2 P2]|[L2 P2]]; try (exfalso; clear - L1 L2 El'; lra).
    - assert (ED : 2 + - M1 + - m1 == 2 + - M2 + - m2) by (clear - El'; lra).
      rewrite ED, Es in P1. clear - P1 P2. lra.
    - rewrite El', Es in P1. clear - P1 P2. lra. }
  assert (EM : M1 == M2) by (clear - El' Ed; lra).
  assert (Em : m1 == m2) by (clear - El' Ed; lra).
  assert (ERGB : R1 == R2 /\ G1 == G2 /\ B1 == B2).
  { clear Eh Es El Hsat1 Hsat2 E1 E2 Hc1 Hc2 Hp1 Hq1 Hr1 Hp2 Hq2 Hr2.
    clearbody R1 G1 B1 R2 G2 B2.
    destruct Hsec1 as [(A1 & C1 & N1 & P1)|[(A1 & C1 & N1 & P1)|[(A1 & C1 & N1 & P1)
                      |(A1 & A1' & C1 & N1 & P1)]]];
    destruct Hsec2 as [(A2 & C2 & N2 & P2)|[(A2 & C2 & N2 & P2)|[(A2 & C2 & N2 & P2)
                      |(A2 & A2' & C2 & N2 & P2)]]];
    try (exfalso; clear - EH N1 N2; lra);
    rewrite EH, EM, Em in P1;
    destruct Hm1 as [Hm1|[Hm1|Hm1]]; try (exfalso; clear - A1 C1 Hm1 Hd1 HMR1 HMG1 HMB1; lra);
    destruct Hm2 as [Hm2|[Hm2|Hm2]]; try (exfalso; clear - A2 C2 Hm2 Hd2 HMR2 HMG2 HMB2; lra);
    clear - A1 C1 P1 A2 C2 P2 EM Em Hm1 Hm2 HmR1 HmG1 HmB1 HmR2 HmG2 HmB2;
    lra. }
  destruct ERGB as (ER & EG & EB). unfold R1, R2, G1, G2, B1, B2 in *.
  clear - ER EG EB. revert ER EG EB. qconst. intros ER EG EB. repeat split; lra.
Qed.

(** X7: on integer channels of [[0,255]] the conversion is one-to-one on
    the chromatic colours: two of them with the same hue, saturation and
    lightness are equal, so the HSL value of a chromatic colour determines
    the colour. *)
Theorem rgbToHsl_injective (r1 g1 b1 r2 g2 b2 : Z) :
  (0 <= r1 <= 255)%Z -> (0 <= g1 <= 255)%Z -> (0 <= b1 <= 255)%Z ->
  (0 <= r2 <= 255)%Z -> (0 <= g2 <= 255)%Z -> (0 <= b2 <= 255)%Z ->
  ~ (r1 = g1 /\ g1 = b1) -> ~ (r2 = g2 /\ g2 = b2) ->
  hsl_eq (V2.rgbToHsl (of_Z r1) (of_Z g1) (of_Z b1))
         (V2.rgbToHsl (of_Z r2) (of_Z g2) (of_Z b2)) ->
  r1 = r2 /\ g1 = g2 /\ b1 = b2.
Proof.
  intros Hr1 Hg1 Hb1 Hr2 Hg2 Hb2 Hc1 Hc2 Heq.
  destruct (rgbToHsl_chromatic_injective
              (inject_Z r1) (inject_Z g1) (inject_Z b1)
              (inject_Z r2) (inject_Z g2) (inject_Z b2)) as (Er & Eg & Eb);
    try (apply channel_range; assumption); try exact Heq.
  - intros [E1 E2]. apply Hc1. split; apply inject_Z_injective; assumption.
  - intros [E1 E2]. apply Hc2. split; apply inject_Z_injective; assumption.
  - repeat split; apply inject_Z_injective; assumption.
Qed.

(** (10, 200, 255) against itself. *)
Lemma rgbToHsl_injective_witness :
  hsl_eq (V2.rgbToHsl (of_Z 10) (of_Z 200) (of_Z 255))
         (V2.rgbToHsl (of_Z 10) (of_Z 200) (of_Z 255)) /\
  (10 = 10 /\ 200 = 200 /\ 255 = 255)%Z.
Proof.
  assert (H : hsl_eq (V2.rgbToHsl (of_Z 10) (of_Z 200) (of_Z 255))
                     (V2.rgbToHsl (of_Z 10) (of_Z 200) (of_Z 255)))
    by (vm_compute; intuition reflexivity).
  split; [exact H|].
  apply (rgbToHsl_injective 10 200 255 10 200 255); try lia; exact H.
Defined.

(** (255, 0, 0) and (254, 0, 0) differ in lightness. *)
Lemma rgbToHsl_injective_example :
  ~ hsl_eq (V2.rgbToHsl (of_Z 255) (of_Z 0) (of_Z 0))
           (V2.rgbToHsl (of_Z 254) (of_Z 0) (of_Z 0)).
Proof.
  intros H.
  assert (E : 255 == 254 /\ 0 == 0 /\ 0 == 0).
  { apply (rgbToHsl_chromatic_injective 255 0 0 254 0 0); try lra; try exact H;
      intros [E _]; revert E; clear; intros E; lra. }
  destruct E as [E _]. revert E. clear. intros E. lra.
Qed.

End HslConverter.

(** ** The two versions compute the same *)

(** C10: the analysis functions of the older script ([V1]) and of the
    exhibition script ([V2]) return the same result on every input:
    [getDominantColor], [rgbToHsl], the three classifiers, and
    [estimateGaze] (result and state), whose older version also computes an
    eye midpoint that its result does not use. *)
Theorem versions_agree :
  (forall pixels, V1.getDominantColor pixels = V2.getDominantColor pixels) /\
  (forall r g b, V1.rgbToHsl r g b = V2.rgbToHsl r g b) /\
  (forall color, V1.classifyEyeColor color = V2.classifyEyeColor color) /\
  (forall color, V1.classifyHairColor color = V2.classifyHairColor color) /\
  (forall color, V1.classifyBackgroundColor color = V2.classifyBackgroundColor color) /\
  (forall leftEye rightEye nose faceBox st,
      V1.estimateGaze leftEye rightEye nose faceBox st
      = V2.estimateGaze leftEye rightEye nose faceBox st).
Proof.
  assert (Hloop : forall fuel pixels i r g b count,
             V1.getDominantColor_loop fuel pixels i r g b count
             = V2.getDominantColor_loop fuel pixels i r g b count).
  { induction fuel as [|fuel IH]; intros; simpl; [reflexivity|].
    destruct (i <? List.length pixels)%nat; [apply IH | reflexivity]. }
  assert (Hhsl : forall r g b, V1.rgbToHsl r g b = V2.rgbToHsl r g b)
    by reflexivity.
  refine (conj _ (conj Hhsl (conj _ (conj _ (conj _ _))))).
  - intros pixels. unfold V1.getDominantColor, V2.getDominantColor.
    now rewrite Hloop.
  - intros [r g b]. unfold V1.classifyEyeColor, V2.classifyEyeColor.
    rewrite Hhsl. cbn [Color.r Color.g Color.b].
    now destruct (V2.rgbToHsl r g b).
  - intros [r g b]. unfold V1.classifyHairColor, V2.classifyHairColor.
    rewrite Hhsl. cbn [Color.r Color.g Color.b].
    now destruct (V2.rgbToHsl r g b).
  - intros [r g b]. unfold V1.classifyBackgroundColor, V2.classifyBackgroundColor.
    now rewrite Hhsl.
  - intros leftEye rightEye nose faceBox st.
    unfold V1.estimateGaze, V2.estimateGaze. reflexivity.
Qed.

(** ** The classifiers *)

Lemma ltb_tenth_fifth (l : num) : l =n= Fin 0.1 -> (l <? Fin 0.2) = true.
Proof.
  destruct l as [q| | |]; simpl; try contradiction.
  intros H. rewrite H. reflexivity.
Qed.




(** ** The colour averager *)

Section ColorAverager.

Local Open Scope Q_scope.
Local Open Scope list_scope.

Lemma get_app (pre post : Uint8ClampedArray) (k : nat) :
  get (pre ++ post) (List.length pre + k) = get post k.
Proof.
  unfold get. rewrite nth_error_app2 by lia.
  replace (List.length pre + k - List.length pre)%nat with k by lia.
  reflexivity.
Qed.

Lemma get_app_0 (pre post : Uint8ClampedArray) :
  get (pre ++ post) (List.length pre) = get post 0.
Proof. rewrite <- (get_app pre post 0), Nat.add_0_r. reflexivity. Qed.

(** The loop over the buffer of the pixels [px], entered at its first
    pixel: the accumulators grow by the channel sums, the count by the
    number of pixels. *)
Lemma loop_interleave (px : list Pixel) :
  forall (pre : Uint8ClampedArray) (fuel : nat) (r g b c : Q),
    (List.length px <= fuel)%nat ->
    exists r' g' b' c',
      V2.getDominantColor_loop fuel (pre ++ interleave px) (List.length pre)
        (Fin r) (Fin g) (Fin b) (Fin c) = (Fin r', Fin g', Fin b', Fin c') /\
      r' == r + inject_Z (total red px) /\
      g' == g + inject_Z (total green px) /\
      b' == b + inject_Z (total blue px) /\
      c' == c + inject_Z (Z.of_nat (List.length px)).
Proof.
  induction px as [|[[[r0 g0] b0] a0] px IH]; intros pre fuel r g b c Hfuel.
  - exists r, g, b, c. split.
    + destruct fuel as [|fuel]; [reflexivity|].
      cbn [V2.getDominantColor_loop interleave flat_map].
      rewrite app_nil_r, Nat.ltb_irrefl. reflexivity.
    + cbn. repeat split; ring.
  - destruct fuel as [|fuel]; [cbn in Hfuel; lia|].
    cbn [V2.getDominantColor_loop interleave flat_map].
    change (flat_map _ px) with (interleave px).
    replace (List.length pre <? List.length (pre ++ [r0; g0; b0; a0] ++ interleave px))%nat
      with true
      by (symmetry; apply Nat.ltb_lt; rewrite length_app; cbn; lia).
    rewrite get_app_0, !get_app. cbn [get nth_error of_Z add].
    replace (pre ++ [r0; g0; b0; a0] ++ interleave px)%list
      with ((pre ++ [r0; g0; b0; a0]) ++ interleave px)%list
      by (rewrite <- app_assoc; reflexivity).
    replace (List.length pre + 4)%nat with (List.length (pre ++ [r0; g0; b0; a0]))
      by (rewrite length_app; reflexivity).
    destruct (IH (pre ++ [r0; g0; b0; a0])%list fuel
                 (r + inject_Z r0) (g + inject_Z g0) (b + inject_Z b0) (c + 1))
      as (r' & g' & b' & c' & E & Hr & Hg & Hb & Hc); [cbn in Hfuel; lia|].
    exists r', g', b', c'. split; [exact E|].
    cbn [total fold_right red green blue List.length].
    rewrite Hr, Hg, Hb, Hc, !inject_Z_plus, Nat2Z.inj_succ.
    unfold Z.succ. rewrite inject_Z_plus.
    unfold total. change (inject_Z 1) with 1.
    repeat split; ring.
Qed.

Lemma length_interleave (px : list Pixel) :
  List.length (interleave px) = (4 * List.length px)%nat.
Proof.
  induction px as [|[[[r0 g0] b0] a0] px IH]; [reflexivity|].
  cbn [interleave flat_map]. change (flat_map _ px) with (interleave px).
  rewrite length_app, IH. cbn [List.length]. lia.
Qed.

Lemma pixel_count_positive (px : list Pixel) :
  px <> [] -> 0 < inject_Z (Z.of_nat (List.length px)).
Proof.
  intros H. destruct px as [|p px]; [contradiction|].
  change 0 with (inject_Z 0). rewrite <- Zlt_Qlt. cbn [List.length]. lia.
Qed.

(** [Math.round] of a quotient is the integer nearest to it. *)
Lemma Qfloor_nearest (q : Q) : nearest q (Qfloor (q + (1 # 2))).
Proof.
  unfold nearest.
  pose proof (Qfloor_le (q + (1 # 2))) as Hle.
  pose proof (Qlt_floor (q + (1 # 2))) as Hlt.
  rewrite inject_Z_plus in Hlt. change (inject_Z 1) with 1 in Hlt.
  split; lra.
Qed.

(** The integer nearest to an integer is itself. *)
Lemma nearest_integer (q : Q) (z v : Z) : q == inject_Z v -> nearest q z -> z = v.
Proof.
  unfold nearest. intros E [Hlo Hhi]. rewrite E in Hlo, Hhi.
  assert (H1 : inject_Z z < inject_Z (v + 1)) by (rewrite inject_Z_plus; change (inject_Z 1) with 1; lra).
  assert (H2 : inject_Z v < inject_Z (z + 1)) by (rewrite inject_Z_plus; change (inject_Z 1) with 1; lra).
  rewrite <- Zlt_Qlt in H1, H2. lia.
Qed.

Lemma total_uniform (channel : Pixel -> Z) (v : Z) (px : list Pixel) :
  Forall (fun p => channel p = v) px ->
  total channel px = (Z.of_nat (List.length px) * v)%Z.
Proof.
  induction 1 as [|p px Hp _ IH]; [reflexivity|].
  cbn [total fold_right List.length]. fold (total channel px).
  rewrite IH, Hp. lia.
Qed.

Lemma mean_uniform (channel : Pixel -> Z) (v : Z) (px : list Pixel) :
  px <> [] -> Forall (fun p => channel p = v) px -> mean channel px == inject_Z v.
Proof.
  intros Hne H. unfold mean. rewrite (total_uniform channel v px H), inject_Z_mult.
  pose proof (pixel_count_positive px Hne). field. lra.
Qed.

(** What [getDominantColor] returns on the buffer of a non-empty list of
    pixels: for each channel the integer nearest to its mean. *)
Lemma getDominantColor_interleave (px : list Pixel) :
  px <> [] ->
  exists R G B : Z,
    V2.getDominantColor (interleave px) = Color.mk (of_Z R) (of_Z G) (of_Z B) /\
    nearest (mean red px) R /\ nearest (mean green px) G /\ nearest (mean blue px) B.
Proof.
  intros Hne. unfold V2.getDominantColor.
  destruct (loop_interleave px [] (List.length (interleave px)) 0 0 0 0)
    as (r & g & b & c & E & Hr & Hg & Hb & Hc).
  { rewrite length_interleave. lia. }
  cbn [app List.length] in E. rewrite E.
  pose proof (pixel_count_positive px Hne) as Hpos.
  assert (Hc0 : ~ c == 0) by lra.
  rewrite !div_Fin by exact Hc0. cbn [round].
  do 3 eexists. split; [reflexivity|].
  assert (Er : r / c == mean red px) by (unfold mean; rewrite Hr, Hc; field; lra).
  assert (Eg : g / c == mean green px) by (unfold mean; rewrite Hg, Hc; field; lra).
  assert (Eb : b / c == mean blue px) by (unfold mean; rewrite Hb, Hc; field; lra).
  pose proof (Qfloor_nearest (r / c)) as Nr.
  pose proof (Qfloor_nearest (g / c)) as Ng.
  pose proof (Qfloor_nearest (b / c)) as Nb.
  unfold nearest in *. rewrite <- Er, <- Eg, <- Eb. auto.
Qed.

(** On a region of one colour the average is that colour. *)
Lemma getDominantColor_uniform (r g b : Z) (px : list Pixel) :
  px <> [] -> uniform r g b px ->
  V2.getDominantColor (interleave px) = Color.mk (of_Z r) (of_Z g) (of_Z b).
Proof.
  intros Hne Hu.
  destruct (getDominantColor_interleave px Hne) as (R & G & B & -> & Nr & Ng & Nb).
  assert (Hr : Forall (fun p => red p = r) px)
    by (eapply Forall_impl; [|exact Hu]; cbn; tauto).
  assert (Hg : Forall (fun p => green p = g) px)
    by (eapply Forall_impl; [|exact Hu]; cbn; tauto).
  assert (Hb : Forall (fun p => blue p = b) px)
    by (eapply Forall_impl; [|exact Hu]; cbn; tauto).
  rewrite (nearest_integer _ _ _ (mean_uniform red r px Hne Hr) Nr).
  rewrite (nearest_integer _ _ _ (mean_uniform green g px Hne Hg) Ng).
  rewrite (nearest_integer _ _ _ (mean_uniform blue b px Hne Hb) Nb).
  reflexivity.
Qed.

Lemma nearest_unique (q q' : Q) (z z' : Z) :
  q == q' -> nearest q z -> nearest q' z' -> z = z'.
Proof.
  unfold nearest. intros E [Hlo Hhi] [Hlo' Hhi']. rewrite E in Hlo, Hhi.
  assert (H1 : inject_Z z < inject_Z (z' + 1))
    by (rewrite inject_Z_plus; change (inject_Z 1) with 1; lra).
  assert (H2 : inject_Z z' < inject_Z (z + 1))
    by (rewrite inject_Z_plus; change (inject_Z 1) with 1; lra).
  rewrite <- Zlt_Qlt in H1, H2. lia.
Qed.

(** The channel sums and the number of pixels do not depend on the alphas. *)
Lemma mean_rgb (px px' : list Pixel) :
  map rgb px = map rgb px' ->
  mean red px == mean red px' /\ mean green px == mean green px'
  /\ mean blue px == mean blue px'.
Proof.
  intros H.
  assert (Hlen : List.length px = List.length px')
    by (rewrite <- (length_map rgb px), H; apply length_map).
  assert (Ht : total red px = total red px' /\ total green px = total green px'
               /\ total blue px = total blue px').
  { clear Hlen. revert px' H.
    induction px as [|p px IH]; intros [|p' px'] H; try discriminate H.
    - repeat split; reflexivity.
    - cbn [map] in H. unfold rgb at 1 2 in H. injection H as Hr Hg Hb Hpx.
      destruct (IH px' Hpx) as (Tr & Tg & Tb).
      cbn [total fold_right]. fold (total red px) (total green px) (total blue px).
      fold (total red px') (total green px') (total blue px').
      rewrite Hr, Hg, Hb, Tr, Tg, Tb. repeat split; reflexivity. }
  destruct Ht as (Tr & Tg & Tb). unfold mean.
  rewrite Hlen, Tr, Tg, Tb. repeat split; reflexivity.
Qed.

(** C5: on the interleaved RGBA buffer of a non-empty list of pixels
    [getDominantColor] returns, for each of R, G and B, the integer nearest
    to the unweighted mean of that channel over all pixels, the alpha values
    playing no part (two buffers that differ only in their alphas have the
    same average); on a region whose pixels all have one colour it returns
    exactly that colour. *)
Theorem getDominantColor_mean (px : list Pixel) :
  px <> [] ->
  (exists R G B : Z,
      V2.getDominantColor (interleave px) = Color.mk (of_Z R) (of_Z G) (of_Z B) /\
      nearest (mean red px) R /\ nearest (mean green px) G /\ nearest (mean blue px) B) /\
  (forall px' : list Pixel,
      map rgb px' = map rgb px ->
      V2.getDominantColor (interleave px') = V2.getDominantColor (interleave px)) /\
  (forall r g b : Z,
      uniform r g b px ->
      V2.getDominantColor (interleave px) = Color.mk (of_Z r) (of_Z g) (of_Z b)).
Proof.
  intros Hne. split; [|split].
  - exact (getDominantColor_interleave px Hne).
  - intros px' Hrgb.
    assert (Hne' : px' <> []) by (intros ->; destruct px; [contradiction|discriminate]).
    destruct (getDominantColor_interleave px Hne) as (R & G & B & -> & Nr & Ng & Nb).
    destruct (getDominantColor_interleave px' Hne') as (R' & G' & B' & -> & Nr' & Ng' & Nb').
    destruct (mean_rgb px' px Hrgb) as (Er & Eg & Eb).
    rewrite (nearest_unique _ _ _ _ Er Nr' Nr), (nearest_unique _ _ _ _ Eg Ng' Ng),
      (nearest_unique _ _ _ _ Eb Nb' Nb).
    reflexivity.
  - intros r g b Hu. exact (getDominantColor_uniform r g b px Hne Hu).
Qed.

(** Two pixels, (10, 20, 30) and (11, 21, 30), of different alpha. *)
Lemma getDominantColor_mean_witness :
  let px : list Pixel := [(10, 20, 30, 255); (11, 21, 30, 0)]%Z in
  px <> [] /\
  exists R G B : Z,
    V2.getDominantColor (interleave px) = Color.mk (of_Z R) (of_Z G) (of_Z B) /\
    nearest (mean red px) R /\ nearest (mean green px) G /\ nearest (mean blue px) B.
Proof.
  intros px.
  assert (Hne : px <> []) by discriminate.
  split; [exact Hne|].
  exact (proj1 (getDominantColor_mean px Hne)).
Defined.

End ColorAverager.

(** ** The gaze estimator *)

Section GazeEstimator.

Local Open Scope Q_scope.

(** The direction is never the empty string, so [direction || 'CENTER'] is
    the direction. *)
Lemma estimateGaze_direction (leftEye rightEye nose : Point.t) (faceBox : Box.t)
    (st : State) :
  fst (V2.estimateGaze leftEye rightEye nose faceBox st) = gazeLabel nose faceBox.
Proof.
  unfold V2.estimateGaze, gazeLabel, verticalPrefix, horizontalLabel,
    normalizedOffsetX, normalizedOffsetY, faceCenter.
  cbn [fst Point.x Point.y].
  destruct (_ <? Fin (-0.05))%js; destruct (_ <? Fin (-0.1))%js;
    try destruct (_ >? Fin 0.05)%js; try destruct (_ >? Fin 0.1)%js; reflexivity.
Qed.

Lemma gazeLabel_well_formed (nose : Point.t) (faceBox : Box.t) :
  In (gazeLabel nose faceBox) gazeLabels.
Proof.
  unfold gazeLabel, verticalPrefix, horizontalLabel, gazeLabels.
  destruct (_ <? Fin (-0.05))%js; destruct (_ <? Fin (-0.1))%js;
    try destruct (_ >? Fin 0.05)%js; try destruct (_ >? Fin 0.1)%js;
    cbn; tauto.
Qed.

(** The offset of a point from itself, over any extent, is zero or [NaN]. *)
Lemma offset_from_itself (c extent : num) :
  ((c - c) / extent)%js = NaN \/ exists q, ((c - c) / extent)%js = Fin q /\ q == 0.
Proof.
  destruct c as [p| | |]; cbn [sub neg add]; try (left; reflexivity).
  destruct extent as [q| | |]; cbn [div]; try (left; reflexivity);
    try (right; exists 0; split; reflexivity).
  assert (E : p + - p == 0) by ring.
  destruct (Qeq_bool q 0).
  - left. unfold sgn. apply Qeq_alt in E. rewrite E. reflexivity.
  - right. eexists. split; [reflexivity|]. rewrite E. unfold Qdiv. ring.
Qed.

Lemma centered_labels (o : num) :
  (o = NaN \/ exists q, o = Fin q /\ q == 0) ->
  horizontalLabel o = "CENTER" /\ verticalPrefix o = "".
Proof.
  unfold horizontalLabel, verticalPrefix.
  intros [->|(q & -> & E)]; [split; reflexivity|].
  destruct (ltb_Fin q (-0.05)); [lra|].
  destruct (gtb_Fin q 0.05); [lra|].
  destruct (ltb_Fin q (-0.1)); [lra|].
  destruct (gtb_Fin q 0.1); [lra|].
  split; reflexivity.
Qed.



End GazeEstimator.

(** ** The analysis passes and their reports *)

Section Reporting.

Local Open Scope list_scope.

Lemma differs_false (label : string) (stored : option string) :
  differs label stored = false -> stored = Some label.
Proof.
  destruct stored as [s|]; cbn; [|discriminate].
  intros H. apply negb_false_iff, String.eqb_eq in H. now subst.
Qed.

Lemma differs_same (label : string) : differs label (Some label) = false.
Proof. cbn. now rewrite String.eqb_refl. Qed.

Lemma reported_same (type prefix label : string) :
  reported type prefix label (Some label) = [].
Proof. unfold reported. now rewrite differs_same. Qed.

(** Each analysis as a function of the label it computes. *)
Lemma analyzeEyeColor_label (canvas : Canvas) (ctx : Context2D) (st : State) :
  let label := eyeLabel canvas ctx st.(lastFaceDetection) in
  V2.analyzeEyeColor canvas ctx st
  = if differs label st.(eyeColor)
    then V2.addObservation "AI" ("Eye color detected: " ++ label)%string
           (set_eyeColor (Some label) st)
    else st.
Proof.
  unfold V2.analyzeEyeColor, eyeLabel, eyeRegion.
  destruct (lastFaceDetection st); reflexivity.
Qed.

Lemma analyzeHairColor_label (canvas : Canvas) (ctx : Context2D) (st : State) :
  let label := hairLabel canvas ctx st.(lastFaceDetection) in
  V2.analyzeHairColor canvas ctx st
  = if differs label st.(hairColor)
    then V2.addObservation "AI" ("Hair color detected: " ++ label)%string
           (set_hairColor (Some label) st)
    else st.
Proof.
  unfold V2.analyzeHairColor, hairLabel, hairRegion.
  destruct (lastFaceDetection st); reflexivity.
Qed.

Lemma classifyBackgroundColor_name (color : Color.t) :
  V2.classifyBackgroundColor color
  = backgroundColorName (V2.rgbToHsl color.(Color.r) color.(Color.g) color.(Color.b)).
Proof.
  unfold V2.classifyBackgroundColor, backgroundColorName.
  destruct (V2.rgbToHsl _ _ _) as [h s l]. cbn [HSL.h HSL.s HSL.l first_match].
  destruct (s <? Fin 0.1); cbn [andb].
  - destruct (l <? Fin 0.3); [reflexivity|]. destruct (l >? Fin 0.7); reflexivity.
  - reflexivity.
Qed.

Lemma analyzeBackground_label (canvas : Canvas) (ctx : Context2D) (st : State) :
  let label := backgroundLabel canvas ctx in
  V2.analyzeBackground canvas ctx st
  = if differs label st.(backgroundColor)
    then V2.addObservation "AI" ("Environment: " ++ label)%string
           (set_backgroundColor (Some label) st)
    else st.
Proof.
  cbv zeta. unfold V2.analyzeBackground, backgroundLabel, backgroundLabelOf.
  fold (backgroundData canvas ctx).
  rewrite classifyBackgroundColor_name. reflexivity.
Qed.

Lemma processFaceDetection_label (detection : Detection) (st : State) :
  let label := detectedGaze detection in
  V2.processFaceDetection detection st
  = set_gazeDirection label
      (if differs label (Some st.(gazeDirection))
       then V2.addObservation "GAZE" ("Subject looking " ++ label)%string st
       else st).
Proof.
  cbv zeta. unfold V2.processFaceDetection.
  pose proof (estimateGaze_direction
                (V2.getCenterPoint detection.(landmarks).(getLeftEye))
                (V2.getCenterPoint detection.(landmarks).(getRightEye))
                (V2.getCenterPoint detection.(landmarks).(getNose))
                detection.(box) st) as Hfst.
  fold (detectedGaze detection) in Hfst.
  destruct (V2.estimateGaze _ _ _ _ st) as [direction st'] eqn:E.
  cbn [fst] in Hfst. subst direction.
  unfold V2.estimateGaze in E. injection E as _ <-.
  reflexivity.
Qed.

End Reporting.

Section ReportingClaims.

Local Open Scope list_scope.

(** What a call of each analysis adds to the log and leaves as the stored
    label. *)
Lemma analyzeEyeColor_step (canvas : Canvas) (ctx : Context2D) (st : State) :
  let label := eyeLabel canvas ctx st.(lastFaceDetection) in
  let st' := V2.analyzeEyeColor canvas ctx st in
  st'.(observations)
  = st.(observations) ++ reported "AI" "Eye color detected: " label st.(eyeColor) /\
  st'.(eyeColor) = Some label /\
  st'.(lastFaceDetection) = st.(lastFaceDetection).
Proof.
  cbv zeta. rewrite analyzeEyeColor_label. unfold reported.
  destruct (differs _ (eyeColor st)) eqn:D.
  - repeat split; reflexivity.
  - rewrite app_nil_r. repeat split; try reflexivity. now apply differs_false.
Qed.

Lemma analyzeHairColor_step (canvas : Canvas) (ctx : Context2D) (st : State) :
  let label := hairLabel canvas ctx st.(lastFaceDetection) in
  let st' := V2.analyzeHairColor canvas ctx st in
  st'.(observations)
  = st.(observations) ++ reported "AI" "Hair color detected: " label st.(hairColor) /\
  st'.(hairColor) = Some label /\
  st'.(lastFaceDetection) = st.(lastFaceDetection).
Proof.
  cbv zeta. rewrite analyzeHairColor_label. unfold reported.
  destruct (differs _ (hairColor st)) eqn:D.
  - repeat split; reflexivity.
  - rewrite app_nil_r. repeat split; try reflexivity. now apply differs_false.
Qed.

Lemma analyzeBackground_step (canvas : Canvas) (ctx : Context2D) (st : State) :
  let label := backgroundLabel canvas ctx in
  let st' := V2.analyzeBackground canvas ctx st in
  st'.(observations)
  = st.(observations) ++ reported "AI" "Environment: " label st.(backgroundColor) /\
  st'.(backgroundColor) = Some label.
Proof.
  cbv zeta. rewrite analyzeBackground_label. unfold reported.
  destruct (differs _ (backgroundColor st)) eqn:D.
  - repeat split; reflexivity.
  - rewrite app_nil_r. repeat split; try reflexivity. now apply differs_false.
Qed.

Lemma processFaceDetection_step (detection : Detection) (st : State) :
  let label := detectedGaze detection in
  let st' := V2.processFaceDetection detection st in
  st'.(observations)
  = st.(observations) ++ reported "GAZE" "Subject looking " label (Some st.(gazeDirection)) /\
  st'.(gazeDirection) = label.
Proof.
  cbv zeta. rewrite processFaceDetection_label. unfold reported.
  destruct (differs _ (Some (gazeDirection st))) eqn:D.
  - split; reflexivity.
  - rewrite app_nil_r. split; reflexivity.
Qed.

(** A sequence of calls of a change-triggered step logs the reports of the
    labels the calls compute. *)
Section Sequences.

Variables (Input : Type) (step : Input -> State -> State) (label : Input -> string).
Variables (stored : State -> option string) (type prefix : string).
Variable inv : State -> Prop.

Hypothesis step_reports :
  forall input st,
    inv st ->
    (step input st).(observations)
    = st.(observations) ++ reported type prefix (label input) (stored st) /\
    stored (step input st) = Some (label input) /\
    inv (step input st).

Lemma runs_report (inputs : list Input) :
  forall st,
    inv st ->
    (runs step inputs st).(observations)
    = st.(observations) ++ reports type prefix (stored st) (map label inputs).
Proof.
  induction inputs as [|input inputs IH]; intros st Hinv; cbn [runs fold_left map reports].
  - now rewrite app_nil_r.
  - destruct (step_reports input st Hinv) as (Ho & Hs & Hinv').
    fold (runs step inputs (step input st)).
    rewrite (IH _ Hinv'), Ho, Hs, app_assoc. reflexivity.
Qed.

End Sequences.

(** C4, as the script has it.  Over any sequence of calls of a classifier
    (eye colour, hair colour and background through the colour analyses,
    gaze through [processFaceDetection]) a call adds exactly one entry when
    the label it computes differs from the stored one and none otherwise, and
    leaves the computed label stored: two calls in a row computing one label
    add one entry, at the first, when that label is new; labels that differ
    add one entry per change.  The stored eye, hair and background labels
    start as [null], so the first classification of each adds one entry.  The
    stored gaze direction starts as CENTER: a first gaze classification adds
    an entry exactly when its direction is not CENTER. *)
Theorem change_triggered_reporting :
  (forall canvas ctxs st,
      (runs (V2.analyzeEyeColor canvas) ctxs st).(observations)
      = st.(observations)
        ++ reports "AI" "Eye color detected: " st.(eyeColor)
             (map (fun ctx => eyeLabel canvas ctx st.(lastFaceDetection)) ctxs)) /\
  (forall canvas ctxs st,
      (runs (V2.analyzeHairColor canvas) ctxs st).(observations)
      = st.(observations)
        ++ reports "AI" "Hair color detected: " st.(hairColor)
             (map (fun ctx => hairLabel canvas ctx st.(lastFaceDetection)) ctxs)) /\
  (forall canvas ctxs st,
      (runs (V2.analyzeBackground canvas) ctxs st).(observations)
      = st.(observations)
        ++ reports "AI" "Environment: " st.(backgroundColor)
             (map (fun ctx => backgroundLabel canvas ctx) ctxs)) /\
  (forall detections st,
      (runs V2.processFaceDetection detections st).(observations)
      = st.(observations)
        ++ reports "GAZE" "Subject looking " (Some st.(gazeDirection))
             (map detectedGaze detections)) /\
  (forall canvas ctx st,
      (V2.analyzeEyeColor canvas ctx st).(eyeColor)
      = Some (eyeLabel canvas ctx st.(lastFaceDetection)) /\
      (V2.analyzeHairColor canvas ctx st).(hairColor)
      = Some (hairLabel canvas ctx st.(lastFaceDetection)) /\
      (V2.analyzeBackground canvas ctx st).(backgroundColor)
      = Some (backgroundLabel canvas ctx)) /\
  (forall detection st,
      (V2.processFaceDetection detection st).(gazeDirection) = detectedGaze detection) /\
  (forall type prefix label stored,
      let entry := {| type := type; message := (prefix ++ label)%string |} in
      (stored <> Some label -> reported type prefix label stored = [entry]) /\
      (stored = Some label -> reported type prefix label stored = []) /\
      reports type prefix None [label; label] = [entry] /\
      reports type prefix stored [label; label] = reported type prefix label stored) /\
  (forall type prefix label1 label2,
      label1 <> label2 ->
      reports type prefix None [label1; label2]
      = [ {| type := type; message := (prefix ++ label1)%string |};
          {| type := type; message := (prefix ++ label2)%string |} ]) /\
  (forall label,
      reports "GAZE" "Subject looking " (Some initial_state.(gazeDirection)) [label]
      = if String.eqb label "CENTER" then []
        else [{| type := "GAZE"; message := ("Subject looking " ++ label)%string |}]) /\
  initial_state.(eyeColor) = None /\
  initial_state.(hairColor) = None /\
  initial_state.(backgroundColor) = None /\
  initial_state.(gazeDirection) = "CENTER".
Proof.
  refine (conj _ (conj _ (conj _ (conj _ (conj _ (conj _ (conj _ (conj _ (conj _ _))))))))).
  - intros canvas ctxs st.
    apply (runs_report _ (V2.analyzeEyeColor canvas)
             (fun ctx => eyeLabel canvas ctx st.(lastFaceDetection)) eyeColor
             "AI" "Eye color detected: "
             (fun st' => st'.(lastFaceDetection) = st.(lastFaceDetection)));
      [|reflexivity].
    intros ctx st' Hinv.
    destruct (analyzeEyeColor_step canvas ctx st') as (Ho & Hs & Hd).
    rewrite Hinv in Ho, Hs. rewrite Hd. auto.
  - intros canvas ctxs st.
    apply (runs_report _ (V2.analyzeHairColor canvas)
             (fun ctx => hairLabel canvas ctx st.(lastFaceDetection)) hairColor
             "AI" "Hair color detected: "
             (fun st' => st'.(lastFaceDetection) = st.(lastFaceDetection)));
      [|reflexivity].
    intros ctx st' Hinv.
    destruct (analyzeHairColor_step canvas ctx st') as (Ho & Hs & Hd).
    rewrite Hinv in Ho, Hs. rewrite Hd. auto.
  - intros canvas ctxs st.
    apply (runs_report _ (V2.analyzeBackground canvas)
             (fun ctx => backgroundLabel canvas ctx) backgroundColor
             "AI" "Environment: " (fun _ => True)); [|exact I].
    intros ctx st' _.
    destruct (analyzeBackground_step canvas ctx st') as (Ho & Hs). auto.
  - intros detections st.
    apply (runs_report _ V2.processFaceDetection detectedGaze
             (fun st' => Some st'.(gazeDirection))
             "GAZE" "Subject looking " (fun _ => True)); [|exact I].
    intros detection st' _.
    destruct (processFaceDetection_step detection st') as (Ho & Hs).
    rewrite Hs. auto.
  - intros canvas ctx st. split; [|split].
    + apply analyzeEyeColor_step.
    + apply analyzeHairColor_step.
    + apply analyzeBackground_step.
  - intros detection st. apply processFaceDetection_step.
  - intros type prefix label stored entry. cbn [reports].
    rewrite reported_same, !app_nil_r. unfold reported.
    split; [|split; [|split; reflexivity]].
    + intros Hne. destruct (differs label stored) eqn:D; [reflexivity|].
      apply differs_false in D. contradiction.
    + intros ->. now rewrite differs_same.
  - intros type prefix label1 label2 Hne. cbn [reports app]. unfold reported.
    cbn [differs]. rewrite app_nil_r.
    destruct (String.eqb_spec label2 label1) as [E|_]; [symmetry in E; contradiction|].
    reflexivity.
  - intros label. cbn [reports initial_state gazeDirection]. unfold reported.
    cbn [differs]. rewrite app_nil_r. destruct (String.eqb label "CENTER"); reflexivity.
  - repeat split; reflexivity.
Qed.

(** Two passes over an all-black frame: the second adds no entry. *)
Lemma change_triggered_reporting_witness :
  let ctx := {| getImageData := fun _ _ _ _ => {| data := [0; 0; 0; 255]%Z |} |} in
  "DARK BROWN" <> "BROWN" /\
  reports "AI" "Eye color detected: " None ["DARK BROWN"; "BROWN"]
  = [ {| type := "AI"; message := "Eye color detected: DARK BROWN" |};
      {| type := "AI"; message := "Eye color detected: BROWN" |} ] /\
  (runs (V2.analyzeEyeColor defaultCanvas) [ctx; ctx] initial_state).(observations)
  = [ {| type := "AI"; message := "Eye color detected: DARK BROWN" |} ].
Proof.
  intros ctx.
  assert (Hne : "DARK BROWN" <> "BROWN") by discriminate.
  split; [exact Hne|]. split.
  - exact (proj1 (proj2 (proj2 (proj2 (proj2 (proj2 (proj2 (proj2
             change_triggered_reporting)))))))
             "AI" "Eye color detected: " "DARK BROWN" "BROWN" Hne).
  - rewrite (proj1 change_triggered_reporting defaultCanvas [ctx; ctx] initial_state).
    reflexivity.
Defined.

(** The claim as the specification words it fails for the gaze: the first
    classification of a centred face, and a second one, add no entry. *)
Lemma first_gaze_center_unreported :
  detectedGaze centeredDetection = "CENTER" /\
  (V2.processFaceDetection centeredDetection initial_state).(observations) = [] /\
  (V2.processFaceDetection centeredDetection
     (V2.processFaceDetection centeredDetection initial_state)).(observations) = [].
Proof. vm_compute. repeat split; reflexivity. Qed.

End ReportingClaims.

(** ** Empty regions *)

Section EmptyRegion.

Local Open Scope Q_scope.
Local Open Scope list_scope.

(** The count the loop of [getDominantColor] reaches is finite, does not
    decrease, and grows by at least one when the loop is entered. *)
Lemma loop_count (fuel : nat) :
  forall (pixels : Uint8ClampedArray) (i : nat) (r g b : num) (c : Q),
  exists r' g' b' c',
    V2.getDominantColor_loop fuel pixels i r g b (Fin c) = (r', g', b', Fin c') /\
    c <= c' /\
    ((i < List.length pixels)%nat -> (0 < fuel)%nat -> c + 1 <= c').
Proof.
  induction fuel as [|fuel IH]; intros pixels i r g b c.
  - exists r, g, b, c. split; [reflexivity|]. split; [lra|]. lia.
  - cbn [V2.getDominantColor_loop].
    destruct (i <? List.length pixels)%nat eqn:Hi.
    + cbn [add].
      destruct (IH pixels (i + 4)%nat (r + get pixels i)%js
                  (g + get pixels (i + 1))%js (b + get pixels (i + 2))%js (c + 1))
        as (r' & g' & b' & c' & E & Hle & _).
      exists r', g', b', c'. split; [exact E|]. split; lra.
    + exists r, g, b, c. split; [reflexivity|]. split; [lra|].
      apply Nat.ltb_ge in Hi. lia.
Qed.




End EmptyRegion.

(** ** The background classifier *)

Section Background.

Local Open Scope list_scope.



End Background.

(** * Further properties *)

(** ** Landmark centres and gaze *)

Section LandmarkCentres.

Local Open Scope Q_scope.

(** The sum of finite coordinates of [[lo, hi]], from a finite start. *)
Lemma sum_within (coordinate : Point.t -> num) (lo hi : Q) (points : list Point.t) :
  Forall (fun p => finite_within lo hi (coordinate p)) points ->
  forall a,
  exists s,
    fold_left (fun sum p => (sum + coordinate p)%js) points (Fin a) = Fin s /\
    a + inject_Z (Z.of_nat (List.length points)) * lo <= s /\
    s <= a + inject_Z (Z.of_nat (List.length points)) * hi.
Proof.
  induction 1 as [|p points Hp _ IH]; intros a.
  - exists a. cbn. split; [reflexivity|]. split; ring_simplify; lra.
  - cbn [fold_left]. destruct (coordinate p) as [q| | |]; cbn in Hp; try contradiction.
    cbn [add]. destruct (IH (a + q)) as (s & -> & Hlo & Hhi).
    exists s. split; [reflexivity|].
    cbn [List.length]. rewrite Nat2Z.inj_succ. unfold Z.succ.
    rewrite inject_Z_plus. change (inject_Z 1) with 1.
    split; nra.
Qed.

Lemma centre_within (coordinate : Point.t -> num) (lo hi : Q) (points : list Point.t) :
  points <> [] ->
  Forall (fun p => finite_within lo hi (coordinate p)) points ->
  finite_within lo hi
    (fold_left (fun sum p => (sum + coordinate p)%js) points (Fin 0)
     / of_Z (Z.of_nat (List.length points)))%js.
Proof.
  intros Hne Hall.
  destruct (sum_within coordinate lo hi points Hall 0) as (s & -> & Hlo & Hhi).
  assert (Hn : 0 < inject_Z (Z.of_nat (List.length points))).
  { destruct points; [contradiction|].
    change 0 with (inject_Z 0). rewrite <- Zlt_Qlt. cbn [List.length]. lia. }
  unfold of_Z. rewrite div_Fin by lra. cbn [finite_within].
  apply Qdiv_between; [exact Hn| |]; lra.
Qed.



End LandmarkCentres.

Section GazeGeometry.

Local Open Scope Q_scope.

Lemma horizontalLabel_pixels (nx cx w : Q) :
  0 < w -> horizontalLabel (Fin ((nx + - cx) / w)) = pixelHorizontal nx cx w.
Proof.
  intros Hw. unfold horizontalLabel, pixelHorizontal.
  pose proof (Qdiv_mul (nx + - cx) w Hw) as Hmul.
  revert Hmul. generalize ((nx + - cx) / w). intros t Hmul.
  destruct (ltb_Fin t (-0.05)) as [L|L]; destruct (Qlt_le_dec nx (cx - 0.05 * w)) as [P|P];
    try reflexivity; try (exfalso; nra).
  destruct (gtb_Fin t 0.05) as [G|G]; destruct (Qlt_le_dec (cx + 0.05 * w) nx) as [P'|P'];
    try reflexivity; exfalso; nra.
Qed.

Lemma verticalPrefix_pixels (ny cy h : Q) :
  0 < h -> verticalPrefix (Fin ((ny + - cy) / h)) = pixelVertical ny cy h.
Proof.
  intros Hh. unfold verticalPrefix, pixelVertical.
  pose proof (Qdiv_mul (ny + - cy) h Hh) as Hmul.
  revert Hmul. generalize ((ny + - cy) / h). intros t Hmul.
  destruct (ltb_Fin t (-0.1)) as [L|L]; destruct (Qlt_le_dec ny (cy - 0.1 * h)) as [P|P];
    try reflexivity; try (exfalso; nra).
  destruct (gtb_Fin t 0.1) as [G|G]; destruct (Qlt_le_dec (cy + 0.1 * h) ny) as [P'|P'];
    try reflexivity; exfalso; nra.
Qed.



(** The comparisons do not see the representation of a fraction. *)
Lemma ltb_num_eq (a a' b : num) : a =n= a' -> (a <? b)%js = (a' <? b)%js.
Proof.
  destruct a as [p| | |], a' as [p'| | |]; cbn [num_eq]; try contradiction;
    try reflexivity.
  intros E. destruct b as [q| | |]; try reflexivity.
  unfold ltb. now rewrite E.
Qed.

Lemma gtb_num_eq (a a' b : num) : a =n= a' -> (a >? b)%js = (a' >? b)%js.
Proof.
  destruct a as [p| | |], a' as [p'| | |]; cbn [num_eq]; try contradiction;
    try reflexivity.
  intros E. destruct b as [q| | |]; try reflexivity.
  unfold gtb, ltb. now rewrite E.
Qed.

Lemma horizontalLabel_num_eq (a a' : num) :
  a =n= a' -> horizontalLabel a = horizontalLabel a'.
Proof.
  intros E. unfold horizontalLabel.
  now rewrite (ltb_num_eq a a' _ E), (gtb_num_eq a a' _ E).
Qed.

Lemma verticalPrefix_num_eq (a a' : num) :
  a =n= a' -> verticalPrefix a = verticalPrefix a'.
Proof.
  intros E. unfold verticalPrefix.
  now rewrite (ltb_num_eq a a' _ E), (gtb_num_eq a a' _ E).
Qed.

(** A quotient does not change when both terms are scaled by a positive
    factor, also when the divisor is zero. *)
Lemma div_scaled (k p q p' q' : Q) :
  0 < k -> p' == k * p -> q' == k * q ->
  (Fin p' / Fin q')%js =n= (Fin p / Fin q)%js.
Proof.
  intros Hk Ep Eq. unfold div.
  destruct (Qeq_bool q 0) eqn:Hq.
  - apply Qeq_bool_iff in Hq.
    assert (Hq' : q' == 0) by (rewrite Eq, Hq; ring).
    apply Qeq_bool_iff in Hq'. rewrite Hq'.
    unfold sgn.
    destruct (Qcompare_spec p 0) as [H|H|H];
      destruct (Qcompare_spec p' 0) as [H'|H'|H']; try exact I; exfalso; nra.
  - apply Qeq_bool_neq in Hq.
    assert (Hq' : ~ q' == 0) by (intros H; apply Hq; nra).
    destruct (Qeq_bool q' 0) eqn:Hq''; [apply Qeq_bool_iff in Hq''; contradiction|].
    cbn [num_eq]. rewrite Ep, Eq. field. split; [exact Hq|lra].
Qed.



End GazeGeometry.

(** ** The state under detections and colour passes *)

Section StateInvariants.

Local Open Scope list_scope.

Lemma classifyEyeColor_in (color : Color.t) : In (V2.classifyEyeColor color) eyeLabels.
Proof.
  unfold V2.classifyEyeColor, eyeLabels. destruct (V2.rgbToHsl _ _ _) as [h s l].
  repeat match goal with
         | |- context [if ?c then _ else _] => destruct c
         end; cbn; tauto.
Qed.

Lemma classifyHairColor_in (color : Color.t) : In (V2.classifyHairColor color) hairLabels.
Proof.
  unfold V2.classifyHairColor, hairLabels. destruct (V2.rgbToHsl _ _ _) as [h s l].
  repeat match goal with
         | |- context [if ?c then _ else _] => destruct c
         end; cbn; tauto.
Qed.

Lemma classifyBackgroundColor_in (color : Color.t) :
  In (V2.classifyBackgroundColor color) backgroundNames.
Proof.
  unfold V2.classifyBackgroundColor, backgroundNames.
  repeat match goal with
         | |- context [if ?c then _ else _] => destruct c
         end; cbn; tauto.
Qed.

Lemma brightnessBucket_in (brightness : num) :
  In (brightnessBucket brightness) brightnessBuckets.
Proof.
  unfold brightnessBucket, brightnessBuckets. cbn [first_match].
  repeat match goal with
         | |- context [if ?c then _ else _] => destruct c
         end; cbn; tauto.
Qed.

Lemma backgroundLabel_in (canvas : Canvas) (ctx : Context2D) :
  is_backgroundLabel (backgroundLabel canvas ctx).
Proof.
  unfold backgroundLabel, backgroundLabelOf, is_backgroundLabel.
  rewrite <- classifyBackgroundColor_name.
  eexists _, _. split; [apply classifyBackgroundColor_in|].
  split; [apply brightnessBucket_in|reflexivity].
Qed.

(** What each analysis leaves alone. *)
Lemma analyzeEyeColor_frame (canvas : Canvas) (ctx : Context2D) (st : State) :
  let st' := V2.analyzeEyeColor canvas ctx st in
  st'.(hairColor) = st.(hairColor) /\ st'.(backgroundColor) = st.(backgroundColor) /\
  st'.(gazeDirection) = st.(gazeDirection) /\ st'.(webcamActive) = st.(webcamActive) /\
  st'.(lastFaceDetection) = st.(lastFaceDetection) /\
  st'.(detectionCanvas) = st.(detectionCanvas).
Proof.
  cbv zeta. rewrite analyzeEyeColor_label.
  destruct (differs _ _); repeat split; reflexivity.
Qed.

Lemma analyzeHairColor_frame (canvas : Canvas) (ctx : Context2D) (st : State) :
  let st' := V2.analyzeHairColor canvas ctx st in
  st'.(eyeColor) = st.(eyeColor) /\ st'.(backgroundColor) = st.(backgroundColor) /\
  st'.(gazeDirection) = st.(gazeDirection) /\ st'.(webcamActive) = st.(webcamActive) /\
  st'.(lastFaceDetection) = st.(lastFaceDetection) /\
  st'.(detectionCanvas) = st.(detectionCanvas).
Proof.
  cbv zeta. rewrite analyzeHairColor_label.
  destruct (differs _ _); repeat split; reflexivity.
Qed.

Lemma analyzeBackground_frame (canvas : Canvas) (ctx : Context2D) (st : State) :
  let st' := V2.analyzeBackground canvas ctx st in
  st'.(eyeColor) = st.(eyeColor) /\ st'.(hairColor) = st.(hairColor) /\
  st'.(gazeDirection) = st.(gazeDirection) /\ st'.(webcamActive) = st.(webcamActive) /\
  st'.(lastFaceDetection) = st.(lastFaceDetection) /\
  st'.(detectionCanvas) = st.(detectionCanvas).
Proof.
  cbv zeta. rewrite analyzeBackground_label.
  destruct (differs _ _); repeat split; reflexivity.
Qed.

Lemma processFaceDetection_frame (detection : Detection) (st : State) :
  let st' := V2.processFaceDetection detection st in
  st'.(eyeColor) = st.(eyeColor) /\ st'.(hairColor) = st.(hairColor) /\
  st'.(backgroundColor) = st.(backgroundColor) /\
  st'.(webcamActive) = st.(webcamActive) /\
  st'.(lastFaceDetection) = st.(lastFaceDetection) /\
  st'.(detectionCanvas) = st.(detectionCanvas).
Proof.
  cbv zeta. rewrite processFaceDetection_label.
  destruct (differs _ _); repeat split; reflexivity.
Qed.

(** A colour pass in terms of the three labels it computes. *)
Lemma analyzeColors_fields (ctx : Context2D) (st : State) (canvas : Canvas) :
  st.(webcamActive) = true -> st.(detectionCanvas) = Some canvas ->
  let st' := V2.analyzeColors ctx st in
  let eye := eyeLabel canvas ctx st.(lastFaceDetection) in
  let hair := hairLabel canvas ctx st.(lastFaceDetection) in
  let background := backgroundLabel canvas ctx in
  st'.(eyeColor) = Some eye /\ st'.(hairColor) = Some hair /\
  st'.(backgroundColor) = Some background /\
  st'.(gazeDirection) = st.(gazeDirection) /\ st'.(webcamActive) = true /\
  st'.(lastFaceDetection) = st.(lastFaceDetection) /\
  st'.(detectionCanvas) = Some canvas /\
  st'.(observations)
  = st.(observations)
    ++ reported "AI" "Eye color detected: " eye st.(eyeColor)
    ++ reported "AI" "Hair color detected: " hair st.(hairColor)
    ++ reported "AI" "Environment: " background st.(backgroundColor).
Proof.
  intros Hcam Hcanvas. cbv zeta. unfold V2.analyzeColors. rewrite Hcam, Hcanvas.
  set (st1 := V2.analyzeEyeColor canvas ctx st).
  set (st2 := V2.analyzeHairColor canvas ctx st1).
  destruct (analyzeEyeColor_step canvas ctx st) as (O1 & E1 & _).
  destruct (analyzeEyeColor_frame canvas ctx st) as (H1 & B1 & G1 & W1 & D1 & C1).
  destruct (analyzeHairColor_step canvas ctx st1) as (O2 & E2 & _).
  destruct (analyzeHairColor_frame canvas ctx st1) as (H2 & B2 & G2 & W2 & D2 & C2).
  destruct (analyzeBackground_step canvas ctx st2) as (O3 & E3).
  destruct (analyzeBackground_frame canvas ctx st2) as (H3 & B3 & G3 & W3 & D3 & C3).
  fold st1 in O1, E1, H1, B1, G1, W1, D1, C1, O2, E2, H2, B2, G2, W2, D2, C2.
  fold st2 in O2, E2, H2, B2, G2, W2, D2, C2, O3, E3, H3, B3, G3, W3, D3, C3.
  rewrite H3, B3, G3, W3, D3, C3, E3, O3.
  rewrite H2, B2, G2, W2, D2, C2, E2, O2.
  rewrite E1, G1, W1, D1, C1, O1, H1, B1, Hcam, Hcanvas, <- !app_assoc.
  repeat split; reflexivity.
Qed.

Lemma reported_entries (kind prefix label : string) (stored : option string) :
  Forall (fun entry => entry.(type) = kind) (reported kind prefix label stored) /\
  (List.length (reported kind prefix label stored) <= 1)%nat.
Proof.
  unfold reported. destruct (differs label stored); cbn; split; auto.
Qed.

Lemma handle_well_formed (st : State) (event : Event) :
  labels_well_formed st -> labels_well_formed (handle st event).
Proof.
  intros (Heye & Hhair & Hback & Hgaze). destruct event as [detection|ctx]; cbn [handle].
  - destruct (processFaceDetection_frame detection st) as (E & H & B & _).
    destruct (processFaceDetection_step detection st) as (_ & G).
    unfold labels_well_formed. rewrite E, H, B, G.
    repeat split; try assumption. apply gazeLabel_well_formed.
  - destruct (webcamActive st) eqn:Hcam; [destruct (detectionCanvas st) as [canvas|] eqn:Hcanvas|].
    + destruct (analyzeColors_fields ctx st canvas Hcam Hcanvas)
        as (E & H & B & G & _).
      unfold labels_well_formed. rewrite E, H, B, G. cbn [null_or].
      split; [apply classifyEyeColor_in|]. split; [apply classifyHairColor_in|].
      split; [apply backgroundLabel_in|assumption].
    + unfold V2.analyzeColors. rewrite Hcam, Hcanvas. repeat split; assumption.
    + unfold V2.analyzeColors. rewrite Hcam. repeat split; assumption.
Qed.

Lemma initial_state_well_formed : labels_well_formed initial_state.
Proof. unfold labels_well_formed, gazeLabels. cbn. tauto. Qed.

(** What one event adds to the history. *)
Lemma handle_history (st : State) (event : Event) :
  exists added,
    (handle st event).(observations) = st.(observations) ++ added /\
    Forall (fun entry => entry.(type) = "GAZE" \/ entry.(type) = "AI") added /\
    (List.length added <= 3)%nat.
Proof.
  destruct event as [detection|ctx]; cbn [handle].
  - destruct (processFaceDetection_step detection st) as (O & _).
    eexists. split; [exact O|].
    destruct (reported_entries "GAZE" "Subject looking " (detectedGaze detection)
                (Some (gazeDirection st))) as (T & L).
    split; [|lia]. eapply Forall_impl; [|exact T]. cbn. tauto.
  - destruct (webcamActive st) eqn:Hcam; [destruct (detectionCanvas st) as [canvas|] eqn:Hcanvas|].
    + destruct (analyzeColors_fields ctx st canvas Hcam Hcanvas)
        as (_ & _ & _ & _ & _ & _ & _ & O).
      eexists. split; [exact O|].
      destruct (reported_entries "AI" "Eye color detected: "
                  (eyeLabel canvas ctx (lastFaceDetection st)) (eyeColor st)) as (T1 & L1).
      destruct (reported_entries "AI" "Hair color detected: "
                  (hairLabel canvas ctx (lastFaceDetection st)) (hairColor st)) as (T2 & L2).
      destruct (reported_entries "AI" "Environment: "
                  (backgroundLabel canvas ctx) (backgroundColor st)) as (T3 & L3).
      split.
      * repeat (apply Forall_app; split);
          (eapply Forall_impl; [|eassumption]); cbn; tauto.
      * rewrite !length_app. lia.
    + exists []. unfold V2.analyzeColors. rewrite Hcam, Hcanvas, app_nil_r.
      repeat split; auto; cbn; lia.
    + exists []. unfold V2.analyzeColors. rewrite Hcam, app_nil_r.
      repeat split; auto; cbn; lia.
Qed.

(** X4: the stored labels stay well formed.  In every state the script
    reaches from a well-formed one by detections and colour passes, in any
    order, [state.eyeColor] is [null] or one of the eleven eye labels,
    [state.hairColor] [null] or one of the seven hair labels,
    [state.backgroundColor] [null] or a colour name, [" / "] and a brightness
    bucket, and [state.gazeDirection] one of the nine directions, so never
    the empty string.  The initial state is well formed. *)
Theorem labels_stay_well_formed (events : list Event) (st : State) :
  labels_well_formed st ->
  labels_well_formed (fold_left handle events st) /\
  (fold_left handle events st).(gazeDirection) <> "".
Proof.
  revert st. induction events as [|event events IH]; intros st Hst; cbn [fold_left].
  - split; [exact Hst|].
    destruct Hst as (_ & _ & _ & G). intros E. rewrite E in G.
    unfold gazeLabels in G. cbn in G. intuition discriminate.
  - apply IH, handle_well_formed, Hst.
Qed.

Lemma labels_stay_well_formed_witness :
  let events := [FaceDetected centeredDetection; ColorPass emptyContext] in
  labels_well_formed (fold_left handle events (cameraOn initial_state)) /\
  (fold_left handle events (cameraOn initial_state)).(gazeDirection) <> "".
Proof.
  intros events. apply (labels_stay_well_formed events (cameraOn initial_state)).
  unfold labels_well_formed, gazeLabels. cbn. tauto.
Defined.

(** X5: a colour pass is idempotent on a frame.  Running [analyzeColors]
    again on the same frame, with no detection in between, changes nothing:
    the second pass computes the labels the first has stored and logs no
    entry. *)
Theorem analyzeColors_idempotent (ctx : Context2D) (st : State) :
  V2.analyzeColors ctx (V2.analyzeColors ctx st) = V2.analyzeColors ctx st.
Proof.
  destruct (webcamActive st) eqn:Hcam; [destruct (detectionCanvas st) as [canvas|] eqn:Hcanvas|].
  - destruct (analyzeColors_fields ctx st canvas Hcam Hcanvas)
      as (E & H & B & G & W & D & C & O).
    set (st' := V2.analyzeColors ctx st) in *.
    unfold V2.analyzeColors at 1. rewrite W, C.
    rewrite analyzeEyeColor_label, E, D, differs_same.
    rewrite analyzeHairColor_label, H, D, differs_same.
    rewrite analyzeBackground_label, B, differs_same.
    reflexivity.
  - unfold V2.analyzeColors. rewrite Hcam, Hcanvas, Hcam, Hcanvas. reflexivity.
  - unfold V2.analyzeColors. rewrite Hcam, Hcam. reflexivity.
Qed.


End StateInvariants.

(** ** Colours: conversion, classification and averaging *)

Section ColourProperties.

Local Open Scope Q_scope.
Local Open Scope list_scope.

Ltac qconst := unfold Qdiv; cbn [Qinv Qnum Qden].

Lemma scaled_lt (p q : Q) : p < q <-> p / 255 < q / 255.
Proof. qconst. split; intros H; lra. Qed.

Lemma scaled_eq (p q : Q) : p == q <-> p / 255 == q / 255.
Proof. qconst. split; intros H; lra. Qed.

(** X8: the hue lies in the sector of the dominant channel.  For finite
    channels of [[0,255]], a colour whose red channel is strictly the largest
    has a hue in [[0,60)] or in [(300,360)], one whose green channel is
    strictly the largest a hue in [(60,180)], and one whose blue channel is
    strictly the largest a hue in [(180,300)]. *)
Theorem rgbToHsl_hue_sector (p q r : Q) :
  0 <= p <= 255 -> 0 <= q <= 255 -> 0 <= r <= 255 ->
  exists h s l,
    V2.rgbToHsl (Fin p) (Fin q) (Fin r) = HSL.mk (Fin h) (Fin s) (Fin l) /\
    (q < p -> r < p -> 0 <= h < 60 \/ 300 < h < 360) /\
    (p < q -> r < q -> 60 < h < 180) /\
    (p < r -> q < r -> 180 < h < 300).
Proof.
  intros Hp Hq Hr.
  destruct (rgbToHsl_Fin p q r Hp Hq Hr) as (M0 & m0 & h & s & _ & _ & E & _).
  exists h, s, ((M0 + m0) / 2). split; [exact E|].
  assert (Hsector : ~ (p == q /\ q == r) ->
            exists M m H6, h = H6 / 6 * 360 /\
              p / 255 <= M /\ q / 255 <= M /\ r / 255 <= M /\ m < M /\
              m <= p / 255 /\ m <= q / 255 /\ m <= r / 255 /\
              hue_sector_of (p / 255) (q / 255) (r / 255) M m H6).
  { intros Hc.
    destruct (rgbToHsl_chromatic p q r Hp Hq Hr Hc)
      as (M & m & H6 & s' & E' & HMR & HMG & HMB & HmR & HmG & HmB & _ & _ & Hd & _ & _ & _ & Hsec).
    rewrite E in E'. injection E' as Eh _ _.
    exists M, m, H6. repeat (split; [assumption|]). exact Hsec. }
  split; [|split].
  - intros L1 L2.
    destruct Hsector as (M & m & H6 & -> & HMR & HMG & HMB & Hd & HmR & HmG & HmB & Hsec);
      [intros [E1 _]; clear - E1 L1; lra|].
    apply scaled_lt in L1, L2. unfold hue_sector_of in Hsec.
    revert L1 L2 Hd HMR HMG HMB HmR HmG HmB Hsec.
    generalize (p / 255) (q / 255) (r / 255). clear. intros R G B L1 L2 Hd HMR HMG HMB HmR HmG HmB Hsec.
    destruct Hsec as [(A & C & N & P)|[(A & C & N & P)|[(A & A' & N & P)|(A & A' & A'' & N & P)]]].
    + left. assert (H6 < 1) by (clear - A C N P L1 L2 Hd HmR HmG HmB; nra).
      clear - H N. qconst. lra.
    + right. assert (5 < H6) by (clear - A C N P L1 L2 Hd HmR HmG HmB; nra).
      clear - H N. qconst. lra.
    + exfalso. clear - A A' L1 HMR. lra.
    + exfalso. clear - A'' L2 HMR HMB. lra.
  - intros L1 L2.
    destruct Hsector as (M & m & H6 & -> & HMR & HMG & HMB & Hd & HmR & HmG & HmB & Hsec);
      [intros [E1 _]; clear - E1 L1; lra|].
    apply scaled_lt in L1, L2. unfold hue_sector_of in Hsec.
    revert L1 L2 Hd HMR HMG HMB HmR HmG HmB Hsec.
    generalize (p / 255) (q / 255) (r / 255). clear. intros R G B L1 L2 Hd HMR HMG HMB HmR HmG HmB Hsec.
    destruct Hsec as [(A & C & N & P)|[(A & C & N & P)|[(A & A' & N & P)|(A & A' & A'' & N & P)]]].
    + exfalso. clear - A L1 HMG. lra.
    + exfalso. clear - A L1 HMG. lra.
    + assert (H6 < 3) by (clear - A A' N P L1 L2 Hd HmR HmG HmB; nra).
      clear - H N. qconst. lra.
    + exfalso. clear - A'' L2 HMG. lra.
  - intros L1 L2.
    destruct Hsector as (M & m & H6 & -> & HMR & HMG & HMB & Hd & HmR & HmG & HmB & Hsec);
      [intros [E1 E2]; clear - E1 E2 L1; lra|].
    apply scaled_lt in L1, L2. unfold hue_sector_of in Hsec.
    revert L1 L2 Hd HMR HMG HMB HmR HmG HmB Hsec.
    generalize (p / 255) (q / 255) (r / 255). clear. intros R G B L1 L2 Hd HMR HMG HMB HmR HmG HmB Hsec.
    destruct Hsec as [(A & C & N & P)|[(A & C & N & P)|[(A & A' & N & P)|(A & A' & A'' & N & P)]]].
    + exfalso. clear - A L1 HMB. lra.
    + exfalso. clear - A L1 HMB. lra.
    + exfalso. clear - A' L2 HMB. lra.
    + clear - N. qconst. lra.
Qed.

Lemma rgbToHsl_hue_sector_witness :
  exists h s l,
    V2.rgbToHsl (Fin 10) (Fin 200) (Fin 255) = HSL.mk (Fin h) (Fin s) (Fin l) /\
    180 < h < 300.
Proof.
  destruct (rgbToHsl_hue_sector 10 200 255) as (h & s & l & E & _ & _ & Hblue); try lra.
  exists h, s, l. split; [exact E|]. apply Hblue; lra.
Defined.

(** The conversion of a gray, whatever its level. *)
Lemma rgbToHsl_gray (q : Q) :
  exists h s l,
    V2.rgbToHsl (Fin q) (Fin q) (Fin q) = HSL.mk (Fin h) (Fin s) (Fin l) /\
    h == 0 /\ s == 0 /\ l == q / 255.
Proof.
  unfold V2.rgbToHsl. rewrite !(div_Fin _ 255) by lra.
  set (a := q / 255).
  assert (Emax : max3 (Fin a) (Fin a) (Fin a) = Fin a).
  { unfold max3, max2. destruct (ltb_Fin a a); [lra|].
    destruct (ltb_Fin a a); [lra|reflexivity]. }
  assert (Emin : min3 (Fin a) (Fin a) (Fin a) = Fin a).
  { unfold min3, min2. destruct (ltb_Fin a a); [lra|].
    destruct (ltb_Fin a a); [lra|reflexivity]. }
  rewrite Emax, Emin. destruct (eqb_Fin a a) as [_|N]; [|exfalso; apply N; reflexivity].
  cbn [add mul]. rewrite (div_Fin _ 2) by lra.
  do 3 eexists. split; [reflexivity|]. repeat split; try reflexivity.
  qconst. ring.
Qed.

(** X9: what the saturation and the lightness say of a colour.  For finite
    channels of [[0,255]] the saturation is 0 exactly for the grays
    ([r = g = b]), the lightness is 0 exactly for black and 1 exactly for
    white. *)
Theorem rgbToHsl_achromatic (p q r : Q) :
  0 <= p <= 255 -> 0 <= q <= 255 -> 0 <= r <= 255 ->
  exists h s l,
    V2.rgbToHsl (Fin p) (Fin q) (Fin r) = HSL.mk (Fin h) (Fin s) (Fin l) /\
    (s == 0 <-> p == q /\ q == r) /\
    (l == 0 <-> p == 0 /\ q == 0 /\ r == 0) /\
    (l == 1 <-> p == 255 /\ q == 255 /\ r == 255).
Proof.
  intros Hp Hq Hr.
  destruct (Qeq_dec p q) as [Epq|Npq]; [destruct (Qeq_dec q r) as [Eqr|Nqr]|].
  - destruct (rgbToHsl_Fin p q r Hp Hq Hr) as (M & m & h & s & EM & Em & E & _ & _ & _ & Hgray).
    destruct (max3_Fin (p / 255) (q / 255) (r / 255)) as (M' & EM' & HM & HMR & HMG & HMB).
    destruct (min3_Fin (p / 255) (q / 255) (r / 255)) as (m' & Em' & Hm & HmR & HmG & HmB).
    rewrite EM in EM'. rewrite Em in Em'. injection EM' as <-. injection Em' as <-.
    apply scaled_eq in Epq, Eqr.
    assert (HMp : M == p / 255) by (clear - HMR HMG HMB HM Epq Eqr; destruct HM as [->|[->| ->]]; lra).
    assert (Hmp : m == p / 255) by (clear - HmR HmG HmB Hm Epq Eqr; destruct Hm as [->|[->| ->]]; lra).
    destruct Hgray as (_ & Hs); [rewrite HMp, Hmp; reflexivity|].
    apply scaled_eq in Epq, Eqr.
    exists h, s, ((M + m) / 2). split; [exact E|].
    assert (El : (M + m) / 2 == p / 255) by (rewrite HMp, Hmp; qconst; ring).
    split; [|split].
    + split; [intros _; split; assumption|intros _; exact Hs].
    + rewrite El. clear - Epq Eqr. qconst. split; [intros H; repeat split; lra|intros (H & _); lra].
    + rewrite El. clear - Epq Eqr. qconst. split; [intros H; repeat split; lra|intros (H & _); lra].
  - assert (Hc : ~ (p == q /\ q == r)) by tauto.
    destruct (rgbToHsl_chromatic p q r Hp Hq Hr Hc)
      as (M & m & H6 & s & E & HMR & HMG & HMB & HmR & HmG & HmB & _ & Hm0 & Hd & HM1 & Hs & _).
    do 3 eexists. split; [exact E|].
    split; [|split].
    + split; [intros H; exfalso; clear - H Hs; lra|intros H; contradiction].
    + split; [qconst; intros H; exfalso; clear - H Hm0 Hd; lra
             |intros (H1 & H2 & H3); exfalso; apply Nqr; rewrite H2, H3; reflexivity].
    + split; [qconst; intros H; exfalso; clear - H HM1 Hd; lra
             |intros (H1 & H2 & H3); exfalso; apply Nqr; rewrite H2, H3; reflexivity].
  - assert (Hc : ~ (p == q /\ q == r)) by tauto.
    destruct (rgbToHsl_chromatic p q r Hp Hq Hr Hc)
      as (M & m & H6 & s & E & HMR & HMG & HMB & HmR & HmG & HmB & _ & Hm0 & Hd & HM1 & Hs & _).
    do 3 eexists. split; [exact E|].
    split; [|split].
    + split; [intros H; exfalso; clear - H Hs; lra|intros H; contradiction].
    + split; [qconst; intros H; exfalso; clear - H Hm0 Hd; lra
             |intros (H1 & H2 & H3); exfalso; apply Npq; rewrite H1, H2; reflexivity].
    + split; [qconst; intros H; exfalso; clear - H HM1 Hd; lra
             |intros (H1 & H2 & H3); exfalso; apply Npq; rewrite H1, H2; reflexivity].
Qed.

Lemma rgbToHsl_achromatic_witness :
  exists h s l,
    V2.rgbToHsl (Fin 128) (Fin 128) (Fin 128) = HSL.mk (Fin h) (Fin s) (Fin l) /\ s == 0.
Proof.
  destruct (rgbToHsl_achromatic 128 128 128) as (h & s & l & E & Hs & _); try lra.
  exists h, s, l. split; [exact E|]. apply Hs. split; reflexivity.
Defined.

Lemma geb_Fin (p q : Q) : reflect (q <= p) (Fin p >=? Fin q)%js.
Proof.
  unfold geb, leb. destruct (ltb_Fin q p); destruct (eqb_Fin q p); constructor; lra.
Qed.

Lemma leb_Fin (p q : Q) : reflect (p <= q) (Fin p <=? Fin q)%js.
Proof. apply geb_Fin. Qed.

Lemma below_spec (q t : Q) : reflect (q < t) (below q t).
Proof. unfold below. destruct (Qlt_le_dec q t); constructor; lra. Qed.

(** Decides every comparison of finite numbers in the goal. *)
Ltac compare_finite :=
  repeat match goal with
         | |- context [(Fin ?a <? Fin ?b)%js] => destruct (ltb_Fin a b)
         | |- context [(Fin ?a >? Fin ?b)%js] => destruct (gtb_Fin a b)
         | |- context [(Fin ?a >=? Fin ?b)%js] => destruct (geb_Fin a b)
         | |- context [(Fin ?a <=? Fin ?b)%js] => destruct (leb_Fin a b)
         | |- context [below ?a ?b] => destruct (below_spec a b)
         end.

(** X10: the labels of the grays.  A gray of level [q] ([r = g = b = q],
    any finite [q]) is classified by its level alone and never gets the name
    of a hue: an eye is DARK BROWN under 51, DARK GRAY under 102 and GRAY from
    there; hair is BLACK under 38.25, DARK BROWN under 63.75, BROWN under 102,
    LIGHT BROWN up to 153, BLONDE up to 178.5 and GRAY/WHITE above; a
    background is DARK under 76.5, LIGHT above 178.5 and NEUTRAL between, and
    its brightness bucket changes at 50, 100 and 180. *)
Theorem gray_labels (q : Q) :
  V2.classifyEyeColor (gray q)
  = first_match [ (below q 51, "DARK BROWN"); (below q 102, "DARK GRAY") ] "GRAY" /\
  V2.classifyHairColor (gray q)
  = first_match [ (below q 38.25, "BLACK"); (below q 63.75, "DARK BROWN");
                  (below 178.5 q, "GRAY/WHITE"); (below 153 q, "BLONDE");
                  (below q 102, "BROWN") ] "LIGHT BROWN" /\
  backgroundLabelOf (gray q)
  = (first_match [ (below q 76.5, "DARK"); (below 178.5 q, "LIGHT") ] "NEUTRAL"
     ++ " / "
     ++ first_match [ (below q 50, "DARK ENVIRONMENT"); (below q 100, "DIM LIGHTING");
                      (below q 180, "NORMAL LIGHTING") ] "BRIGHT ENVIRONMENT")%string.
Proof.
  destruct (rgbToHsl_gray q) as (h & s & l & E & Hh & Hs & Hl).
  revert Hl. qconst. intros Hl.
  split; [|split].
  - unfold V2.classifyEyeColor, gray. cbn [Color.r Color.g Color.b]. rewrite E.
    cbn [first_match]. compare_finite; first [reflexivity | exfalso; lra].
  - unfold V2.classifyHairColor, gray. cbn [Color.r Color.g Color.b]. rewrite E.
    cbn [first_match]. compare_finite; cbn [andb]; first [reflexivity | exfalso; lra].
  - unfold backgroundLabelOf, backgroundColorName, brightnessBucket, channelMean, gray.
    cbn [Color.r Color.g Color.b]. rewrite E.
    cbn [add]. rewrite (div_Fin _ 3) by lra.
    assert (Em : (q + q + q) / 3 == q) by (qconst; ring).
    revert Em. generalize ((q + q + q) / 3). intros m Em.
    cbn [first_match]. compare_finite; cbn [andb]; first [reflexivity | exfalso; lra].
Qed.

Lemma total_bounds (channel : Pixel -> Z) (px : list Pixel) :
  Forall (fun p => (0 <= channel p <= 255)%Z) px ->
  (0 <= total channel px <= 255 * Z.of_nat (List.length px))%Z.
Proof.
  induction 1 as [|p px Hp _ IH]; [cbn; lia|].
  cbn [total fold_right List.length]. fold (total channel px). lia.
Qed.

Lemma mean_bounds (channel : Pixel -> Z) (px : list Pixel) :
  px <> [] -> Forall (fun p => (0 <= channel p <= 255)%Z) px ->
  0 <= mean channel px <= 255.
Proof.
  intros Hne H. pose proof (total_bounds channel px H) as [H0 H1].
  pose proof (pixel_count_positive px Hne) as Hpos.
  rewrite Zle_Qle in H0, H1. rewrite inject_Z_mult in H1.
  change (inject_Z 0) with 0 in H0. change (inject_Z 255) with 255 in H1.
  unfold mean. apply Qdiv_between; [exact Hpos|lra|lra].
Qed.

Lemma nearest_byte (q : Q) (z : Z) : 0 <= q <= 255 -> nearest q z -> (0 <= z <= 255)%Z.
Proof.
  unfold nearest. intros Hq [Hlo Hhi].
  assert (H1 : inject_Z (-1) < inject_Z z) by (change (inject_Z (-1)) with (-1); lra).
  assert (H2 : inject_Z z < inject_Z 256) by (change (inject_Z 256) with 256; lra).
  rewrite <- Zlt_Qlt in H1, H2. lia.
Qed.

(** X11: the average of a region of bytes is a colour the converter
    accepts.  On the buffer of a non-empty list of pixels whose channels are
    bytes, [getDominantColor] returns three integers of [[0,255]], and
    [rgbToHsl] of them is a finite hue in [[0,360)], a finite saturation in
    [[0,1]] and a finite lightness in [[0,1]]: the classifiers never see a
    value that is not a number for a region that is not empty. *)
Theorem averaged_colour_converts (px : list Pixel) :
  px <> [] -> bytes px ->
  exists R G B : Z,
    V2.getDominantColor (interleave px) = Color.mk (of_Z R) (of_Z G) (of_Z B) /\
    (0 <= R <= 255)%Z /\ (0 <= G <= 255)%Z /\ (0 <= B <= 255)%Z /\
    exists h s l,
      V2.rgbToHsl (of_Z R) (of_Z G) (of_Z B) = HSL.mk (Fin h) (Fin s) (Fin l) /\
      0 <= h < 360 /\ 0 <= s <= 1 /\ 0 <= l <= 1.
Proof.
  intros Hne Hbytes.
  destruct (getDominantColor_interleave px Hne) as (R & G & B & E & Nr & Ng & Nb).
  assert (Hr : Forall (fun p => (0 <= red p <= 255)%Z) px)
    by (eapply Forall_impl; [|exact Hbytes]; cbn; tauto).
  assert (Hg : Forall (fun p => (0 <= green p <= 255)%Z) px)
    by (eapply Forall_impl; [|exact Hbytes]; cbn; tauto).
  assert (Hb : Forall (fun p => (0 <= blue p <= 255)%Z) px)
    by (eapply Forall_impl; [|exact Hbytes]; cbn; tauto).
  pose proof (nearest_byte _ _ (mean_bounds red px Hne Hr) Nr) as HR.
  pose proof (nearest_byte _ _ (mean_bounds green px Hne Hg) Ng) as HG.
  pose proof (nearest_byte _ _ (mean_bounds blue px Hne Hb) Nb) as HB.
  exists R, G, B. do 4 (split; [assumption|]).
  destruct (rgbToHsl_Fin (inject_Z R) (inject_Z G) (inject_Z B))
    as (M & m & h & s & _ & _ & E' & Hh & Hs & Hl & _);
    try (apply channel_range; assumption).
  exists h, s, ((M + m) / 2). unfold of_Z. repeat split; try assumption;
    try apply Hh; try apply Hs; apply Hl.
Qed.

Lemma averaged_colour_converts_witness :
  let px : list Pixel := [(10, 20, 30, 255); (11, 21, 30, 0)]%Z in
  exists R G B : Z,
    V2.getDominantColor (interleave px) = Color.mk (of_Z R) (of_Z G) (of_Z B) /\
    (0 <= R <= 255)%Z /\ (0 <= G <= 255)%Z /\ (0 <= B <= 255)%Z.
Proof.
  intros px.
  destruct (averaged_colour_converts px) as (R & G & B & E & HR & HG & HB & _).
  - discriminate.
  - unfold bytes, px. repeat constructor; cbn; lia.
  - exists R, G, B. repeat split; try assumption; lia.
Defined.

Lemma total_permutation (channel : Pixel -> Z) (px px' : list Pixel) :
  Permutation px px' -> total channel px = total channel px'.
Proof.
  induction 1 as [|p px px' _ IH|p p' px|px px' px'' _ IH1 _ IH2].
  - reflexivity.
  - cbn [total fold_right]. fold (total channel px) (total channel px'). lia.
  - cbn [total fold_right]. lia.
  - congruence.
Qed.

Lemma mean_permutation (channel : Pixel -> Z) (px px' : list Pixel) :
  Permutation px px' -> mean channel px == mean channel px'.
Proof.
  intros H. unfold mean.
  rewrite (total_permutation channel px px' H), (Permutation_length H). reflexivity.
Qed.

(** X12: the average does not depend on the order of the pixels.  Two
    buffers holding the same pixels in a different order have the same
    average, the empty buffer included. *)
Theorem getDominantColor_permutation (px px' : list Pixel) :
  Permutation px px' ->
  V2.getDominantColor (interleave px) = V2.getDominantColor (interleave px').
Proof.
  intros H. destruct px as [|p px].
  - apply Permutation_nil in H. subst px'. reflexivity.
  - assert (Hne : p :: px <> []) by discriminate.
    assert (Hne' : px' <> []).
    { intros ->. apply Permutation_sym, Permutation_nil in H. discriminate H. }
    destruct (getDominantColor_interleave _ Hne) as (R & G & B & -> & Nr & Ng & Nb).
    destruct (getDominantColor_interleave _ Hne') as (R' & G' & B' & -> & Nr' & Ng' & Nb').
    rewrite (nearest_unique _ _ _ _ (mean_permutation red _ _ H) Nr Nr').
    rewrite (nearest_unique _ _ _ _ (mean_permutation green _ _ H) Ng Ng').
    rewrite (nearest_unique _ _ _ _ (mean_permutation blue _ _ H) Nb Nb').
    reflexivity.
Qed.

Lemma getDominantColor_permutation_witness :
  V2.getDominantColor (interleave [(10, 20, 30, 255); (200, 100, 0, 255)]%Z)
  = V2.getDominantColor (interleave [(200, 100, 0, 255); (10, 20, 30, 255)]%Z).
Proof.
  apply (getDominantColor_permutation
           [(10, 20, 30, 255); (200, 100, 0, 255)]%Z [(200, 100, 0, 255); (10, 20, 30, 255)]%Z).
  apply perm_swap.
Defined.

(** *** The hue under a change of brightness and contrast *)

Lemma affine_le (k t x y x' y' : Q) :
  0 < k -> x' == k * x + t -> y' == k * y + t -> (x' <= y' <-> x <= y).
Proof.
  intros Hk Ex Ey. rewrite Ex, Ey. split; intros H.
  - apply (Qmult_le_l x y k Hk). lra.
  - apply (Qmult_le_l x y k Hk) in H. lra.
Qed.

Lemma affine_max (k t R G B M R' G' B' M' : Q) :
  0 < k -> R' == k * R + t -> G' == k * G + t -> B' == k * B + t ->
  R <= M -> G <= M -> B <= M -> (M == R \/ M == G \/ M == B) ->
  R' <= M' -> G' <= M' -> B' <= M' -> (M' == R' \/ M' == G' \/ M' == B') ->
  M' == k * M + t.
Proof.
  intros Hk ER EG EB HR HG HB HM HR' HG' HB' HM'.
  pose proof (affine_le k t R G R' G' Hk ER EG) as RG.
  pose proof (affine_le k t G R G' R' Hk EG ER) as GR.
  pose proof (affine_le k t R B R' B' Hk ER EB) as RB.
  pose proof (affine_le k t B R B' R' Hk EB ER) as BR.
  pose proof (affine_le k t G B G' B' Hk EG EB) as GB.
  pose proof (affine_le k t B G B' G' Hk EB EG) as BG.
  destruct HM as [HM|[HM|HM]]; destruct HM' as [HM'|[HM'|HM']];
    rewrite HM in *; rewrite HM' in *;
    first [ exact ER | exact EG | exact EB
          | rewrite ER; rewrite <- EG; lra | rewrite ER; rewrite <- EB; lra
          | rewrite EG; rewrite <- ER; lra | rewrite EG; rewrite <- EB; lra
          | rewrite EB; rewrite <- ER; lra | rewrite EB; rewrite <- EG; lra ].
Qed.

Lemma affine_min (k t R G B m R' G' B' m' : Q) :
  0 < k -> R' == k * R + t -> G' == k * G + t -> B' == k * B + t ->
  m <= R -> m <= G -> m <= B -> (m == R \/ m == G \/ m == B) ->
  m' <= R' -> m' <= G' -> m' <= B' -> (m' == R' \/ m' == G' \/ m' == B') ->
  m' == k * m + t.
Proof.
  intros Hk ER EG EB HR HG HB Hm HR' HG' HB' Hm'.
  pose proof (affine_le k t R G R' G' Hk ER EG) as RG.
  pose proof (affine_le k t G R G' R' Hk EG ER) as GR.
  pose proof (affine_le k t R B R' B' Hk ER EB) as RB.
  pose proof (affine_le k t B R B' R' Hk EB ER) as BR.
  pose proof (affine_le k t G B G' B' Hk EG EB) as GB.
  pose proof (affine_le k t B G B' G' Hk EB EG) as BG.
  destruct Hm as [Hm|[Hm|Hm]]; destruct Hm' as [Hm'|[Hm'|Hm']];
    rewrite Hm in *; rewrite Hm' in *;
    first [ exact ER | exact EG | exact EB
          | rewrite ER; rewrite <- EG; lra | rewrite ER; rewrite <- EB; lra
          | rewrite EG; rewrite <- ER; lra | rewrite EG; rewrite <- EB; lra
          | rewrite EB; rewrite <- ER; lra | rewrite EB; rewrite <- EG; lra ].
Qed.

(** The place of the hue in its sector is a quotient of differences of
    channels, which a positive scaling and a shift of the three channels
    leave unchanged. *)
Lemma hue_sector_affine (k t R G B M m H R' G' B' M' m' H' : Q) :
  0 < k -> R' == k * R + t -> G' == k * G + t -> B' == k * B + t ->
  M' == k * M + t -> m' == k * m + t -> m < M ->
  hue_sector_of R G B M m H -> hue_sector_of R' G' B' M' m' H' -> H == H'.
Proof.
  intros Hk ER EG EB EM Em Hd S S'.
  pose proof (affine_le k t R M R' M' Hk ER EM) as RM.
  pose proof (affine_le k t M R M' R' Hk EM ER) as MR.
  pose proof (affine_le k t G M G' M' Hk EG EM) as GM.
  pose proof (affine_le k t M G M' G' Hk EM EG) as MG.
  pose proof (affine_le k t B M B' M' Hk EB EM) as BM.
  pose proof (affine_le k t M B M' B' Hk EM EB) as MB.
  pose proof (affine_le k t G B G' B' Hk EG EB) as GB.
  pose proof (affine_le k t B G B' G' Hk EB EG) as BG.
  assert (Hkd : 0 < k * (M + - m)) by (apply Qmult_lt_0_compat; lra).
  assert (Ed : M' + - m' == k * (M + - m)) by (rewrite EM, Em; ring).
  assert (EGB : G' + - B' == k * (G + - B)) by (rewrite EG, EB; ring).
  assert (EBR : B' + - R' == k * (B + - R)) by (rewrite EB, ER; ring).
  assert (ERG : R' + - G' == k * (R + - G)) by (rewrite ER, EG; ring).
  assert (Hinj : forall c x y, x * (M + - m) == c -> y * (M' + - m') == k * c -> x == y).
  { intros c x y Hx Hy. rewrite Ed, <- Hx in Hy.
    apply (Qmult_inj_r x y (k * (M + - m))); [lra|]. rewrite Hy. ring. }
  unfold hue_sector_of in S, S'.
  destruct S as [(A & C & N & P)|[(A & C & N & P)|[(A & A' & N & P)|(A & A' & A'' & N & P)]]];
    destruct S' as [(D & E & N' & P')|[(D & E & N' & P')|[(D & D' & N' & P')
                   |(D & D' & D'' & N' & P')]]];
    try (exfalso; clear - A C D E RM MR GM MG BM MB GB BG; lra);
    try (exfalso; clear - A A' D D' RM MR GM MG BM MB GB BG; lra);
    try (exfalso; clear - A D D' RM MR GM MG BM MB GB BG; lra);
    try (exfalso; clear - A A' D RM MR GM MG BM MB GB BG; lra);
    try (exfalso; clear - A A' A'' D D' RM MR GM MG BM MB GB BG; lra);
    try (exfalso; clear - A A' D D' D'' RM MR GM MG BM MB GB BG; lra);
    try (exfalso; clear - A D D' D'' RM MR GM MG BM MB GB BG; lra);
    try (exfalso; clear - A A' A'' D RM MR GM MG BM MB GB BG; lra).
  - apply (Hinj (G + - B)); [exact P|rewrite P', EGB; reflexivity].
  - assert (E6 : H - 6 == H' - 6); [|clear - E6; lra].
    apply (Hinj (G + - B)); [exact P|rewrite P', EGB; reflexivity].
  - assert (E6 : H - 2 == H' - 2); [|clear - E6; lra].
    apply (Hinj (B + - R)); [exact P|rewrite P', EBR; reflexivity].
  - assert (E6 : H - 4 == H' - 4); [|clear - E6; lra].
    apply (Hinj (R + - G)); [exact P|rewrite P', ERG; reflexivity].
Qed.



(** *** Saturation and lightness are symmetric in the channels *)

Lemma channel_upper (p q r x M : Q) :
  In x [p; q; r] -> p / 255 <= M -> q / 255 <= M -> r / 255 <= M -> x / 255 <= M.
Proof. intros [<-|[<-|[<-|[]]]]; auto. Qed.

Lemma channel_lower (p q r x m : Q) :
  In x [p; q; r] -> m <= p / 255 -> m <= q / 255 -> m <= r / 255 -> m <= x / 255.
Proof. intros [<-|[<-|[<-|[]]]]; auto. Qed.

Lemma channel_in_range (p q r x : Q) :
  In x [p; q; r] -> 0 <= p <= 255 -> 0 <= q <= 255 -> 0 <= r <= 255 -> 0 <= x <= 255.
Proof. intros [<-|[<-|[<-|[]]]]; auto. Qed.

(** The maximum and the minimum the converter computes are those of the
    three channels, in any order. *)
Lemma extremes_symmetric (p q r p' q' r' M m M' m' : Q) :
  Permutation [p; q; r] [p'; q'; r'] ->
  p / 255 <= M -> q / 255 <= M -> r / 255 <= M ->
  (M == p / 255 \/ M == q / 255 \/ M == r / 255) ->
  m <= p / 255 -> m <= q / 255 -> m <= r / 255 ->
  (m == p / 255 \/ m == q / 255 \/ m == r / 255) ->
  p' / 255 <= M' -> q' / 255 <= M' -> r' / 255 <= M' ->
  (M' == p' / 255 \/ M' == q' / 255 \/ M' == r' / 255) ->
  m' <= p' / 255 -> m' <= q' / 255 -> m' <= r' / 255 ->
  (m' == p' / 255 \/ m' == q' / 255 \/ m' == r' / 255) ->
  M == M' /\ m == m'.
Proof.
  intros Hperm HMR HMG HMB HM HmR HmG HmB Hm HMR' HMG' HMB' HM' HmR' HmG' HmB' Hm'.
  assert (In1 : forall x, In x [p'; q'; r'] -> In x [p; q; r])
    by (intros x; apply Permutation_in, Permutation_sym, Hperm).
  assert (In2 : forall x, In x [p; q; r] -> In x [p'; q'; r'])
    by (intros x; apply Permutation_in, Hperm).
  assert (L1 : M' <= M).
  { destruct HM' as [E|[E|E]]; rewrite E;
      apply (channel_upper p q r); try assumption; apply In1; cbn; tauto. }
  assert (L2 : M <= M').
  { destruct HM as [E|[E|E]]; rewrite E;
      apply (channel_upper p' q' r'); try assumption; apply In2; cbn; tauto. }
  assert (L3 : m <= m').
  { destruct Hm' as [E|[E|E]]; rewrite E;
      apply (channel_lower p q r); try assumption; apply In1; cbn; tauto. }
  assert (L4 : m' <= m).
  { destruct Hm as [E|[E|E]]; rewrite E;
      apply (channel_lower p' q' r'); try assumption; apply In2; cbn; tauto. }
  split; lra.
Qed.

(** X30: saturation and lightness do not depend on the order of the
    channels.  For finite channels of [[0,255]], exchanging the values of the
    red, green and blue channels in any way changes neither the saturation
    nor the lightness [rgbToHsl] returns; only the hue tells the channels
    apart. *)
Theorem rgbToHsl_symmetric (p q r p' q' r' : Q) :
  0 <= p <= 255 -> 0 <= q <= 255 -> 0 <= r <= 255 ->
  Permutation [p; q; r] [p'; q'; r'] ->
  (HSL.s (V2.rgbToHsl (Fin p') (Fin q') (Fin r'))
   =n= HSL.s (V2.rgbToHsl (Fin p) (Fin q) (Fin r)))%js /\
  (HSL.l (V2.rgbToHsl (Fin p') (Fin q') (Fin r'))
   =n= HSL.l (V2.rgbToHsl (Fin p) (Fin q) (Fin r)))%js.
Proof.
  intros Hp Hq Hr Hperm.
  assert (In1 : forall x, In x [p'; q'; r'] -> In x [p; q; r])
    by (intros x; apply Permutation_in, Permutation_sym, Hperm).
  assert (In2 : forall x, In x [p; q; r] -> In x [p'; q'; r'])
    by (intros x; apply Permutation_in, Hperm).
  assert (Hp' : 0 <= p' <= 255)
    by (apply (channel_in_range p q r); try assumption; apply In1; cbn; tauto).
  assert (Hq' : 0 <= q' <= 255)
    by (apply (channel_in_range p q r); try assumption; apply In1; cbn; tauto).
  assert (Hr' : 0 <= r' <= 255)
    by (apply (channel_in_range p q r); try assumption; apply In1; cbn; tauto).
  assert (Hgray : p == q /\ q == r <-> p' == q' /\ q' == r').
  { split; intros [E1 E2].
    - assert (A : forall x, In x [p; q; r] -> x == p)
        by (intros x [<-|[<-|[<-|[]]]]; lra).
      rewrite (A p' (In1 _ (or_introl eq_refl))),
        (A q' (In1 _ (or_intror (or_introl eq_refl)))),
        (A r' (In1 _ (or_intror (or_intror (or_introl eq_refl))))).
      split; reflexivity.
    - assert (A : forall x, In x [p'; q'; r'] -> x == p')
        by (intros x [<-|[<-|[<-|[]]]]; lra).
      rewrite (A p (In2 _ (or_introl eq_refl))),
        (A q (In2 _ (or_intror (or_introl eq_refl)))),
        (A r (In2 _ (or_intror (or_intror (or_introl eq_refl))))).
      split; reflexivity. }
  destruct (Qeq_dec p q) as [Epq|Npq]; [destruct (Qeq_dec q r) as [Eqr|Nqr]|].
  - destruct (proj1 Hgray (conj Epq Eqr)) as [Epq' Eqr'].
    destruct (rgbToHsl_Fin p q r Hp Hq Hr) as (M & m & h & s & EM & Em & E & _ & _ & _ & Hg).
    destruct (rgbToHsl_Fin p' q' r' Hp' Hq' Hr')
      as (M' & m' & h' & s' & EM' & Em' & E' & _ & _ & _ & Hg').
    destruct (max3_Fin (p / 255) (q / 255) (r / 255)) as (M0 & EM0 & HM & HMR & HMG & HMB).
    destruct (min3_Fin (p / 255) (q / 255) (r / 255)) as (m0 & Em0 & Hm & HmR & HmG & HmB).
    rewrite EM in EM0. rewrite Em in Em0. injection EM0 as <-. injection Em0 as <-.
    destruct (max3_Fin (p' / 255) (q' / 255) (r' / 255)) as (M0 & EM0 & HM' & HMR' & HMG' & HMB').
    destruct (min3_Fin (p' / 255) (q' / 255) (r' / 255)) as (m0 & Em0 & Hm' & HmR' & HmG' & HmB').
    rewrite EM' in EM0. rewrite Em' in Em0. injection EM0 as <-. injection Em0 as <-.
    destruct (extremes_symmetric p q r p' q' r' M m M' m' Hperm) as [EMM Emm];
      try assumption;
      try (clear - HM; destruct HM as [->|[->| ->]]; intuition reflexivity);
      try (clear - Hm; destruct Hm as [->|[->| ->]]; intuition reflexivity);
      try (clear - HM'; destruct HM' as [->|[->| ->]]; intuition reflexivity);
      try (clear - Hm'; destruct Hm' as [->|[->| ->]]; intuition reflexivity).
    assert (E1 : p / 255 == q / 255) by exact (proj1 (scaled_eq p q) Epq).
    assert (E2 : q / 255 == r / 255) by exact (proj1 (scaled_eq q r) Eqr).
    assert (EMm : M == m)
      by (clear - HM Hm E1 E2; destruct HM as [->|[->| ->]]; destruct Hm as [->|[->| ->]]; lra).
    destruct (Hg EMm) as (_ & Hs).
    destruct Hg' as (_ & Hs'); [rewrite <- EMM, <- Emm; exact EMm|].
    rewrite E, E'. cbn [HSL.s HSL.l num_eq]. rewrite Hs, Hs', EMM, Emm.
    split; reflexivity.
  - assert (Hc : ~ (p == q /\ q == r)) by tauto.
    assert (Hc' : ~ (p' == q' /\ q' == r')) by (rewrite <- Hgray; exact Hc).
    destruct (rgbToHsl_chromatic p q r Hp Hq Hr Hc)
      as (M & m & H6 & s & E & HMR & HMG & HMB & HmR & HmG & HmB & Hm & Hm0 & Hd & HM1 & _ & Hsat & S).
    destruct (rgbToHsl_chromatic p' q' r' Hp' Hq' Hr' Hc')
      as (M' & m' & H6' & s' & E' & HMR' & HMG' & HMB' & HmR' & HmG' & HmB' & Hm' & _ & _ & _
          & _ & Hsat' & S').
    assert (HM : M == p / 255 \/ M == q / 255 \/ M == r / 255)
      by (clear - S; unfold hue_sector_of in S; tauto).
    assert (HM' : M' == p' / 255 \/ M' == q' / 255 \/ M' == r' / 255)
      by (clear - S'; unfold hue_sector_of in S'; tauto).
    destruct (extremes_symmetric p q r p' q' r' M m M' m' Hperm) as [EMM Emm];
      try assumption.
    rewrite E, E'. cbn [HSL.s HSL.l num_eq]. split; [|rewrite EMM, Emm; reflexivity].
    clear - Hsat Hsat' EMM Emm Hd HM1 Hm0. revert Hsat Hsat'. qconst. rewrite <- EMM, <- Emm.
    intros [[L P]|[L P]] [[L' P']|[L' P']]; try (exfalso; clear - L L'; lra).
    + apply (Qmult_inj_r s' s (2 + - M + - m)); [clear - HM1 Hd; lra|]. rewrite P, P'. reflexivity.
    + apply (Qmult_inj_r s' s (M + m)); [clear - Hm0 Hd; lra|]. rewrite P, P'. reflexivity.
  - assert (Hc : ~ (p == q /\ q == r)) by tauto.
    assert (Hc' : ~ (p' == q' /\ q' == r')) by (rewrite <- Hgray; exact Hc).
    destruct (rgbToHsl_chromatic p q r Hp Hq Hr Hc)
      as (M & m & H6 & s & E & HMR & HMG & HMB & HmR & HmG & HmB & Hm & Hm0 & Hd & HM1 & _ & Hsat & S).
    destruct (rgbToHsl_chromatic p' q' r' Hp' Hq' Hr' Hc')
      as (M' & m' & H6' & s' & E' & HMR' & HMG' & HMB' & HmR' & HmG' & HmB' & Hm' & _ & _ & _
          & _ & Hsat' & S').
    assert (HM : M == p / 255 \/ M == q / 255 \/ M == r / 255)
      by (clear - S; unfold hue_sector_of in S; tauto).
    assert (HM' : M' == p' / 255 \/ M' == q' / 255 \/ M' == r' / 255)
      by (clear - S'; unfold hue_sector_of in S'; tauto).
    destruct (extremes_symmetric p q r p' q' r' M m M' m' Hperm) as [EMM Emm];
      try assumption.
    rewrite E, E'. cbn [HSL.s HSL.l num_eq]. split; [|rewrite EMM, Emm; reflexivity].
    clear - Hsat Hsat' EMM Emm Hd HM1 Hm0. revert Hsat Hsat'. qconst. rewrite <- EMM, <- Emm.
    intros [[L P]|[L P]] [[L' P']|[L' P']]; try (exfalso; clear - L L'; lra).
    + apply (Qmult_inj_r s' s (2 + - M + - m)); [clear - HM1 Hd; lra|]. rewrite P, P'. reflexivity.
    + apply (Qmult_inj_r s' s (M + m)); [clear - Hm0 Hd; lra|]. rewrite P, P'. reflexivity.
Qed.

Lemma rgbToHsl_symmetric_witness :
  (HSL.s (V2.rgbToHsl (Fin 200) (Fin 10) (Fin 255))
   =n= HSL.s (V2.rgbToHsl (Fin 10) (Fin 200) (Fin 255)))%js /\
  (HSL.l (V2.rgbToHsl (Fin 200) (Fin 10) (Fin 255))
   =n= HSL.l (V2.rgbToHsl (Fin 10) (Fin 200) (Fin 255)))%js.
Proof.
  apply (rgbToHsl_symmetric 10 200 255 200 10 255); try lra.
  apply perm_swap.
Defined.

End ColourProperties.

(** ** Waves and the log on the page *)

Section WavesAndLog.

Local Open Scope Q_scope.
Local Open Scope list_scope.

Lemma firstn_prefix {A : Type} (pre : list A) (v : A) (suf : list A) :
  firstn (List.length pre) (pre ++ v :: suf) = pre.
Proof.
  rewrite firstn_app, Nat.sub_diag, firstn_all. cbn. apply app_nil_r.
Qed.

Lemma skipn_prefix {A : Type} (pre : list A) (v : A) (suf : list A) :
  skipn (S (List.length pre)) (pre ++ v :: suf) = suf.
Proof.
  induction pre as [|a pre IH]; [reflexivity|]. exact IH.
Qed.

Lemma nth_error_prefix {A : Type} (pre : list A) (v : A) (suf : list A) :
  nth_error (pre ++ v :: suf) (List.length pre) = Some v.
Proof.
  induction pre as [|a pre IH]; [reflexivity|]. exact IH.
Qed.

(** The loop over the first waves of the array: it ages each of them once,
    removes those that have faded, and leaves the others in their order. *)
Lemma animateWaves_loop_filter (pre suf : list Wave.t) :
  V2.animateWaves_loop (List.length pre) (pre ++ suf)
  = Some (filter visible (map aged pre) ++ suf).
Proof.
  revert suf. induction pre as [|wave pre IH] using rev_ind; intros suf.
  - reflexivity.
  - rewrite length_app, Nat.add_comm. cbn [List.length Nat.add V2.animateWaves_loop].
    rewrite <- app_assoc. cbn [app].
    rewrite nth_error_prefix.
    unfold assign, splice.
    rewrite firstn_prefix, skipn_prefix.
    rewrite map_app, filter_app. cbn [map filter].
    fold (aged wave). unfold visible at 2.
    destruct (Wave.opacity (aged wave) <=? Fin 0)%js eqn:E; cbn [negb].
    + rewrite firstn_prefix, skipn_prefix, IH, app_nil_r. reflexivity.
    + rewrite IH, <- app_assoc. reflexivity.
Qed.

Lemma animateWaves_is_filter (waves : list Wave.t) :
  V2.animateWaves waves = Some (filter visible (map aged waves)).
Proof.
  unfold V2.animateWaves.
  rewrite <- (app_nil_r waves) at 2.
  rewrite animateWaves_loop_filter. rewrite app_nil_r. reflexivity.
Qed.

(** X13: a frame ages every wave once and drops the faded ones.  The loop
    of [animateWaves], which removes elements from the array it walks, never
    reads past the end of the array (it does not throw), visits every wave
    exactly once, and leaves the waves that are still visible in their
    order: the result is the filter of the aged waves. *)
Theorem animateWaves_filter (waves : list Wave.t) :
  exists waves',
    V2.animateWaves waves = Some waves' /\
    waves' = filter visible (map aged waves) /\
    (List.length waves' <= List.length waves)%nat /\
    Forall (fun wave => (Wave.opacity wave <=? Fin 0)%js = false) waves'.
Proof.
  exists (filter visible (map aged waves)).
  split; [apply animateWaves_is_filter|]. split; [reflexivity|]. split.
  - rewrite <- (length_map aged waves). apply filter_length_le.
  - apply Forall_forall. intros wave H. apply filter_In in H. destruct H as [_ H].
    unfold visible in H. now apply negb_true_iff in H.
Qed.

Lemma frames_nil (n : nat) : frames n [] = Some [].
Proof. induction n as [|n IH]; [reflexivity|exact IH]. Qed.

(** A lone wave of finite opacity, radius and speed, [n] frames on. *)
Lemma frames_single (n : nat) :
  forall (wave : Wave.t) (o rho sigma : Q),
    Wave.opacity wave = Fin o -> Wave.radius wave = Fin rho -> Wave.speed wave = Fin sigma ->
    (0.008 * inject_Z (Z.of_nat n) < o ->
     exists wave',
       frames n [wave] = Some [wave'] /\
       Wave.x wave' = Wave.x wave /\ Wave.y wave' = Wave.y wave /\
       (Wave.opacity wave' =n= Fin (o - 0.008 * inject_Z (Z.of_nat n)))%js /\
       (Wave.radius wave' =n= Fin (rho + inject_Z (Z.of_nat n) * sigma))%js) /\
    ((1 <= n)%nat -> o <= 0.008 * inject_Z (Z.of_nat n) -> frames n [wave] = Some []).
Proof.
  induction n as [|n IH]; intros wave o rho sigma Ho Hrho Hsigma.
  - split; [|intros H; lia].
    intros _. exists wave. cbn [frames]. rewrite Ho, Hrho. cbn.
    repeat split; try reflexivity; ring.
  - rewrite Nat2Z.inj_succ. unfold Z.succ. rewrite inject_Z_plus.
    change (inject_Z 1) with 1.
    cbn [frames]. rewrite animateWaves_is_filter. cbn [map filter].
    assert (Ho' : Wave.opacity (aged wave) = Fin (o + - 0.008))
      by (unfold aged; cbn [Wave.opacity]; rewrite Ho; reflexivity).
    assert (Hrho' : Wave.radius (aged wave) = Fin (rho + sigma))
      by (unfold aged; cbn [Wave.radius]; rewrite Hrho, Hsigma; reflexivity).
    assert (Hsigma' : Wave.speed (aged wave) = Fin sigma)
      by (unfold aged; cbn [Wave.speed]; exact Hsigma).
    destruct (IH (aged wave) (o + - 0.008) (rho + sigma) sigma Ho' Hrho' Hsigma')
      as [IHalive IHgone].
    unfold visible. rewrite Ho'.
    assert (Hz : 0 <= inject_Z (Z.of_nat n))
      by (change 0 with (inject_Z 0); rewrite <- Zle_Qle; lia).
    destruct (leb_Fin (o + - 0.008) 0) as [L|L]; cbn [negb].
    + split.
      * intros H. exfalso. clear - H L Hz. lra.
      * intros _ _. apply frames_nil.
    + split.
      * intros H.
        destruct IHalive as (wave' & E & Ex & Ey & Eo & Er); [clear - H; lra|].
        exists wave'. split; [exact E|].
        split; [rewrite Ex; reflexivity|]. split; [rewrite Ey; reflexivity|].
        destruct (Wave.opacity wave'), (Wave.radius wave'); cbn [num_eq] in *;
          try contradiction.
        split; [rewrite Eo|rewrite Er]; ring.
      * intros _ H. apply IHgone; [|clear - H; lra].
        destruct n as [|n]; [|lia]. exfalso.
        change (inject_Z (Z.of_nat 0)) with 0 in H. clear - H L. lra.
Qed.

(** X14: the life of a wave.  A wave made by [createWave] is drawn with
    opacity 0.6 - 0.008 n and radius 5 + n * speed after [n] frames for every
    [n] up to 74, at the place it was made, and is gone after 76 frames or
    more.  (At frame 75 the exact opacity is 0, where the rounding of the
    subtractions decides.) *)
Theorem wave_lifetime (x y : num) (random : Q) (n : nat) :
  let speed := 2 + random * 2 in
  ((n <= 74)%nat ->
   exists wave,
     frames n (V2.createWave x y (Fin random) []) = Some [wave] /\
     Wave.x wave = x /\ Wave.y wave = y /\
     (Wave.opacity wave =n= Fin (0.6 - 0.008 * inject_Z (Z.of_nat n)))%js /\
     (Wave.radius wave =n= Fin (5 + inject_Z (Z.of_nat n) * speed))%js) /\
  ((76 <= n)%nat -> frames n (V2.createWave x y (Fin random) []) = Some []).
Proof.
  cbv zeta.
  change (V2.createWave x y (Fin random) [])
    with [Wave.mk x y (Fin 5) (Fin (2 + random * 2)) (Fin 0.6)].
  destruct (frames_single n (Wave.mk x y (Fin 5) (Fin (2 + random * 2)) (Fin 0.6))
              0.6 5 (2 + random * 2) eq_refl eq_refl eq_refl) as [Halive Hgone].
  split.
  - intros Hn. apply Halive.
    assert (H : inject_Z (Z.of_nat n) <= inject_Z 74) by (rewrite <- Zle_Qle; lia).
    change (inject_Z 74) with 74 in H. clear - H. lra.
  - intros Hn. apply Hgone; [lia|].
    assert (H : inject_Z 76 <= inject_Z (Z.of_nat n)) by (rewrite <- Zle_Qle; lia).
    change (inject_Z 76) with 76 in H. clear - H. lra.
Qed.

Lemma wave_lifetime_witness :
  (exists wave,
     frames 74 (V2.createWave (Fin 100) (Fin 50) (Fin 0.5) []) = Some [wave] /\
     Wave.x wave = Fin 100 /\ Wave.y wave = Fin 50) /\
  frames 76 (V2.createWave (Fin 100) (Fin 50) (Fin 0.5) []) = Some [].
Proof.
  destruct (wave_lifetime (Fin 100) (Fin 50) 0.5 74) as [Halive _].
  destruct (wave_lifetime (Fin 100) (Fin 50) 0.5 76) as [_ Hgone].
  split.
  - destruct Halive as (wave & E & Ex & Ey & _); [lia|].
    exists wave. repeat split; assumption.
  - apply Hgone. lia.
Defined.

Lemma createWave_length (x y random : num) (waves : list Wave.t) :
  (List.length waves <= 30)%nat ->
  (List.length (V2.createWave x y random waves) <= 30)%nat.
Proof.
  intros H. unfold V2.createWave.
  destruct (Nat.ltb_spec 30 (List.length (waves ++ [Wave.mk x y (Fin 5) (Fin 2 + random * Fin 2)%js (Fin 0.6)]))) as [L|L].
  - destruct waves as [|wave waves]; cbn [app tl]; [cbn; lia|].
    rewrite length_app. cbn [List.length] in *. lia.
  - exact L.
Qed.

(** X15: there are never more than 30 waves.  Whatever waves are created
    and whatever frames are drawn, in any order, no frame throws and the
    array never holds more than 30 waves.  A wave created when the array is
    full takes the last place and the oldest wave is dropped. *)
Theorem waves_bounded (events : list WaveEvent) (waves : list Wave.t) :
  (List.length waves <= 30)%nat ->
  (exists waves',
      fold_left wave_step events (Some waves) = Some waves' /\
      (List.length waves' <= 30)%nat) /\
  (forall x y random,
      List.length waves = 30%nat ->
      V2.createWave x y random waves
      = tl waves ++ [Wave.mk x y (Fin 5) (Fin 2 + random * Fin 2)%js (Fin 0.6)]).
Proof.
  intros H. split.
  - revert waves H. induction events as [|event events IH]; intros waves H.
    + exists waves. split; [reflexivity|exact H].
    + cbn [fold_left]. destruct event as [x y random|]; cbn [wave_step].
      * apply IH, createWave_length, H.
      * rewrite animateWaves_is_filter. apply IH.
        pose proof (filter_length_le visible (map aged waves)) as L.
        rewrite length_map in L. lia.
  - intros x y random L. unfold V2.createWave.
    rewrite length_app, L. cbn [List.length Nat.add Nat.ltb Nat.leb].
    destruct waves as [|wave waves]; [discriminate L|reflexivity].
Qed.

Lemma waves_bounded_witness :
  exists waves',
    fold_left wave_step [NewWave (Fin 1) (Fin 2) (Fin 0.5); Frame] (Some []) = Some waves' /\
    (List.length waves' <= 30)%nat.
Proof.
  apply (waves_bounded [NewWave (Fin 1) (Fin 2) (Fin 0.5); Frame] []). cbn. lia.
Defined.

Lemma lastn_short {A : Type} (n : nat) (l : list A) :
  (List.length l <= n)%nat -> lastn n l = l.
Proof.
  intros H. unfold lastn. replace (List.length l - n)%nat with 0%nat by lia. reflexivity.
Qed.

Lemma lastn_length {A : Type} (n : nat) (l : list A) :
  (List.length (lastn n l) <= n)%nat.
Proof. unfold lastn. rewrite length_skipn. lia. Qed.

Lemma lastn_cons {A : Type} (n : nat) (a : A) (l : list A) :
  (n <= List.length l)%nat -> lastn n (a :: l) = lastn n l.
Proof.
  intros H. unfold lastn. cbn [List.length].
  replace (S (List.length l) - n)%nat with (S (List.length l - n)) by lia. reflexivity.
Qed.

Lemma addObservation_while_lastn (fuel : nat) :
  forall children : list Observation,
    (List.length children <= fuel + 50)%nat ->
    V2.addObservation_while fuel children = lastn 50 children.
Proof.
  induction fuel as [|fuel IH]; intros children H; cbn [V2.addObservation_while].
  - symmetry. apply lastn_short. exact H.
  - destruct (Nat.ltb_spec 50 (List.length children)) as [L|L].
    + destruct children as [|child children]; [cbn in L; lia|].
      cbn [tl List.length] in *. rewrite IH by lia.
      symmetry. apply lastn_cons. lia.
    + symmetry. apply lastn_short. exact L.
Qed.

Lemma addObservation_logEntries_lastn (type message : string) (log : list Observation) :
  V2.addObservation_logEntries type message log
  = lastn 50 (log ++ [{| type := type; message := message |}]).
Proof.
  unfold V2.addObservation_logEntries. apply addObservation_while_lastn. lia.
Qed.

Lemma lastn_snoc {A : Type} (n : nat) (l : list A) (a : A) :
  (1 <= n)%nat -> lastn n (lastn n l ++ [a]) = lastn n (l ++ [a]).
Proof.
  intros Hn. destruct (Nat.le_gt_cases (List.length l) n) as [H|H].
  - rewrite (lastn_short n l H). reflexivity.
  - unfold lastn. rewrite !length_app, length_skipn. cbn [List.length].
    replace (List.length l - (List.length l - n) + 1 - n)%nat with 1%nat by lia.
    rewrite !skipn_app, length_skipn.
    replace (1 - (List.length l - (List.length l - n)))%nat with 0%nat by lia.
    replace (List.length l + 1 - n - List.length l)%nat with 0%nat by lia.
    rewrite skipn_skipn.
    replace (1 + (List.length l - n))%nat with (List.length l + 1 - n)%nat by lia.
    reflexivity.
Qed.

(** X16: the log on the page shows the last 50 observations.  A call of
    [addObservation] leaves in the log element the last 50 of the children it
    had and the new entry, however many children it had; so, once the log
    holds the last entries of [state.observations], every later sequence of
    calls keeps it to the last 50 entries of the history, which itself keeps
    every entry. *)
Theorem log_shows_last_50 (entries : list (string * string)) (st : State)
    (log : list Observation) :
  log = lastn 50 st.(observations) ->
  let page := fold_left logged entries (st, log) in
  snd page = lastn 50 (fst page).(observations) /\
  (fst page).(observations)
  = st.(observations) ++ map (fun entry => {| type := fst entry; message := snd entry |}) entries /\
  (List.length (snd page) <= 50)%nat /\
  (forall type message children,
      V2.addObservation_logEntries type message children
      = lastn 50 (children ++ [{| type := type; message := message |}])).
Proof.
  intros Hlog. cbv zeta.
  assert (Hmain : snd (fold_left logged entries (st, log))
                  = lastn 50 (fst (fold_left logged entries (st, log))).(observations) /\
                  (fst (fold_left logged entries (st, log))).(observations)
                  = st.(observations)
                    ++ map (fun entry => {| type := fst entry; message := snd entry |}) entries).
  { revert st log Hlog. induction entries as [|[type message] entries IH]; intros st log Hlog.
    - cbn [fold_left fst snd map]. rewrite app_nil_r. split; [exact Hlog|reflexivity].
    - cbn [fold_left].
      change (logged (st, log) (type, message))
        with (V2.addObservation type message st,
              V2.addObservation_logEntries type message log).
      destruct (IH (V2.addObservation type message st)
                   (V2.addObservation_logEntries type message log)) as [E1 E2].
      + rewrite addObservation_logEntries_lastn, Hlog.
        unfold V2.addObservation. cbn [observations set_observations].
        apply lastn_snoc. lia.
      + split; [exact E1|]. rewrite E2.
        unfold V2.addObservation. cbn [observations set_observations map fst snd].
        rewrite <- app_assoc. reflexivity. }
  destruct Hmain as [E1 E2].
  split; [exact E1|]. split; [exact E2|]. split.
  - rewrite E1. apply lastn_length.
  - intros type message children. apply addObservation_logEntries_lastn.
Qed.

Lemma log_shows_last_50_witness :
  let page := fold_left logged [("SYSTEM", "Observation protocols initialized");
                                ("SYSTEM", "Subject has entered the exhibition")]%string
                (initial_state, []) in
  snd page = lastn 50 (fst page).(observations).
Proof.
  intros page.
  apply (log_shows_last_50 [("SYSTEM", "Observation protocols initialized");
                            ("SYSTEM", "Subject has entered the exhibition")]%string
           initial_state []).
  reflexivity.
Defined.

End WavesAndLog.

(** ** Texts: the clock, the address and the user agent *)

Section Texts.

Local Open Scope string_scope.

Lemma append_length (a b : string) :
  String.length (a ++ b) = (String.length a + String.length b)%nat.
Proof. induction a as [|c a IH]; cbn; [reflexivity|now rewrite IH]. Qed.

Lemma append_assoc (a b c : string) : (a ++ b) ++ c = a ++ b ++ c.
Proof. induction a as [|x a IH]; cbn; [reflexivity|now rewrite IH]. Qed.

Lemma string_of_repeat_length (c : ascii) (n : nat) :
  String.length (string_of_list_ascii (repeat c n)) = n.
Proof. induction n as [|n IH]; cbn; [reflexivity|now rewrite IH]. Qed.

Lemma padStart_length (n : nat) (c : ascii) (s : string) :
  String.length (padStart n c s) = Nat.max n (String.length s).
Proof.
  unfold padStart. rewrite append_length, string_of_repeat_length. lia.
Qed.

(** Under 60 the decimal text of a number has one or two digits. *)
Lemma clock_field_two (z : Z) :
  (0 <= z < 60)%Z -> String.length (clock_field z) = 2%nat.
Proof.
  intros H.
  assert (Hall : forallb (fun k => Nat.eqb (String.length (clock_field (Z.of_nat k))) 2)
                   (seq 0 60) = true) by (vm_compute; reflexivity).
  rewrite forallb_forall in Hall.
  specialize (Hall (Z.to_nat z)). rewrite Z2Nat.id in Hall by lia.
  apply Nat.eqb_eq, Hall, in_seq. lia.
Qed.

(** X17: the clock shows the time on the page.  With [elapsed] the whole
    number of seconds since the page was loaded, not negative, the text of
    the clock is three fields separated by colons, hours, minutes and
    seconds, with [elapsed = 3600 h + 60 m + s], minutes and seconds under 60
    and written with exactly two characters, the hours with two or more: the
    hours are not taken modulo 24 and do not wrap. *)
Theorem updateTimeOnPage_clock (now : Z) (a : Activity) :
  let elapsed := ((now - a.(startTime)) / 1000)%Z in
  (0 <= elapsed)%Z ->
  exists h m s : Z,
    V2.updateTimeOnPage now a = clock_field h ++ ":" ++ clock_field m ++ ":" ++ clock_field s /\
    (elapsed = 3600 * h + 60 * m + s)%Z /\
    (0 <= h)%Z /\ (0 <= m < 60)%Z /\ (0 <= s < 60)%Z /\
    (2 <= String.length (clock_field h))%nat /\
    String.length (clock_field m) = 2%nat /\ String.length (clock_field s) = 2%nat.
Proof.
  cbv zeta. set (elapsed := ((now - startTime a) / 1000)%Z). intros H.
  exists (elapsed / 3600)%Z, (Z.rem elapsed 3600 / 60)%Z, (Z.rem elapsed 60)%Z.
  assert (Hm : (0 <= Z.rem elapsed 3600 / 60 < 60)%Z)
    by (rewrite Z.rem_mod_nonneg by lia; Z.div_mod_to_equations; lia).
  assert (Hs : (0 <= Z.rem elapsed 60 < 60)%Z)
    by (rewrite Z.rem_mod_nonneg by lia; Z.div_mod_to_equations; lia).
  split; [reflexivity|]. split.
  { rewrite !Z.rem_mod_nonneg by lia. Z.div_mod_to_equations. lia. }
  split; [Z.div_mod_to_equations; lia|].
  split; [exact Hm|]. split; [exact Hs|]. split.
  - unfold clock_field. rewrite padStart_length. lia.
  - split; apply clock_field_two; assumption.
Qed.

Lemma updateTimeOnPage_clock_witness :
  exists h m s : Z,
    V2.updateTimeOnPage 3725999 (initial_activity 0)
    = clock_field h ++ ":" ++ clock_field m ++ ":" ++ clock_field s /\
    (3725 = 3600 * h + 60 * m + s)%Z.
Proof.
  destruct (updateTimeOnPage_clock 3725999 (initial_activity 0)) as (h & m & s & E & D & _).
  - vm_compute. discriminate.
  - exists h, m, s. split; [exact E|exact D].
Defined.

Lemma split_dotless (a : string) : dotless a = true -> split "." a = [a].
Proof.
  induction a as [|c a IH]; cbn [dotless split]; [reflexivity|].
  intros H. apply andb_true_iff in H. destruct H as [Hc Ha].
  apply negb_true_iff in Hc. rewrite Hc, (IH Ha). reflexivity.
Qed.

Lemma split_dotted (a rest : string) :
  dotless a = true -> split "." (a ++ "." ++ rest) = a :: split "." rest.
Proof.
  induction a as [|c a IH]; cbn [dotless split append]; [reflexivity|].
  intros H. apply andb_true_iff in H. destruct H as [Hc Ha].
  apply negb_true_iff in Hc. rewrite Hc. cbn [append] in IH. rewrite (IH Ha). reflexivity.
Qed.

Lemma split_first (rest : string) : exists part parts, split "." rest = part :: parts.
Proof.
  induction rest as [|c rest (part & parts & IH)]; cbn [split].
  - eauto.
  - destruct (Ascii.eqb c "."); [eauto|]. rewrite IH. eauto.
Qed.

Lemma present_dotted (a rest : string) : present (Some (a ++ "." ++ rest)) = true.
Proof. destruct a; reflexivity. Qed.

(** X18: the last groups of a dotted address are hidden.  For an address
    that begins with two groups without a dot, each followed by a dot, both
    versions display the two groups followed by [.XXX.XXX], whatever follows
    the second dot and whatever else the service answers; the older version
    logs the same text in a NETWORK entry. *)
Theorem fetchIPInfo_masks (a b rest : string) (data : IPData) (panel : Panel) (st : State) :
  dotless a = true -> dotless b = true ->
  data.(ip) = Some (a ++ "." ++ b ++ "." ++ rest) ->
  let masked := a ++ "." ++ b ++ ".XXX.XXX" in
  (fst (V2.fetchIPInfo (Some data) panel st)).(userIP) = masked /\
  (fst (V1.fetchIPInfo (Some data) panel st)).(userIP) = masked /\
  In {| type := "NETWORK"; message := "IP address detected: " ++ masked |}
     (snd (V1.fetchIPInfo (Some data) panel st)).(observations).
Proof.
  intros Ha Hb Hip. cbv zeta.
  unfold V2.fetchIPInfo, V1.fetchIPInfo. rewrite Hip, present_dotted.
  cbn [text]. rewrite (split_dotted a _ Ha), (split_dotted b _ Hb).
  cbn [element nth].
  destruct (present (city data) && present (country_name data));
    cbn [fst snd userIP V1.addObservation observations set_observations];
    repeat split; try reflexivity; rewrite ?in_app_iff; cbn [In]; tauto.
Qed.

Lemma fetchIPInfo_masks_witness :
  let data := {| ip := Some "203.0.113.7"; city := Some "Eugene"; region := None;
                 country_name := Some "United States" |} in
  let panel := {| userIP := "DETECTING..."; userLocation := "TRIANGULATING..." |} in
  (fst (V2.fetchIPInfo (Some data) panel initial_state)).(userIP) = "203.0.XXX.XXX".
Proof.
  intros data panel.
  exact (proj1 (fetchIPInfo_masks "203" "0" "113.7" data panel initial_state
                  eq_refl eq_refl eq_refl)).
Defined.

(** X19: an address without a dot is displayed whole.  For a non-empty
    address in which no dot occurs, as the text of an IPv6 address, both
    versions display the whole address, followed by [.undefined.XXX.XXX]; the
    older version logs it as well. *)
Theorem fetchIPInfo_undotted (address : string) (data : IPData) (panel : Panel) (st : State) :
  dotless address = true -> address <> "" ->
  data.(ip) = Some address ->
  let shown := address ++ ".undefined.XXX.XXX" in
  (fst (V2.fetchIPInfo (Some data) panel st)).(userIP) = shown /\
  (fst (V1.fetchIPInfo (Some data) panel st)).(userIP) = shown /\
  In {| type := "NETWORK"; message := "IP address detected: " ++ shown |}
     (snd (V1.fetchIPInfo (Some data) panel st)).(observations).
Proof.
  intros Ha Hne Hip. cbv zeta.
  unfold V2.fetchIPInfo, V1.fetchIPInfo. rewrite Hip.
  assert (Hp : present (Some address) = true).
  { cbn [present]. apply negb_true_iff, String.eqb_neq. exact Hne. }
  rewrite Hp. cbn [text]. rewrite (split_dotless address Ha).
  cbn [element nth].
  destruct (present (city data) && present (country_name data));
    cbn [fst snd userIP V1.addObservation observations set_observations];
    repeat split; try reflexivity; rewrite ?in_app_iff; cbn [In]; tauto.
Qed.

Lemma fetchIPInfo_undotted_witness :
  let data := {| ip := Some "2001:db8::1"; city := None; region := None;
                 country_name := None |} in
  let panel := {| userIP := "DETECTING..."; userLocation := "TRIANGULATING..." |} in
  (fst (V2.fetchIPInfo (Some data) panel initial_state)).(userIP)
  = "2001:db8::1.undefined.XXX.XXX".
Proof.
  intros data panel.
  refine (proj1 (fetchIPInfo_undotted "2001:db8::1" data panel initial_state
                   eq_refl _ eq_refl)).
  discriminate.
Defined.

(** X20: where the two versions name the browser differently.  The older
    version has one rule more, for Opera, after the four rules the versions
    share: the two agree on every user agent, except those that mention none
    of Firefox, Edg, Chrome and Safari but mention Opera, which the older
    version names Opera and the newer Unknown. *)
Theorem detectBrowser_versions (ua : string) :
  V1.detectBrowser ua
  = if String.eqb (V2.detectBrowser ua) "Unknown" && includes ua "Opera"
    then "Opera" else V2.detectBrowser ua.
Proof.
  unfold V1.detectBrowser, V2.detectBrowser.
  destruct (includes ua "Firefox"); [reflexivity|].
  destruct (includes ua "Edg"); [reflexivity|].
  destruct (includes ua "Chrome"); [reflexivity|].
  destruct (includes ua "Safari"); [reflexivity|].
  destruct (includes ua "Opera"); reflexivity.
Qed.

Lemma prefix_append (word post : string) : String.prefix word (word ++ post) = true.
Proof.
  induction word as [|c word IH]; cbn [append].
  - destruct post; reflexivity.
  - cbn [String.prefix]. destruct (ascii_dec c c) as [_|N]; [exact IH|contradiction].
Qed.

Lemma includes_middle (pre word post : string) :
  includes (pre ++ word ++ post) word = true.
Proof.
  induction pre as [|c pre IH].
  - cbn [append]. destruct (word ++ post) eqn:E; cbn [includes];
      rewrite <- E, prefix_append; reflexivity.
  - cbn [append includes]. rewrite IH. apply orb_true_r.
Qed.

Lemma toLowerCase_append (a b : string) :
  toLowerCase (a ++ b) = toLowerCase a ++ toLowerCase b.
Proof. induction a as [|c a IH]; cbn; [reflexivity|now rewrite IH]. Qed.

Lemma test_i_middle (literal pre word post : string) :
  toLowerCase word = toLowerCase literal ->
  test_i literal (pre ++ word ++ post) = true.
Proof.
  intros H. unfold test_i. rewrite !toLowerCase_append, H. apply includes_middle.
Qed.

(** X21: the first rules win wherever their word occurs.  A user agent in
    which Firefox occurs anywhere is named Firefox by both versions, whatever
    else it mentions; a user agent in which the letters of Mobi or of Android
    occur anywhere, in any letter case, is a Mobile device, also when it
    mentions a tablet, a Mac, Windows or Linux. *)
Theorem first_rules_win (pre word post : string) :
  (word = "Firefox" ->
   V2.detectBrowser (pre ++ word ++ post) = "Firefox" /\
   V1.detectBrowser (pre ++ word ++ post) = "Firefox") /\
  (toLowerCase word = "mobi" \/ toLowerCase word = "android" ->
   V2.detectDevice (pre ++ word ++ post) = "Mobile").
Proof.
  split.
  - intros ->. unfold V2.detectBrowser, V1.detectBrowser.
    rewrite includes_middle. split; reflexivity.
  - intros [H|H]; unfold V2.detectDevice.
    + rewrite (test_i_middle "Mobi" pre word post H). reflexivity.
    + rewrite (test_i_middle "Android" pre word post H), orb_true_r. reflexivity.
Qed.

Lemma first_rules_win_witness :
  V2.detectDevice ("Mozilla/5.0 (Linux; " ++ "ANDROID" ++ " 13; Tablet)") = "Mobile".
Proof.
  apply (proj2 (first_rules_win "Mozilla/5.0 (Linux; " "ANDROID" " 13; Tablet)")).
  right. reflexivity.
Defined.

End Texts.

(** ** Behaviour tracking, the ticker and the eyes on the page *)

Section Behaviour.

Local Open Scope list_scope.

(** What one [mousemove] event does. *)
Lemma trackMouse_step (e : MouseEvent) (now : Z) (random : num) (page : Page) :
  let m := page.(activity).(mouseMovements) in
  let page' := V2.trackMouse e now random page in
  (0 <= m)%Z -> (List.length page.(activity).(waves) <= 30)%nat ->
  page'.(activity).(mouseMovements) = (m + 1)%Z /\
  (List.length page'.(activity).(waves) <= 30)%nat /\
  exists added,
    page'.(state).(observations) = page.(state).(observations) ++ added /\
    Z.of_nat (List.length added) = ((m + 1) / 50 - m / 50)%Z /\
    Forall (fun entry => entry.(type) = "MOUSE"%string) added.
Proof.
  cbv zeta. intros Hm Hw. unfold V2.trackMouse.
  cbn [mouseMovements activity state waves set_waves mouseX mouseY lastMouseX].
  set (m := mouseMovements (activity page)) in *.
  assert (Hw' : forall x y, (List.length (V2.createWave x y random (waves (activity page))) <= 30)%nat)
    by (intros x y; apply createWave_length, Hw).
  destruct (Z.rem (m + 1) 8 =? 0)%Z;
    cbn [mouseMovements activity state waves set_waves mouseX mouseY lastMouseX];
    (split; [reflexivity|]); (split; [first [apply Hw'|exact Hw]|]);
    rewrite Z.rem_mod_nonneg by lia;
    (destruct (Z.eqb_spec ((m + 1) mod 50) 0) as [E|E];
     [eexists; split; [reflexivity|]; cbn [List.length]; split;
      [Z.div_mod_to_equations; lia|constructor; [reflexivity|constructor]]
     |exists []; rewrite app_nil_r; split; [reflexivity|]; cbn [List.length]; split;
      [Z.div_mod_to_equations; lia|constructor]]).
Qed.

(** X22: what [trackMouse] counts and logs.  After any sequence of
    [mousemove] events, [state.mouseMovements] has grown by their number;
    the history has grown by one MOUSE entry for every multiple of 50 the
    counter has reached, and by nothing else; and the waves, one more for
    every multiple of 8, are still at most 30. *)
Theorem trackMouse_counts (moves : list (MouseEvent * Z * num)) (page : Page) :
  let m := page.(activity).(mouseMovements) in
  let n := Z.of_nat (List.length moves) in
  let page' := mouse_moves moves page in
  (0 <= m)%Z -> (List.length page.(activity).(waves) <= 30)%nat ->
  page'.(activity).(mouseMovements) = (m + n)%Z /\
  (List.length page'.(activity).(waves) <= 30)%nat /\
  exists added,
    page'.(state).(observations) = page.(state).(observations) ++ added /\
    Z.of_nat (List.length added) = ((m + n) / 50 - m / 50)%Z /\
    Forall (fun entry => entry.(type) = "MOUSE"%string) added.
Proof.
  cbv zeta. revert page.
  induction moves as [|[[e now] random] moves IH]; intros page Hm Hw.
  - cbn [mouse_moves fold_left List.length]. rewrite Z.add_0_r, Z.sub_diag.
    split; [reflexivity|]. split; [exact Hw|].
    exists []. rewrite app_nil_r. repeat split. constructor.
  - unfold mouse_moves. cbn [fold_left].
    fold (mouse_moves moves (V2.trackMouse e now random page)).
    destruct (trackMouse_step e now random page Hm Hw) as (M1 & W1 & a1 & O1 & L1 & T1).
    destruct (IH (V2.trackMouse e now random page)) as (M2 & W2 & a2 & O2 & L2 & T2);
      [lia|exact W1|].
    rewrite M1 in *. cbn [List.length]. rewrite Nat2Z.inj_succ.
    split; [lia|]. split; [exact W2|].
    exists (a1 ++ a2). rewrite O2, O1, <- app_assoc. split; [reflexivity|].
    split; [|apply Forall_app; split; assumption].
    rewrite length_app, Nat2Z.inj_add, L1, L2.
    replace (mouseMovements (activity page) + 1 + Z.of_nat (List.length moves))%Z
      with (mouseMovements (activity page) + Z.succ (Z.of_nat (List.length moves)))%Z by lia.
    lia.
Qed.

Lemma trackMouse_counts_witness :
  let page := mkPage initial_state (initial_activity 0) in
  let moves := [({| clientX := 10; clientY := 20 |}, 5%Z, Fin 0.5)] in
  (mouse_moves moves page).(activity).(mouseMovements) = 1%Z.
Proof.
  intros page moves.
  destruct (trackMouse_counts moves page) as (M & _); [cbn; lia|cbn; lia|].
  exact M.
Defined.

(** X23: where the two versions log a pointer movement differently.  On
    the same event and the same state both versions update the counters in
    the same way and log on the same events (every fiftieth).  The entries
    they log are the same exactly when the movement since the previous event
    is wider than it is tall: otherwise the older version reports UP or DOWN,
    and the newer one, which only looks at the horizontal movement, LEFT or
    RIGHT (LEFT for a movement that is purely vertical). *)
Theorem trackMouse_versions (e : MouseEvent) (now : Z) (random : num) (page : Page) :
  let m := page.(activity).(mouseMovements) in
  let dx := (e.(clientX) - page.(activity).(mouseX))%Z in
  let dy := (e.(clientY) - page.(activity).(mouseY))%Z in
  let one := V1.trackMouse e now page in
  let two := V2.trackMouse e now random page in
  set_waves [] one.(activity) = set_waves [] two.(activity) /\
  List.length one.(state).(observations) = List.length two.(state).(observations) /\
  (one.(state) = two.(state) <-> Z.rem (m + 1) 50 <> 0%Z \/ (Z.abs dy < Z.abs dx)%Z).
Proof.
  cbv zeta. unfold V1.trackMouse, V2.trackMouse.
  cbn [mouseMovements activity state waves set_waves mouseX mouseY lastMouseX lastMouseY].
  set (m := mouseMovements (activity page)).
  set (dx := (clientX e - mouseX (activity page))%Z).
  set (dy := (clientY e - mouseY (activity page))%Z).
  split; [destruct (Z.rem (m + 1) 8 =? 0)%Z; reflexivity|].
  assert (Hm : forall a b : Activity,
             mouseMovements a = (m + 1)%Z -> mouseX a = clientX e -> mouseY a = clientY e ->
             lastMouseX a = mouseX (activity page) ->
             mouseMovements (if (Z.rem (m + 1) 8 =? 0)%Z then set_waves b.(waves) a else a)
             = (m + 1)%Z /\
             mouseX (if (Z.rem (m + 1) 8 =? 0)%Z then set_waves b.(waves) a else a) = clientX e /\
             mouseY (if (Z.rem (m + 1) 8 =? 0)%Z then set_waves b.(waves) a else a) = clientY e /\
             lastMouseX (if (Z.rem (m + 1) 8 =? 0)%Z then set_waves b.(waves) a else a)
             = mouseX (activity page))
    by (intros a b H1 H2 H3 H4; destruct (Z.rem (m + 1) 8 =? 0)%Z; cbn; auto).
  match goal with
  | |- context [mouseMovements (if _ then set_waves ?w ?a else ?a)] =>
      destruct (Hm a (set_waves w a) eq_refl eq_refl eq_refl eq_refl) as (E1 & E2 & E3 & E4)
  end.
  cbn [waves set_waves] in E1, E2, E3, E4. rewrite E1, E2, E3, E4. clear Hm E1 E2 E3 E4.
  fold dx.
  destruct (Z.eqb_spec (Z.rem (m + 1) 50) 0) as [E|E].
  - unfold V1.addObservation, V2.addObservation.
    cbn [observations set_observations]. rewrite !length_app. split; [reflexivity|].
    rewrite Z.gtb_ltb. destruct (Z.ltb_spec (Z.abs dy) (Z.abs dx)) as [L|L].
    + split; [intros _; right; exact L|intros _; reflexivity].
    + split; [|intros [H|H]; [contradiction|lia]].
      intros H. exfalso. apply (f_equal observations) in H.
      cbn [observations set_observations] in H. apply app_inv_head in H.
      destruct (dx >? 0)%Z, (dy >? 0)%Z; cbn [append] in H; discriminate H.
  - split; [reflexivity|]. split; [intros _; left; exact E|intros _; reflexivity].
Qed.

Lemma Number_toString_of_Z (z : Z) : Number_toString (of_Z z) = Z_toString z.
Proof. unfold Number_toString, of_Z. rewrite Qfloor_Z. reflexivity. Qed.



Lemma philosophical_index (random : Q) :
  (0 <= random < 1)%Q ->
  In (element_at V2.philosophical
        (floor (Fin random * of_Z (Z.of_nat (List.length V2.philosophical)))))
     V2.philosophical.
Proof.
  intros Hr. change (Z.of_nat (List.length V2.philosophical)) with 5%Z.
  unfold of_Z. cbn [mul floor]. change (inject_Z 5) with 5%Q.
  set (z := Qfloor (random * 5)).
  pose proof (Qfloor_le (random * 5)) as Hle.
  pose proof (Qlt_floor (random * 5)) as Hlt. fold z in Hle, Hlt.
  rewrite inject_Z_plus in Hlt. change (inject_Z 1) with 1%Q in Hlt.
  assert (H1 : (inject_Z (-1) < inject_Z z)%Q) by (change (inject_Z (-1)) with (-1)%Q; lra).
  assert (H2 : (inject_Z z < inject_Z 5)%Q) by (change (inject_Z 5) with 5%Q; lra).
  rewrite <- Zlt_Qlt in H1, H2.
  unfold of_Z, element_at. rewrite Qfloor_Z.
  assert (E : Qeq_bool (inject_Z z) (inject_Z z) = true) by (apply Qeq_bool_iff; reflexivity).
  rewrite E. replace (0 <=? z)%Z with true by (symmetry; apply Z.leb_le; lia).
  cbn [andb].
  assert (Hz : z = 0%Z \/ z = 1%Z \/ z = 2%Z \/ z = 3%Z \/ z = 4%Z) by lia.
  clearbody z. destruct Hz as [->|[->|[->|[->| ->]]]]; cbn; tauto.
Qed.

(** X25: what the ticker always says.  For a random number of [[0,1)] the
    last message of the ticker is one of the five closing sentences, never
    the text of [undefined]; a gaze direction that is one of the nine labels
    is always announced; and the ticker holds between three and seven
    messages. *)
Theorem generateTickerContent_closing (now : Z) (random : Q) (page : Page) :
  (0 <= random < 1)%Q ->
  In page.(state).(gazeDirection) gazeLabels ->
  let messages := V2.generateTickerContent now (Fin random) page in
  In (last messages "undefined"%string) V2.philosophical /\
  In ("GAZE: " ++ page.(state).(gazeDirection))%string messages /\
  (3 <= List.length messages <= 7)%nat.
Proof.
  intros Hr Hgaze. cbv zeta. unfold V2.generateTickerContent.
  assert (Hne : (gazeDirection (state page) =? "")%string = false).
  { apply String.eqb_neq. intros E. rewrite E in Hgaze.
    unfold gazeLabels in Hgaze. cbn in Hgaze. intuition discriminate. }
  rewrite Hne. cbn [negb].
  generalize (philosophical_index random Hr).
  generalize (element_at V2.philosophical
                (floor (Fin random * of_Z (Z.of_nat (List.length V2.philosophical))))).
  intros closing Hclosing.
  rewrite last_last. split; [exact Hclosing|].
  destruct ((now - startTime (activity page)) / 1000 >? 60)%Z,
    (present (eyeColor (state page))), (microphoneActive (activity page));
    cbn [app]; (split; [cbn [In]; tauto|cbn [List.length]; lia]).
Qed.

Lemma generateTickerContent_closing_witness :
  let page := mkPage initial_state (initial_activity 0) in
  In (last (V2.generateTickerContent 3000 (Fin 0.99) page) "undefined"%string)
     V2.philosophical.
Proof.
  intros page.
  refine (proj1 (generateTickerContent_closing 3000 0.99 page _ _)).
  - split; [discriminate|reflexivity].
  - unfold gazeLabels. cbn. tauto.
Defined.

Lemma seconds_gt (t s : Z) :
  (inject_Z s < inject_Z t / 1000)%Q <-> (1000 * s < t)%Z.
Proof.
  rewrite Zlt_Qlt, inject_Z_mult. change (inject_Z 1000) with 1000%Q.
  unfold Qdiv; cbn [Qinv Qnum Qden]. split; intros H; lra.
Qed.

Lemma seconds_lt (t s : Z) :
  (inject_Z t / 1000 < inject_Z s)%Q <-> (t < 1000 * s)%Z.
Proof.
  rewrite Zlt_Qlt, inject_Z_mult. change (inject_Z 1000) with 1000%Q.
  unfold Qdiv; cbn [Qinv Qnum Qden]. split; intros H; lra.
Qed.

(** X26: which poll reports inactivity.  [checkInactivity] is run every
    5000 ms.  If the runs come exactly 5000 ms apart and the last activity
    is [d] ms before a run, [0 <= d < 5000], then the idle notice is logged
    by the sixth run after that one and by no other, and the notice of
    extended inactivity by the twelfth and by no other, provided [d > 0];
    when the last activity falls on the instant of a run ([d = 0]) the
    inactive time is exactly 30, 35, 60 and 65 seconds at the runs around the
    two windows, and neither notice is ever logged. *)
Theorem checkInactivity_window (d k : Z) (page : Page) :
  (0 <= d < 5000)%Z -> (0 <= k)%Z ->
  let now := (page.(activity).(lastActivity) + d + 5000 * k)%Z in
  (V1.checkInactivity now page).(state).(observations)
  = page.(state).(observations)
    ++ (if (k =? 6)%Z && (0 <? d)%Z then [idle_notice]
        else if (k =? 12)%Z && (0 <? d)%Z then [abandoned_notice]
        else []).
Proof.
  intros Hd Hk. cbv zeta. unfold V1.checkInactivity. cbn [activity state].
  replace (lastActivity (activity page) + d + 5000 * k - lastActivity (activity page))%Z
    with (d + 5000 * k)%Z by lia.
  set (t := (d + 5000 * k)%Z). unfold of_Z.
  rewrite div_Fin by discriminate.
  change (Fin 30) with (Fin (inject_Z 30)). change (Fin 35) with (Fin (inject_Z 35)).
  change (Fin 60) with (Fin (inject_Z 60)). change (Fin 65) with (Fin (inject_Z 65)).
  pose proof (seconds_gt t 30) as G30. pose proof (seconds_lt t 35) as L35.
  pose proof (seconds_gt t 60) as G60. pose proof (seconds_lt t 65) as L65.
  destruct (gtb_Fin (inject_Z t / 1000) (inject_Z 30)) as [A1|A1];
    destruct (ltb_Fin (inject_Z t / 1000) (inject_Z 35)) as [A2|A2];
    destruct (gtb_Fin (inject_Z t / 1000) (inject_Z 60)) as [A3|A3];
    destruct (ltb_Fin (inject_Z t / 1000) (inject_Z 65)) as [A4|A4];
    rewrite G30 in A1; rewrite L35 in A2; rewrite G60 in A3; rewrite L65 in A4;
    clear G30 L35 G60 L65;
    cbn [andb];
    destruct (Z.eqb_spec k 6) as [K6|K6]; destruct (Z.eqb_spec k 12) as [K12|K12];
    destruct (Z.ltb_spec 0 d) as [D|D]; cbn [andb];
    try (exfalso; unfold t in *; lia);
    unfold V1.addObservation; cbn [observations set_observations];
    rewrite ?app_nil_r; reflexivity.
Qed.

Lemma checkInactivity_window_witness :
  let page := mkPage initial_state (initial_activity 1000) in
  (V1.checkInactivity (1000 + 1 + 5000 * 6) page).(state).(observations) = [idle_notice].
Proof.
  intros page. apply (checkInactivity_window 1 6 page); lia.
Defined.

(** X27: the eyes on the page follow the estimated gaze.  Given the
    direction [estimateGaze] returns, [moveGazeEyes] shifts the irises by 6
    pixels to the side of the nose offset and by 5 pixels up or down with it,
    and the pair of eyes by 180 pixels the same way from the centre of the
    window, before the jitter: the search of the label for LEFT, RIGHT, UP
    and DOWN decodes each of the nine labels without ambiguity. *)
Theorem moveGazeEyes_follows_gaze (leftEye rightEye nose : Point.t) (faceBox : Box.t)
    (st : State) (window : Window) (random1 random2 random3 : num) :
  let direction := fst (V2.estimateGaze leftEye rightEye nose faceBox st) in
  let eyes := V2.moveGazeEyes direction window random1 random2 random3 in
  let offsetX := normalizedOffsetX nose faceBox in
  let offsetY := normalizedOffsetY nose faceBox in
  let shiftX :=
    if offsetX <? Fin (-0.05) then Fin (-180) else if offsetX >? Fin 0.05 then Fin 180
    else Fin 0 in
  let shiftY :=
    if offsetY <? Fin (-0.1) then Fin (-180) else if offsetY >? Fin 0.1 then Fin 180
    else Fin 0 in
  eyes.(irisX)
  = (if offsetX <? Fin (-0.05) then Fin (-6) else if offsetX >? Fin 0.05 then Fin 6
     else Fin 0) /\
  eyes.(irisY)
  = (if offsetY <? Fin (-0.1) then Fin (-5) else if offsetY >? Fin 0.1 then Fin 5
     else Fin 0) /\
  eyes.(style_left)
  = window.(innerWidth) / Fin 2 + (shiftX + (random1 - Fin 0.5) * Fin 20) - Fin 67 /\
  eyes.(style_top)
  = window.(innerHeight) / Fin 2 + (shiftY + (random2 - Fin 0.5) * Fin 20) - Fin 25.
Proof.
  cbv zeta. rewrite estimateGaze_direction.
  unfold gazeLabel, verticalPrefix, horizontalLabel.
  destruct (normalizedOffsetX nose faceBox <? Fin (-0.05));
    [|destruct (normalizedOffsetX nose faceBox >? Fin 0.05)];
    (destruct (normalizedOffsetY nose faceBox <? Fin (-0.1));
     [|destruct (normalizedOffsetY nose faceBox >? Fin 0.1)]);
    repeat split; reflexivity.
Qed.

(** With no face detected, each analysis reads the frame through one or
    two rectangles only. *)
Lemma analyzeEyeColor_reads (canvas : Canvas) (w h : Q) (ctx ctx' : Context2D) (st : State) :
  canvas = {| canvas_width := Fin w; canvas_height := Fin h |} ->
  st.(lastFaceDetection) = None ->
  read ctx (w * 0.35, h * 0.3, w * 0.3, h * 0.1)%Q
  = read ctx' (w * 0.35, h * 0.3, w * 0.3, h * 0.1)%Q ->
  V2.analyzeEyeColor canvas ctx st = V2.analyzeEyeColor canvas ctx' st.
Proof.
  intros -> Hface H. unfold V2.analyzeEyeColor. rewrite Hface.
  cbn [canvas_width canvas_height mul]. unfold read in H. rewrite H. reflexivity.
Qed.

Lemma analyzeHairColor_reads (canvas : Canvas) (w h : Q) (ctx ctx' : Context2D) (st : State) :
  canvas = {| canvas_width := Fin w; canvas_height := Fin h |} ->
  st.(lastFaceDetection) = None ->
  read ctx (w * 0.25, h * 0.05, w * 0.5, h * 0.15)%Q
  = read ctx' (w * 0.25, h * 0.05, w * 0.5, h * 0.15)%Q ->
  V2.analyzeHairColor canvas ctx st = V2.analyzeHairColor canvas ctx' st.
Proof.
  intros -> Hface H. unfold V2.analyzeHairColor. rewrite Hface.
  cbn [canvas_width canvas_height mul]. unfold read in H. rewrite H. reflexivity.
Qed.

Lemma analyzeBackground_reads (canvas : Canvas) (w h : Q) (ctx ctx' : Context2D) (st : State) :
  canvas = {| canvas_width := Fin w; canvas_height := Fin h |} ->
  read ctx (0, h * 0.2, w * 0.15, h * 0.6)%Q = read ctx' (0, h * 0.2, w * 0.15, h * 0.6)%Q ->
  read ctx (w * 0.85, h * 0.2, w * 0.15, h * 0.6)%Q
  = read ctx' (w * 0.85, h * 0.2, w * 0.15, h * 0.6)%Q ->
  V2.analyzeBackground canvas ctx st = V2.analyzeBackground canvas ctx' st.
Proof.
  intros -> H1 H2. unfold V2.analyzeBackground.
  cbn [canvas_width canvas_height mul]. unfold read in H1, H2. rewrite H1, H2. reflexivity.
Qed.

Lemma Qeq_bool_inject_Z (z : Z) : Qeq_bool (inject_Z z) 0 = (z =? 0)%Z.
Proof.
  destruct (Z.eqb_spec z 0) as [->|N]; [reflexivity|].
  destruct (Qeq_bool (inject_Z z) 0) eqn:E; [|reflexivity].
  apply Qeq_bool_eq in E. change 0%Q with (inject_Z 0) in E.
  rewrite inject_Z_injective in E. contradiction.
Qed.

Lemma createDetectionCanvas_size (videoWidth videoHeight : Z) (st : State) :
  (0 <= videoWidth)%Z -> (0 <= videoHeight)%Z ->
  exists w h,
    (V2.createDetectionCanvas (of_Z videoWidth) (of_Z videoHeight) st).(detectionCanvas)
    = Some {| canvas_width := Fin w; canvas_height := Fin h |} /\
    (0 < w)%Q /\ (0 < h)%Q /\
    (w == if (videoWidth =? 0)%Z then 640 else inject_Z videoWidth)%Q /\
    (h == if (videoHeight =? 0)%Z then 480 else inject_Z videoHeight)%Q.
Proof.
  intros Hw Hh. unfold V2.createDetectionCanvas, of_Z, truthy. cbn [detectionCanvas].
  rewrite !Qeq_bool_inject_Z.
  assert (Pw : (videoWidth =? 0)%Z = false -> (0 < inject_Z videoWidth)%Q).
  { intros N. apply Z.eqb_neq in N. change 0%Q with (inject_Z 0). rewrite <- Zlt_Qlt. lia. }
  assert (Ph : (videoHeight =? 0)%Z = false -> (0 < inject_Z videoHeight)%Q).
  { intros N. apply Z.eqb_neq in N. change 0%Q with (inject_Z 0). rewrite <- Zlt_Qlt. lia. }
  destruct (videoWidth =? 0)%Z, (videoHeight =? 0)%Z; cbn [negb];
    do 2 eexists; (split; [reflexivity|]); repeat split; try reflexivity; auto.
Qed.



End Behaviour.
